(** * aiocrawler: the Engine (src/aiocrawler/engine.py)

    A shallow embedding of the orchestration core of aiocrawler: the
    middleware chain built by [Engine.__initialize], the word loop and the
    request loop, the dispatch of a fetch outcome, the item pipeline and the
    shutdown flags.

    Python values are an inductive type with Python's truthiness. The
    external collaborators (scheduler, filter, downloader, collector, spider,
    middleware hooks) are methods acting on an abstract world; each method is
    a plain function or a coroutine function, which decides when its body
    runs and where its exceptions surface. The engine's coroutines are written
    in a state-and-exception monad that also records, in program order, the
    calls the engine makes, its sleeps and what it logs.

    Conventions of the embedding:
    - a coroutine runs without interleaving up to its end; the tasks made by
      [asyncio.ensure_future] run when [asyncio.wait] awaits them, in the
      order they were made;
    - a job handed to the job scheduler is kept in the engine state and is not
      run by the coroutine that spawned it;
    - a [while not self.__shutting_down] loop is followed for a given number
      of passes, with the number of SIGINT received during each pass;
    - the interleaving of two loops on the event loop is a separate relation
      on their events ([schedule]);
    - requests, responses and items are values: the update the engine makes
      in place, [response.meta = request.meta], is followed through the alias
      [handled_data]; a hook that changes its argument in place instead of
      returning a new one is seen as a hook acting on the world only. *)

From stdpp Require Import gmap strings list fin_maps sorting.

Open Scope Z_scope.

(* ===================================================================== *)
(** ** Python data *)
(* ===================================================================== *)

(** An exception (an instance of a subclass of [Exception]), identified by
    its class name. *)
Definition exn := string.

Definition AttributeError : exn := "AttributeError"%string.

(** A function object held by a request: [fn_name] is its [__name__],
    [fn_isfunction] is what [inspect.isfunction] answers (true for a plain
    function, false for a bound method). *)
Record funcref := FuncRef {
  fn_id : nat;
  fn_name : string;
  fn_isfunction : bool
}.

(** The metadata bag of a request, [None] or a dict. *)
Definition pymeta := option (list (string * string)).

(** Modelled from the spec: the [Request] class, which is not among the
    sources. Of its fields (method, URL, headers, timeout, metadata bag,
    callback, error callback, handling mode) the record keeps those the
    engine reads. A request is truthy. *)
Record request := Request {
  req_method : string;
  req_url : string;
  req_meta : pymeta;
  req_callback : option funcref;
  req_err_callback : option funcref
}.

(** Modelled from the spec: the [Response] class, which is not among the
    sources: status code, body, and a copy of the metadata of the request.
    A response is truthy. *)
Record response := Response {
  resp_status : Z;
  resp_text : string;
  resp_meta : pymeta
}.

(** Values stored in an item. *)
Inductive fval := FNone | FStr (s : string) | FInt (z : Z).

(** An entry of a class [__dict__]: a [Field] instance or anything else
    (a method, [__module__], [__doc__], a plain class attribute). *)
Inductive class_attr := AField | AOther.

#[global] Instance class_attr_eq_dec : EqDecision class_attr.
Proof. solve_decision. Defined.

(** A class of items: [ic_dict] is the namespace of the class itself
    ([cls.__dict__], the names bound in the class body, in that order);
    [ic_inherited] holds the names bound by its base classes, in method
    resolution order. *)
Record item_class := ItemClass {
  ic_name : string;
  ic_dict : list (string * class_attr);
  ic_inherited : list (string * class_attr)
}.

Fixpoint namespace_lookup (name : string) (d : list (string * class_attr))
    : option class_attr :=
  match d with
  | [] => None
  | (n, a) :: d' => if String.eqb n name then Some a else namespace_lookup name d'
  end.

(** [getattr(cls, name)]: the name is looked up in the class, then along its
    method resolution order. *)
Definition class_getattr (c : item_class) (name : string)
    : option class_attr :=
  namespace_lookup name (ic_dict c ++ ic_inherited c).

(** [isinstance(getattr(cls, name), Field)] *)
Definition is_field (c : item_class) (name : string) : bool :=
  match class_getattr c name with
  | Some AField => true
  | _ => false
  end.

(** The fields of an item's type as the specification has them: every name
    bound to a [Field] on the class, by its own body or by a base class. *)
Definition spec_declared_fields (c : item_class) : list string :=
  List.filter (is_field c) (ic_dict c ++ ic_inherited c).*1.

(** Modelled from the spec: the [Item] class, which is not among the
    sources: a typed record with a declared set of named fields. The engine
    uses an item as a mapping ([item.get], [item[k] = v]); [item_data] is the
    mapping, [item_attrs] the instance attributes user code may have set on
    the object. A new instance [cls()] has neither keys nor attributes. *)
Record item := Item {
  item_cls : item_class;
  item_data : gmap string fval;
  item_attrs : gmap string fval
}.

#[local] Set Warnings "-register-all".

Inductive pyval :=
| VNone
| VBool (b : bool)
| VStr (s : string)
| VExc (e : exn)
| VRequest (r : request)
| VResponse (r : response)
| VItem (i : item)
| VList (l : list pyval)
| VIter (l : list pyval) (fail : option exn)
    (* a generator: yields the elements of [l], then raises [fail] if any *)
| VObj (id : nat).
    (* any other object, truthy and without the attributes the engine reads *)

(** [bool(item)] for a mapping: non-empty. *)
Definition item_truthy (i : item) : bool := bool_decide (item_data i ≠ ∅).

(** Python truthiness, as tested by [if x:]. *)
Definition truthy (v : pyval) : bool :=
  match v with
  | VNone => false
  | VBool b => b
  | VStr s => negb (String.eqb s "")
  | VExc _ => true
  | VRequest _ => true
  | VResponse _ => true
  | VItem i => item_truthy i
  | VList l => match l with [] => false | _ => true end
  | VIter _ _ => true
  | VObj _ => true
  end.

Definition is_none (v : pyval) : bool :=
  match v with VNone => true | _ => false end.

Definition is_response (v : pyval) : bool :=
  match v with VResponse _ => true | _ => false end.

(* ===================================================================== *)
(** ** The middleware chain built at startup ([Engine.__initialize]) *)
(* ===================================================================== *)

(** A class object: its qualified name and the names of its method
    resolution order, itself first. Identity of a class is its name. *)
Record pyclass := PyClass {
  cls_name : string;
  cls_mro : list string
}.

#[global] Instance pyclass_eq_dec : EqDecision pyclass.
Proof. solve_decision. Defined.

(** [issubclass(c, d)]: [d] occurs in the method resolution order of [c]. *)
Definition issubclass (c d : pyclass) : bool :=
  bool_decide (cls_name d ∈ cls_mro c).

Definition BaseMiddleware : pyclass :=
  PyClass "BaseMiddleware" ["BaseMiddleware"; "object"]%string.

Definition object_class : pyclass := PyClass "object" ["object"%string].

(** [middlewares.__all__] (src/aiocrawler/middlewares/__init__.py). *)
Definition middlewares_all : list string :=
  ["BaseMiddleware"; "AllowedCodesMiddleware"; "SetDefaultMiddleware";
   "UserAgentMiddleware"]%string.

(** [getattr(middlewares, mw_name)] for a name of [middlewares.__all__]:
    the class of that name; every class other than [BaseMiddleware] derives
    from it. *)
Definition getattr_middlewares (mw_name : string) : pyclass :=
  if String.eqb mw_name "BaseMiddleware" then BaseMiddleware
  else PyClass mw_name [mw_name; "BaseMiddleware"; "object"]%string.

(** The two settings read when the chain is built. [DEFAULT_MIDDLEWARES] is a
    dict from names to priorities, kept as its items in insertion order;
    [MIDDLEWARES] is a list of (class, priority) pairs. *)
Record settings := Settings {
  DEFAULT_MIDDLEWARES : list (string * Z);
  MIDDLEWARES : list (pyclass * Z)
}.

(** [0 <= key <= 1000] *)
Definition valid_priority (key : Z) : bool := (0 <=? key) && (key <=? 1000).

(** The first loop: entries of [DEFAULT_MIDDLEWARES]. *)
Definition default_entries (s : settings) : list (pyclass * Z) :=
  flat_map (fun '(mw_name, key) =>
              if valid_priority key && bool_decide (mw_name ∈ middlewares_all)
              then [(getattr_middlewares mw_name, key)] else [])
           (DEFAULT_MIDDLEWARES s).

(** The second loop: entries of [MIDDLEWARES]. The test is
    [issubclass(middlewares.BaseMiddleware, mw)], in this argument order. *)
Definition configured_entries (s : settings) : list (pyclass * Z) :=
  flat_map (fun '(mw, key) =>
              if valid_priority key && issubclass BaseMiddleware mw
              then [(mw, key)] else [])
           (MIDDLEWARES s).

(** [self.__middlewares] after both loops, before sorting. *)
Definition appended_entries (s : settings) : list (pyclass * Z) :=
  default_entries s ++ configured_entries s.

(** [sorted(l, key=lambda x: x[1])]: Python's sort is stable; the result of a
    stable sort is determined by the input, here computed by insertion. *)
Fixpoint insert_by_key {A : Type} (x : A * Z) (l : list (A * Z)) : list (A * Z) :=
  match l with
  | [] => [x]
  | y :: l' => if x.2 <=? y.2 then x :: y :: l' else y :: insert_by_key x l'
  end.

Fixpoint sorted {A : Type} (l : list (A * Z)) : list (A * Z) :=
  match l with
  | [] => []
  | x :: l' => insert_by_key x (sorted l')
  end.

(** The classes of the chain, in chain order; the chain itself is one
    instance [cls(settings, engine)] per entry. *)
Definition initialize_middlewares (s : settings) : list pyclass :=
  map fst (sorted (appended_entries s)).




(* ===================================================================== *)
(** ** Calls, events and outcomes *)
(* ===================================================================== *)

Inductive outcome (A : Type) :=
| Ok (a : A)
| Raise (e : exn).
Arguments Ok {A} a.
Arguments Raise {A} e.

(** [await asyncio.sleep(..)] suspends the coroutine and gives control back to
    the event loop; [time.sleep(..)] keeps the thread. *)
Inductive sleep_kind := Suspending | Blocking.

Inductive delay :=
| PROCESS_DALEY
| DOWNLOAD_DALEY_jittered.   (* DOWNLOAD_DALEY * uniform(0.5, 1.5) *)

(** The calls the engine makes on its collaborators, with their arguments. *)
Inductive op :=
| get_word
| get_request
| send_request (v : pyval)
| send_item (v : pyval)
| append_error_request (v : pyval)
| filter_request (v : pyval)
| filter_item (i : item)
| download (v : pyval)
| parse_html (v : pyval) (r : response)
| collect_word
| collect_request (v : pyval)
| collect_response_received (r : response)
| collect_downloader_exception
| collect_item (v : pyval)
| process_request (mw : string) (v : pyval)
| process_response (mw : string) (v : pyval) (r : response)
| process_exception (mw : string) (v : pyval) (e : exn)
| process_item (mw : string) (i : item)
| make_request (word : pyval)
| callback (f : funcref) (r : response)
| err_callback (f : funcref) (v : pyval) (e : exn).

Inductive log_level := Debug | Success | Error.

Inductive log_message :=
| Traceback (e : exn)
| MakingRequest (word : pyval)
| Crawled (status : Z) (method url : string)
| CrawledFrom (method url : string) (v : pyval)
| ReceivedSignal (forced : bool).

Inductive event :=
| EvSleep (k : sleep_kind) (d : delay)
| EvCall (o : op)
| EvLog (l : log_level) (m : log_message).

Section Monad.

(** The state of everything outside the engine. *)
Context {W : Type}.

(** A method of a collaborator. [m_coro] tells a coroutine function
    ([async def]) from a plain one; [m_body] is what running the body does. *)
Record method := Method {
  m_coro : bool;
  m_body : list pyval → W → outcome pyval * W
}.

(** A middleware instance (src/aiocrawler/middlewares/middleware.py). *)
Record middleware := Middleware {
  mw_name : string;
  mw_process_request : method;
  mw_process_response : method;
  mw_process_exception : method;
  mw_process_item : method
}.

Record components := Components {
  (* self._scheduler *)
  sch_get_word : method;
  sch_get_request : method;
  sch_send_request : method;
  sch_send_item : method;
  sch_append_error_request : method;
  (* self._filters *)
  flt_filter_request : method;
  flt_filter_item : method;
  (* self.__downloader *)
  dl_download : method;
  dl_parse_html : pyval → response → W → outcome response * W;
  (* self.__collector *)
  col_collect_word : method;
  col_collect_request : method;
  col_collect_response_received : method;
  col_collect_downloader_exception : method;
  col_collect_item : method;
  (* self._spider *)
  spider_make_request : pyval → W → outcome pyval * W;
  spider_class_attrs : list string;   (* names for which hasattr(spider.__class__, _) *)
  (* calling a function object carried by a request *)
  call_function : funcref → list pyval → W → outcome pyval * W
}.

(** The value of a call expression [m(args)]: a coroutine object whose body
    has not run yet, or the value a plain function returned. *)
Inductive awaitable :=
| Coroutine (body : W → outcome pyval * W)
| Plain (v : pyval).

Record engine := Engine {
  shutting_down : bool;       (* self.__shutting_down *)
  shutdown : bool;            (* self.__shutdown *)
  signal_int_count : nat;     (* self.__signal_int_count *)
  finish_reason : string;     (* self.__collector.finish_reason *)
  middlewares : list middleware;   (* self.__middlewares *)
  jobs : list awaitable;      (* handed to self.__job_scheduler, not yet run *)
  world : W
}.

Definition set_world (w : W) (st : engine) : engine :=
  Engine (shutting_down st) (shutdown st) (signal_int_count st)
         (finish_reason st) (middlewares st) (jobs st) w.

Definition add_job (j : awaitable) (st : engine) : engine :=
  Engine (shutting_down st) (shutdown st) (signal_int_count st)
         (finish_reason st) (middlewares st) (jobs st ++ [j]) (world st).

(** *** The monad of the engine's coroutines: state, exceptions and the
    events produced, in program order. *)
Definition M (A : Type) : Type := engine → outcome A * engine * list event.

Definition ret {A} (a : A) : M A := fun st => (Ok a, st, []).

Definition raise {A} (e : exn) : M A := fun st => (Raise e, st, []).

(** The events [evs] happened before those of the run [x]. *)
Definition after {A} (evs : list event) (x : outcome A * engine * list event)
    : outcome A * engine * list event :=
  match x with (r, st, evs') => (r, st, evs ++ evs') end.

Definition bind {A B} (m : M A) (k : A → M B) : M B := fun st =>
  match m st with
  | (Ok a, st1, ev1) => after ev1 (k a st1)
  | (Raise e, st1, ev1) => (Raise e, st1, ev1)
  end.

#[local] Notation "x <- m ;; k" := (bind m (fun x => k))
  (at level 100, m at next level, right associativity).
#[local] Notation "m ;; k" := (bind m (fun _ => k))
  (at level 100, right associativity).

Definition emit (e : event) : M unit := fun st => (Ok tt, st, [e]).

Definition in_world {A} (f : W → outcome A * W) : M A := fun st =>
  match f (world st) with (r, w) => (r, set_world w st, []) end.

Definition get_middlewares : M (list middleware) :=
  fun st => (Ok (middlewares st), st, []).

(** The call expression [m(args)]. A plain function runs now and what it
    raises is raised by the expression; a coroutine function only builds the
    coroutine object. *)
Definition call_method (o : op) (m : method) (args : list pyval) : M awaitable :=
  emit (EvCall o) ;;
  if m_coro m then ret (Coroutine (m_body m args))
  else v <- in_world (m_body m args) ;; ret (Plain v).

(** A direct call of user code. *)
Definition call {A} (o : op) (f : W → outcome A * W) : M A :=
  emit (EvCall o) ;; in_world f.

(** [Engine.__run_task], awaited:
      try:
          if asyncio.iscoroutine(task): return await task
          else: return task
      except Exception:
          logger.error(traceback.format_exc())                            *)
Definition run_task (task : awaitable) : M pyval := fun st =>
  match task with
  | Coroutine body =>
      match body (world st) with
      | (Ok v, w) => (Ok v, set_world w st, [])
      | (Raise e, w) => (Ok VNone, set_world w st, [EvLog Error (Traceback e)])
      end
  | Plain v => (Ok v, st, [])
  end.

(** [await self.__job_scheduler.spawn(self.__run_task(task))]: the job is
    handed to the job scheduler and runs in the background. *)
Definition spawn_run_task (task : awaitable) : M unit :=
  fun st => (Ok tt, add_job task st, []).

(** Running the coroutine wrapped by [asyncio.ensure_future(m(args))]. *)
Definition ensure_future (task : awaitable) : M unit :=
  match task with
  | Coroutine body => in_world body ;; ret tt
  | Plain _ => ret tt
  end.

(** A task made by [asyncio.ensure_future] and awaited with [asyncio.wait]:
    [asyncio.wait] returns when the task is done and does not re-raise what
    the task raised. The event loop may interleave the tasks of a list at
    their suspension points; [asyncio_wait] follows one of its schedules,
    each task run to its end in the order the tasks were made. *)
Definition settled {A} (m : M A) : M unit := fun st =>
  match m st with (_, st', evs) => (Ok tt, st', evs) end.

Fixpoint asyncio_wait (tasks : list (M unit)) : M unit :=
  match tasks with
  | [] => ret tt
  | t :: rest => settled t ;; asyncio_wait rest
  end.

(** Reading an attribute of the request ([request.method], [request.meta],
    [request.callback], ...): only a [Request] has them. *)
Definition as_request (v : pyval) : M request :=
  match v with
  | VRequest r => ret r
  | _ => raise AttributeError
  end.

End Monad.

Arguments method W : clear implicits.
Arguments middleware W : clear implicits.
Arguments components W : clear implicits.
Arguments awaitable W : clear implicits.
Arguments engine W : clear implicits.
Arguments M W A : clear implicits.

Notation "x <- m ;; k" := (bind m (fun x => k))
  (at level 100, m at next level, right associativity).
Notation "m ;; k" := (bind m (fun _ => k))
  (at level 100, right associativity).

(* ===================================================================== *)
(** ** The engine's coroutines *)
(* ===================================================================== *)

Section Engine.

Context {W : Type} (C : components W).

#[local] Abbreviation M := (M W).
#[local] Abbreviation middleware := (middleware W).
#[local] Abbreviation engine := (engine W).

(** [hasattr(self._spider.__class__, name)] *)
Definition spider_hasattr (name : string) : bool :=
  bool_decide (name ∈ spider_class_attrs C).

(* --------------------------------------------------------------------- *)
(** *** The item pipeline *)
(* --------------------------------------------------------------------- *)

(** [Engine.get_fields]: the names of [item.__class__.__dict__] whose
    attribute on the class is a [Field], in the order of the dict. *)
Definition get_fields (i : item) : list string :=
  flat_map (fun field_name =>
              if is_field (item_cls i) field_name then [field_name] else [])
           (ic_dict (item_cls i)).*1.

(** [item_copy[field] = item.get(field, None)] *)
Definition copy_field (i : item) (item_copy : item) (field : string) : item :=
  Item (item_cls item_copy)
       (<[field := default FNone (item_data i !! field)]> (item_data item_copy))
       (item_attrs item_copy).

(** [item_copy = item.__class__()] followed by the loop over the fields. *)
Definition copy_item (i : item) : item :=
  fold_left (copy_field i) (get_fields i) (Item (item_cls i) ∅ ∅).

(** The loop over the middlewares of [__handle_spider_item]; it stops at the
    first hook that returns an [Item]. *)
Fixpoint item_chain (mws : list middleware) (it : item) : M item :=
  match mws with
  | [] => ret it
  | mw :: rest =>
      task <- call_method (process_item (mw_name mw) it)
                          (mw_process_item mw) [VItem it] ;;
      processed_item <- run_task task ;;
      match processed_item with
      | VItem p => ret p
      | _ => item_chain rest it
      end
  end.

Definition handle_spider_item (it : item) : M (option item) :=
  mws <- get_middlewares ;;
  it' <- item_chain mws it ;;
  if item_truthy it' then ret (Some (copy_item it')) else ret None.

Definition filter_and_send (request : pyval) (it : item) : M unit :=
  task <- call_method (filter_item it) (flt_filter_item C) [VItem it] ;;
  v <- run_task task ;;
  if truthy v then
    task <- call_method (collect_item v) (col_collect_item C) [v] ;;
    spawn_run_task task ;;
    r <- as_request request ;;
    emit (EvLog Success (CrawledFrom (req_method r) (req_url r) v)) ;;
    task <- call_method (send_item v) (sch_send_item C) [v] ;;
    run_task task ;;
    ret tt
  else ret tt.

(* --------------------------------------------------------------------- *)
(** *** Dispatch of what the downloader returned *)
(* --------------------------------------------------------------------- *)

(** The loop of [__handle_downloader_exception]: [handled] is the value of
    [handled_data] when the loop is entered. *)
Fixpoint exception_chain (mws : list middleware) (request : pyval)
    (exception : exn) (handled : pyval) : M pyval :=
  match mws with
  | [] => ret handled
  | mw :: rest =>
      task <- call_method (process_exception (mw_name mw) request exception)
                          (mw_process_exception mw) [request; VExc exception] ;;
      handled_data <- run_task task ;;
      if truthy handled_data then ret handled_data
      else exception_chain rest request exception handled_data
  end.

Definition handle_downloader_exception (request : pyval) (exception : exn)
    : M pyval :=
  mws <- get_middlewares ;;
  handled_data <- exception_chain mws request exception VNone ;;
  if is_none handled_data then
    task <- call_method (append_error_request request)
                        (sch_append_error_request C) [request] ;;
    spawn_run_task task ;;
    r <- as_request request ;;
    match req_err_callback r with
    | Some f =>
        if fn_isfunction f && spider_hasattr (fn_name f)
        then call (err_callback f request exception)
                  (call_function C f [request; VExc exception])
        else ret handled_data
    | None => ret handled_data      (* isfunction(None) is False *)
    end
  else ret handled_data.

(** The loop of [__handle_downloader_response]; it returns [handled_data]
    and the current [response]. *)
Fixpoint response_chain (mws : list middleware) (request : pyval)
    (resp : response) (handled : pyval) : M (pyval * response) :=
  match mws with
  | [] => ret (handled, resp)
  | mw :: rest =>
      task <- call_method (process_response (mw_name mw) request resp)
                          (mw_process_response mw) [request; VResponse resp] ;;
      handled_data <- run_task task ;;
      if truthy handled_data then
        match handled_data with
        | VResponse r => ret (handled_data, r)    (* response = handled_data *)
        | _ => ret (handled_data, resp)
        end                                       (* break *)
      else response_chain rest request resp handled_data
  end.

Definition set_meta (m : pymeta) (r : response) : response :=
  Response (resp_status r) (resp_text r) m.

Definition handle_downloader_response (request : pyval) (resp : response)
    : M pyval :=
  resp <- call (parse_html request resp) (dl_parse_html C request resp) ;;
  mws <- get_middlewares ;;
  hr <- response_chain mws request resp VNone ;;
  let handled_data := hr.1 in
  let resp := hr.2 in
  if is_response handled_data || is_none handled_data then
    r <- as_request request ;;
    emit (EvLog Success (Crawled (resp_status resp) (req_method r) (req_url r))) ;;
    (* response.meta = request.meta; handled_data, when a Response, is the
       same object as response *)
    let resp := set_meta (req_meta r) resp in
    let handled_data :=
      if is_response handled_data then VResponse resp else handled_data in
    match req_callback r with
    | Some f =>
        if spider_hasattr (fn_name f)
        then call (callback f resp) (call_function C f [VResponse resp])
        else ret handled_data
    | None => raise AttributeError   (* request.callback.__name__ *)
    end
  else ret handled_data.

(** The loop [for one in handled_data] of [__handle_downloader_output]; it
    returns the tasks made by [asyncio.ensure_future], which run when
    [asyncio.wait] awaits them. *)
Fixpoint fan_out (request : pyval) (l : list pyval) (tasks : list (M unit))
    : M (list (M unit)) :=
  match l with
  | [] => ret tasks
  | one :: rest =>
      match one with
      | VRequest _ =>
          if m_coro (sch_send_request C) then
            task <- call_method (send_request one) (sch_send_request C) [one] ;;
            fan_out request rest (tasks ++ [ensure_future task])
          else
            call_method (send_request one) (sch_send_request C) [one] ;;
            fan_out request rest tasks
      | VItem i =>
          copy <- handle_spider_item i ;;
          match copy with
          | Some it =>
              if item_truthy it
              then fan_out request rest (tasks ++ [filter_and_send request it])
              else fan_out request rest tasks
          | None => fan_out request rest tasks
          end
      | _ => fan_out request rest tasks
      end
  end.

Definition handle_downloader_output (request data : pyval) : M unit :=
  handled_data <-
    match data with
    | VExc e =>
        task <- call_method collect_downloader_exception
                            (col_collect_downloader_exception C) [] ;;
        spawn_run_task task ;;
        handle_downloader_exception request e
    | VResponse r =>
        task <- call_method (collect_response_received r)
                            (col_collect_response_received C) [VResponse r] ;;
        spawn_run_task task ;;
        handle_downloader_response request r
    | _ => ret VNone
    end ;;
  if negb (truthy handled_data) then ret tt
  else
    let '(elements, failure) :=
      match handled_data with
      | VList l => (l, None)
      | VIter l f => (l, f)
      | v => ([v], None)
      end in
    tasks <- fan_out request elements [] ;;
    match failure with
    | Some e => raise e        (* the generator raised inside the for loop *)
    | None => match tasks with [] => ret tt | _ => asyncio_wait tasks end
    end.

(* --------------------------------------------------------------------- *)
(** *** The word loop and the request loop *)
(* --------------------------------------------------------------------- *)

(** The body of the [while] of [__handle_scheduler_word] from the pop on,
    that is, once [await asyncio.sleep(..)] has resumed. *)
Definition word_after_poll : M unit :=
  task <- call_method get_word (sch_get_word C) [] ;;
  word <- run_task task ;;
  if truthy word then
    task <- call_method collect_word (col_collect_word C) [] ;;
    spawn_run_task task ;;
    emit (EvLog Debug (MakingRequest word)) ;;
    request <- call (make_request word) (spider_make_request C word) ;;
    if truthy request then
      task <- call_method (send_request request) (sch_send_request C) [request] ;;
      run_task task ;;
      ret tt
    else ret tt
  else ret tt.

(** One pass through the body of the [while] of [__handle_scheduler_word]. *)
Definition word_iteration : M unit :=
  emit (EvSleep Suspending PROCESS_DALEY) ;;
  word_after_poll.

(** The loop over the middlewares inside [__handle_scheduler_request]. *)
Fixpoint request_chain (mws : list middleware) (request : pyval) : M unit :=
  match mws with
  | [] => ret tt
  | downloader_middleware :: rest =>
      task <- call_method (process_request (mw_name downloader_middleware) request)
                          (mw_process_request downloader_middleware) [request] ;;
      run_task task ;;
      request_chain rest request
  end.

(** The body of the [while] of [__handle_scheduler_request] from the pop on,
    that is, once [await asyncio.sleep(..)] has resumed. *)
Definition request_after_poll : M unit :=
  task <- call_method get_request (sch_get_request C) [] ;;
  request <- run_task task ;;
  if truthy request then
    task <- call_method (filter_request request) (flt_filter_request C) [request] ;;
    request <- run_task task ;;
    if truthy request then
      task <- call_method (collect_request request) (col_collect_request C) [request] ;;
      spawn_run_task task ;;
      mws <- get_middlewares ;;
      request_chain mws request ;;
      emit (EvSleep Blocking DOWNLOAD_DALEY_jittered) ;;
      task <- call_method (download request) (dl_download C) [request] ;;
      data <- run_task task ;;
      handle_downloader_output request data
    else ret tt
  else ret tt.

(** One pass through the body of the [while] of
    [__handle_scheduler_request]. *)
Definition request_iteration : M unit :=
  emit (EvSleep Suspending PROCESS_DALEY) ;;
  request_after_poll.

(** [Engine.close_crawler] *)
Definition close_crawler (reason : string) (force : bool) (st : engine)
    : engine :=
  let st :=
    if force
    then Engine (shutting_down st) true (signal_int_count st)
                (finish_reason st) (middlewares st) (jobs st) (world st)
    else Engine true (shutdown st) (signal_int_count st)
                (finish_reason st) (middlewares st) (jobs st) (world st) in
  Engine (shutting_down st) (shutdown st) (signal_int_count st)
         reason (middlewares st) (jobs st) (world st).

(** [Engine.__shutdown_signal], the SIGINT handler. *)
Definition shutdown_signal : M unit := fun st =>
  let st := Engine (shutting_down st) (shutdown st) (S (signal_int_count st))
                   (finish_reason st) (middlewares st) (jobs st) (world st) in
  if Nat.eqb (signal_int_count st) 1 then
    (Ok tt, close_crawler "Received SIGNAL INT" false st,
     [EvLog Debug (ReceivedSignal false)])
  else
    (Ok tt, close_crawler "Received SIGNAL INT" true st,
     [EvLog Debug (ReceivedSignal true)]).

Fixpoint deliver (n : nat) : M unit :=
  match n with
  | O => ret tt
  | S n' => shutdown_signal ;; deliver n'
  end.

(** How a loop stands after the passes it was given. *)
Inductive loop_status :=
| Returned      (* the [while] test failed and the coroutine returned *)
| Running.      (* the coroutine is still in the loop *)

(** The SIGINTs that reach the process during one pass of a loop. The flag
    is tested at the top of the pass, then the coroutine is suspended in the
    poll delay: the handler of a SIGINT that arrives there runs before the
    pop ([in_poll_delay]). The handler of one that arrives later in the pass
    runs before the next test of the flag ([in_flight]); the pass neither
    reads nor writes what the handler sets. *)
Record arrivals := Arrivals {
  in_poll_delay : nat;
  in_flight : nat
}.

(** A pass during which no SIGINT arrives. *)
Definition calm : arrivals := Arrivals 0 0.

(** A [while not self.__shutting_down] loop whose body is
    [await asyncio.sleep(PROCESS_DALEY)] followed by [after_poll]. The list
    [signals] gives, for each pass, the SIGINTs that arrive during it; the
    loop is followed for [length signals] passes. An exception of the body
    leaves the loop ([Raise]). *)
Fixpoint while_not_shutting_down (after_poll : M unit)
    (signals : list arrivals) : M loop_status :=
  fun st =>
    if shutting_down st then (Ok Returned, st, [])
    else
      match signals with
      | [] => (Ok Running, st, [])
      | a :: rest =>
          (emit (EvSleep Suspending PROCESS_DALEY) ;;
           deliver (in_poll_delay a) ;;
           after_poll ;;
           deliver (in_flight a) ;;
           while_not_shutting_down after_poll rest) st
      end.

Definition handle_scheduler_word : list arrivals → M loop_status :=
  while_not_shutting_down word_after_poll.

Definition handle_scheduler_request : list arrivals → M loop_status :=
  while_not_shutting_down request_after_poll.

End Engine.

(* ===================================================================== *)
(** ** Counting what a run did *)
(* ===================================================================== *)

(** A call of the fetcher. *)
Definition is_fetch (ev : event) : bool :=
  match ev with EvCall (download _) => true | _ => false end.

(** A pop of the work queue. *)
Definition is_pop (ev : event) : bool :=
  match ev with EvCall get_word | EvCall get_request => true | _ => false end.

(** The log line of the SIGINT handler. *)
Definition is_signal (ev : event) : bool :=
  match ev with EvLog Debug (ReceivedSignal _) => true | _ => false end.

(** The property the specification asks of a run: once a shutdown signal has
    been received, no word and no request is popped. *)
Fixpoint no_pop_after_signal (evs : list event) : bool :=
  match evs with
  | [] => true
  | ev :: rest =>
      if is_signal ev then forallb (λ ev', negb (is_pop ev')) rest
      else no_pop_after_signal rest
  end.

(** A call of a pre-request hook. *)
Definition is_pre_request_hook (ev : event) : bool :=
  match ev with EvCall (process_request _ _) => true | _ => false end.

(** The request-consumed telemetry event. *)
Definition is_request_consumed (ev : event) : bool :=
  match ev with EvCall (collect_request _) => true | _ => false end.

(** A call of the work queue's error recording. *)
Definition is_error_recording (ev : event) : bool :=
  match ev with EvCall (append_error_request _) => true | _ => false end.

(** A call that hands on a new Request or Item: pushing a request, or an
    item entering the item pipeline, the filter or the item sink. *)
Definition is_production (ev : event) : bool :=
  match ev with
  | EvCall (send_request _) | EvCall (send_item _)
  | EvCall (filter_item _) | EvCall (process_item _ _)
  | EvCall (collect_item _) => true
  | _ => false
  end.

(** An exception logged by [__run_task]. *)
Definition is_error_log (ev : event) : bool :=
  match ev with EvLog Error _ => true | _ => false end.

Definition occurrences (p : event → bool) (evs : list event) : nat :=
  length (List.filter p evs).

(** The calls of the hooks of the middleware named [mw]. *)
Definition is_hook_of (mw : string) (ev : event) : bool :=
  match ev with
  | EvCall (process_request n _) | EvCall (process_response n _ _)
  | EvCall (process_exception n _ _) | EvCall (process_item n _) =>
      String.eqb n mw
  | _ => false
  end.

(** [await __run_task(m(args))] never raises and gives a value in [P]: the
    body returns such a value, or it raises inside a coroutine, which
    [__run_task] turns into [None]. *)
Definition awaits_to {W} (P : pyval → Prop) (m : method W) (args : list pyval)
    : Prop :=
  ∀ w, match m_body m args w with
       | (Ok v, _) => P v
       | (Raise _, _) => m_coro m = true ∧ P VNone
       end.

(** The call expression [m(args)] does not raise: [m] is a coroutine
    function, or its body returns. *)
Definition quiet {W} (m : method W) (args : list pyval) : Prop :=
  m_coro m = true ∨ ∀ w, ∃ v w', m_body m args w = (Ok v, w').

(** The user function [f] raises [e] whenever it is called. *)
Definition always_raises {W A} (f : W → outcome A * W) (e : exn) : Prop :=
  ∀ w, ∃ w', f w = (Raise e, w').

(* ===================================================================== *)
(** ** Predicates on runs of the engine *)
(* ===================================================================== *)

Section Predicates.

Context {W : Type} (C : components W).

#[local] Abbreviation M := (M W).
#[local] Abbreviation engine := (engine W).
#[local] Abbreviation middleware := (middleware W).

(** What a run may be, whatever its final state and events. *)
Definition raises {A} (e : exn) (x : outcome A * engine * list event) : Prop :=
  ∃ st evs, x = (Raise e, st, evs).

Definition is_log (ev : event) : bool :=
  match ev with EvLog _ _ => true | _ => false end.

(** What [await __run_task(m(args))] does to the world, the value it gives
    and what it logs. *)
Definition awaited (m : method W) (args : list pyval) (w : W)
    : outcome pyval * W * list event :=
  match m_body m args w with
  | (Ok v, w') => (Ok v, w', [])
  | (Raise e, w') =>
      if m_coro m then (Ok VNone, w', [EvLog Error (Traceback e)])
      else (Raise e, w', [])
  end.

(** The state [st] with other flags, signal count and finish reason. *)
Definition with_flags (a b : bool) (n : nat) (s : string) (st : engine)
    : engine :=
  Engine a b n s (middlewares st) (jobs st) (world st).

Definition same_flags (st st' : engine) : Prop :=
  shutting_down st' = shutting_down st ∧ shutdown st' = shutdown st ∧
  signal_int_count st' = signal_int_count st ∧
  finish_reason st' = finish_reason st.

(** [m] neither reads nor writes the flags, leaves the middleware chain as it
    is, and returns a value in [P]. *)
Definition oblivious {A} (P : A → Prop) (m : M A) : Prop :=
  ∀ st r st' evs, m st = (r, st', evs) →
    same_flags st st' ∧ middlewares st' = middlewares st ∧
    (∀ x, r = Ok x → P x) ∧
    ∀ a b n s, m (with_flags a b n s st) = (r, with_flags a b n s st', evs).

Definition any {A} (x : A) : Prop := True.

(** The value of [handled_data] after the test on the chain's result: a
    substituted Response is the object that received the request's
    metadata. *)
Definition delivered (handled : pyval) (resp : response) : pyval :=
  if is_response handled then VResponse resp else handled.

(** Every post-exception hook gives an empty result, and the last one
    [None]. *)
Definition exception_hooks_decline (mws : list middleware) (req : pyval)
    (e : exn) : Prop :=
  Forall (λ mw, awaits_to (λ v, truthy v = false)
                          (mw_process_exception mw) [req; VExc e]) mws ∧
  match last mws with
  | Some mw => awaits_to (λ v, v = VNone) (mw_process_exception mw) [req; VExc e]
  | None => True
  end.

Definition is_exception_hook_or_log (ev : event) : bool :=
  match ev with
  | EvCall (process_exception _ _ _) | EvLog _ _ => true
  | _ => false
  end.

(** [isfunction(request.err_callback) and hasattr(spider.__class__, name)] *)
Definition err_callback_resolvable (r : request) : bool :=
  match req_err_callback r with
  | Some f => fn_isfunction f && spider_hasattr C (fn_name f)
  | None => false
  end.

(** A pass of the request loop pops the request [r], the filter accepts it,
    no call made on the way raises, and the downloader returns [data]. *)
Definition fetches (st : engine) (r : request) (data : pyval) : Prop :=
  (∃ w1, m_body (sch_get_request C) [] (world st) = (Ok (VRequest r), w1)) ∧
  awaits_to (λ v, v = VRequest r) (flt_filter_request C) [VRequest r] ∧
  quiet (col_collect_request C) [VRequest r] ∧
  Forall (λ mw, awaits_to any (mw_process_request mw) [VRequest r])
         (middlewares st) ∧
  awaits_to (λ v, v = data) (dl_download C) [VRequest r].

End Predicates.

(* ===================================================================== *)
(** ** Cooperative scheduling of two loops on one thread *)
(* ===================================================================== *)

(** Control goes back to the event loop only where a coroutine suspends:
    at an awaited [asyncio.sleep], and possibly at a call of a collaborator
    (every call is counted as a point where control may change hands).
    [time.sleep] and logging keep the thread. *)
Definition yields (ev : event) : bool :=
  match ev with
  | EvSleep Suspending _ => true
  | EvSleep Blocking _ => false
  | EvCall _ => true
  | EvLog _ _ => false
  end.

Inductive loop_id := ThisLoop | OtherLoop.

(** [schedule holder a b l]: [l] is a run of the event loop executing the
    events [a] of one loop and [b] of another; [holder] is the loop that has
    the thread and has not suspended since its last event, if any. *)
Inductive schedule :
  option loop_id → list event → list event → list (loop_id * event) → Prop :=
| schedule_done holder : schedule holder [] [] []
| schedule_this holder ev a b l :
    (holder = Some OtherLoop → b = []) →
    schedule (if yields ev then None else Some ThisLoop) a b l →
    schedule holder (ev :: a) b ((ThisLoop, ev) :: l)
| schedule_other holder ev a b l :
    (holder = Some ThisLoop → a = []) →
    schedule (if yields ev then None else Some OtherLoop) a b l →
    schedule holder a (ev :: b) ((OtherLoop, ev) :: l).

(* ===================================================================== *)
(** ** A small crawl used to run the definitions *)
(* ===================================================================== *)

Module Crawl.

(** A method that returns [v] / raises [e] on every call. *)
Definition returning (coro : bool) (v : pyval) : method unit :=
  Method coro (fun _ w => (Ok v, w)).

Definition raising (coro : bool) (e : exn) : method unit :=
  Method coro (fun _ w => (Raise e, w)).

(** A method that returns its first argument. *)
Definition passing (coro : bool) : method unit :=
  Method coro (fun args w => (Ok (hd VNone args), w)).

(** [BaseMiddleware]: four plain methods whose body is [pass]. *)
Definition base_middleware (name : string) : middleware unit :=
  Middleware name (returning false VNone) (returning false VNone)
             (returning false VNone) (returning false VNone).

Definition parse : funcref := FuncRef 1 "parse" false.
Definition handle_error : funcref := FuncRef 2 "handle_error" true.

Definition golang : request :=
  Request "GET" "https://example.com/search?q=golang"
          (Some [("page", "1")]%string) (Some parse) None.

Definition page : response := Response 200 "{}" None.

Definition spider_attrs : list string :=
  ["name"; "words"; "make_request"; "parse"; "handle_error"]%string.

(** A crawl over the unit world: the work queue always holds the word
    "golang" and the request [popped]; telemetry methods are coroutines. *)
Definition crawl
    (popped : request)
    (make : pyval → unit → outcome pyval * unit)
    (filter_req : method unit)
    (fetch : method unit)
    (functions : funcref → list pyval → unit → outcome pyval * unit)
    : components unit :=
  {| sch_get_word := returning true (VStr "golang");
     sch_get_request := returning true (VRequest popped);
     sch_send_request := returning true VNone;
     sch_send_item := returning true VNone;
     sch_append_error_request := returning true VNone;
     flt_filter_request := filter_req;
     flt_filter_item := passing true;
     dl_download := fetch;
     dl_parse_html := fun _ r w => (Ok r, w);
     col_collect_word := returning true VNone;
     col_collect_request := returning true VNone;
     col_collect_response_received := returning true VNone;
     col_collect_downloader_exception := returning true VNone;
     col_collect_item := returning true VNone;
     spider_make_request := make;
     spider_class_attrs := spider_attrs;
     call_function := functions |}.

(** [Spider.make_request] of the base class (src/aiocrawler/spider.py). *)
Definition base_make_request (word : pyval) (w : unit)
    : outcome pyval * unit :=
  (Raise "NotImplementedError"%string, w).

Definition make_golang (word : pyval) (w : unit) : outcome pyval * unit :=
  (Ok (VRequest golang), w).

(** [Spider.parse] and [Spider.handle_error] of the base class: [pass]. *)
Definition base_functions (f : funcref) (args : list pyval) (w : unit)
    : outcome pyval * unit :=
  (Ok VNone, w).

Definition failing_functions (f : funcref) (args : list pyval) (w : unit)
    : outcome pyval * unit :=
  (Raise "KeyError"%string, w).

Definition start (mws : list (middleware unit)) : engine unit :=
  Engine false false 0%nat "" mws [] tt.

(** The request [golang] with [handle_error] as its error callback. *)
Definition golang_guarded : request :=
  Request "GET" "https://example.com/search?q=golang"
          (Some [("page", "1")]%string) (Some parse) (Some handle_error).

Definition timeout : exn := "TimeoutError"%string.

Definition cached : response := Response 200 "cached" None.

(** The four extension points of a middleware. *)
Inductive extension_point := PreRequest | PostResponse | PostException | PostItem.

#[global] Instance extension_point_eq_dec : EqDecision extension_point.
Proof. solve_decision. Defined.

(** A middleware one of whose hooks fails with an [AttributeError], as
    [SetDefaultMiddleware.process_request] does on a request without the
    attributes it reads. The failing hook is a plain method when [coro] is
    false, a coroutine function otherwise; the other hooks are those of
    [BaseMiddleware]. *)
Definition faulty_middleware (p : extension_point) (coro : bool)
    : middleware unit :=
  let hook q :=
    if bool_decide (p = q) then raising coro AttributeError
    else returning false VNone in
  Middleware "Faulty" (hook PreRequest) (hook PostResponse)
             (hook PostException) (hook PostItem).

(** A middleware whose post-response hook answers with the Response
    [cached]. *)
Definition cache_middleware : middleware unit :=
  Middleware "Cache" (returning false VNone)
             (returning false (VResponse cached)) (returning false VNone)
             (returning false VNone).

(** A middleware whose post-exception hook answers with an empty list. *)
Definition retry_middleware : middleware unit :=
  Middleware "Retry" (returning false VNone) (returning false VNone)
             (returning false (VList [])) (returning false VNone).

(** The crawls run below. *)
Definition fetching (r : request) (data : pyval)
    (functions : funcref → list pyval → unit → outcome pyval * unit)
    : components unit :=
  crawl r make_golang (passing true) (returning true data) functions.

Definition unimplemented_spider : components unit :=
  crawl golang base_make_request (passing true)
        (returning true (VResponse page)) base_functions.

Definition rejecting : components unit :=
  crawl golang make_golang (returning true VNone)
        (returning true (VResponse page)) base_functions.

(** An item class with two declared fields, and an item of it on which user
    code also set a key and an attribute that are not declared. *)
Definition Book : item_class :=
  ItemClass "Book" [("__module__", AOther); ("title", AField);
                    ("price", AField); ("__doc__", AOther)]%string [].

(** A class derived from [Book] that declares one more field, and an item
    of it with a title and an author. *)
Definition Novel : item_class :=
  ItemClass "Novel" [("__module__", AOther); ("author", AField)]%string
            (ic_dict Book).

Definition novel : item :=
  Item Novel (<["title"%string := FStr "Rocq"]>
                (<["author"%string := FStr "Coquand"]> ∅)) ∅.

Definition book : item :=
  Item Book (<["title"%string := FStr "Rocq"]> (<["scratch"%string := FInt 1]> ∅))
       (<["tmp"%string := FInt 2]> ∅).

(** A callback that returns the list [[book]]. *)
Definition item_functions (f : funcref) (args : list pyval) (w : unit)
    : outcome pyval * unit :=
  (Ok (VList [VItem book]), w).

(** A callback written as a generator function: calling it raises nothing;
    the generator yields [book] and then fails with [KeyError]. *)
Definition generator_functions (f : funcref) (args : list pyval) (w : unit)
    : outcome pyval * unit :=
  (Ok (VIter [VItem book] (Some "KeyError"%string)), w).

End Crawl.

(* ===================================================================== *)
(** ** More predicates on events *)
(* ===================================================================== *)

(** The word-consumed telemetry event. *)
Definition is_word_consumed (ev : event) : bool :=
  match ev with EvCall collect_word => true | _ => false end.

(** A push on the request channel of the work queue. *)
Definition is_send_request (ev : event) : bool :=
  match ev with EvCall (send_request _) => true | _ => false end.

(** A delivery to the item sink of the work queue. *)
Definition is_send_item (ev : event) : bool :=
  match ev with EvCall (send_item _) => true | _ => false end.

(** A call of a post-response or post-exception hook. *)
Definition is_post_hook (ev : event) : bool :=
  match ev with
  | EvCall (process_response _ _ _) | EvCall (process_exception _ _ _) => true
  | _ => false
  end.

(** A call of a post-response hook. *)
Definition is_response_hook (ev : event) : bool :=
  match ev with EvCall (process_response _ _ _) => true | _ => false end.

(** A call of a post-item hook. *)
Definition is_item_hook (ev : event) : bool :=
  match ev with EvCall (process_item _ _) => true | _ => false end.

(** A call of the user's crawl logic. *)
Definition is_user_call (ev : event) : bool :=
  match ev with
  | EvCall (make_request _) | EvCall (callback _ _)
  | EvCall (err_callback _ _ _) => true
  | _ => false
  end.

(** [isinstance(v, Item)] *)
Definition is_item (v : pyval) : bool :=
  match v with VItem _ => true | _ => false end.

(* ===================================================================== *)
(** ** Sequences of shutdown requests *)
(* ===================================================================== *)

(** What can write the shutdown flags: a call of [close_crawler], or a SIGINT
    handled by [__shutdown_signal]. *)
Inductive control :=
| Close (reason : string) (force : bool)
| Sigint.

Definition apply_control {W : Type} (c : control) (st : engine W) : engine W :=
  match c with
  | Close reason force => close_crawler reason force st
  | Sigint => (shutdown_signal st).1.2
  end.

Definition apply_controls {W : Type} (cs : list control) (st : engine W)
    : engine W :=
  fold_left (λ st c, apply_control c st) cs st.

(* ===================================================================== *)
(** ** SetDefaultMiddleware
       (src/aiocrawler/middlewares/set_default_middleware.py) *)
(* ===================================================================== *)

Module SetDefault.

Definition headers := list (string * string).

(** The two settings the hook reads; a setting may itself be [None]. *)
Record settings := Settings {
  DEFAULT_TIMEOUT : option Z;
  DEFAULT_HEADERS : option headers
}.

(** A request with the two further attributes the hook reads and writes;
    [request.meta] is [req_meta] of [ro_request]. *)
Record request_object := RequestObject {
  ro_request : request;
  ro_timeout : option Z;
  ro_headers : option headers
}.

Definition set_meta (m : pymeta) (r : request) : request :=
  Request (req_method r) (req_url r) m (req_callback r) (req_err_callback r).

(** [SetDefaultMiddleware.process_request]: the request after the three
    assignments made in place. The method returns [None]. *)
Definition process_request (s : settings) (r : request_object)
    : request_object :=
  let r :=
    match ro_timeout r with
    | None => RequestObject (ro_request r) (DEFAULT_TIMEOUT s) (ro_headers r)
    | Some _ => r
    end in
  let r :=
    match ro_headers r with
    | None => RequestObject (ro_request r) (ro_timeout r) (DEFAULT_HEADERS s)
    | Some _ => r
    end in
  match req_meta (ro_request r) with
  | None => RequestObject (set_meta (Some []) (ro_request r))
                          (ro_timeout r) (ro_headers r)
  | Some _ => r
  end.

End SetDefault.

(* ===================================================================== *)
(** ** Spider.__handle__ (src/aiocrawler/spider.py) *)
(* ===================================================================== *)

Module SpiderHandle.

Section Handle.

(** [json.loads] and [parsel.Selector], which are libraries: [loads] returns
    a value or raises, [Selector(text=..)] builds a selector. *)
Context {json selector : Type}.
Context (loads : string → outcome json) (Selector : string → selector).

(** A response with the two views [__handle__] may attach. *)
Record parsed_response := Parsed {
  p_response : response;
  p_json : option json;         (* response.json *)
  p_selector : option selector  (* response.selector *)
}.

(** [Spider.__handle__(request, response)]. [handle_way] is
    [request['handle_way']], [None] when the request has no such key (the
    lookup raises [KeyError]). The result is the value returned or the
    exception raised, and the exceptions given to [self.logger.error]. *)
Definition handle (handle_way : option string) (r : parsed_response)
    : outcome parsed_response * list exn :=
  match handle_way with
  | None => (Raise "KeyError"%string, [])
  | Some way =>
      if String.eqb way "json" then
        match loads (resp_text (p_response r)) with
        | Ok j => (Ok (Parsed (p_response r) (Some j) (p_selector r)), [])
        | Raise e => (Ok r, [e])
        end
      else if String.eqb way "selector" then
        (Ok (Parsed (p_response r) (p_json r)
                    (Some (Selector (resp_text (p_response r))))), [])
      else (Ok r, [])
  end.

End Handle.

End SpiderHandle.

(* ===================================================================== *)
(** ** RedisConnector (src/aiocrawler/extensions/redis_connector.py) *)
(* ===================================================================== *)

Module RedisConnector.

Section Connector.

(** [aioredis.create_pool(url)], awaited: a pool, or the exception raised. *)
Context {pool : Type} (create_pool : option string → outcome pool).

(** What a method does besides changing the connector. *)
Inductive action :=
| Connect (url : option string)        (* await create_pool(url) *)
| ClosePool                            (* self.redis_pool.close() *)
| WaitClosed                           (* await self.redis_pool.wait_closed() *)
| Log (l : log_level) (message : string).

(** The connector: [self.settings.REDIS_URL] and [self.redis_pool]. A URL is
    [None] or a string. *)
Record connector := Connector {
  REDIS_URL : option string;
  redis_pool : option pool
}.

(** Truthiness of a URL: neither [None] nor the empty string. *)
Definition url_truthy (u : option string) : bool :=
  match u with
  | Some s => negb (String.eqb s "")
  | None => false
  end.

(** [redis_url or self.settings.REDIS_URL or os.environ.login_get(..)]:
    [os.environ] has no attribute [login_get], so evaluating the third
    operand raises [AttributeError]. *)
Definition resolve_url (redis_url : option string) (c : connector)
    : outcome (option string) :=
  if url_truthy redis_url then Ok redis_url
  else if url_truthy (REDIS_URL c) then Ok (REDIS_URL c)
  else Raise AttributeError.

(** [RedisConnector.create_redis_pool(redis_url)]: how the call ends, the
    connector after it and what was done. *)
Definition create_redis_pool (redis_url : option string) (c : connector)
    : outcome unit * connector * list action :=
  match redis_pool c with
  | Some _ => (Ok tt, c, [])                       (* if self.redis_pool: return *)
  | None =>
      match resolve_url redis_url c with
      | Raise e => (Raise e, c, [])
      | Ok url =>
          if negb (url_truthy url) then (Raise "ValueError"%string, c, [])
          else
            match create_pool (REDIS_URL c) with
            | Ok p =>
                (Ok tt, Connector (REDIS_URL c) (Some p),
                 [Log Debug "Connecting to the Redis Server...";
                  Connect (REDIS_URL c);
                  Log Success "Connected to the Redis Server"])
            | Raise e =>
                (Raise e, c,
                 [Log Debug "Connecting to the Redis Server...";
                  Connect (REDIS_URL c)])
            end
      end
  end.

(** [RedisConnector.close_redis_pool()]; [self.redis_pool] is not reset. *)
Definition close_redis_pool (c : connector) : connector * list action :=
  match redis_pool c with
  | Some _ => (c, [ClosePool; WaitClosed; Log Debug "The Redis Pool is closed"])
  | None => (c, [])
  end.

Definition is_connect (a : action) : bool :=
  match a with Connect _ => true | _ => false end.

End Connector.

End RedisConnector.

(* ===================================================================== *)
(** ** The collaborators chosen by [Engine.__initialize] *)
(* ===================================================================== *)

Module Initialize.

Section Collaborators.

(** A Redis connection pool. The classes [RedisScheduler] and [RedisFilter]
    are not among the sources: awaiting their [create_redis_pool] is taken
    as given, [scheduler_pool] for a new [RedisScheduler] and [filter_pool]
    for a [RedisFilter] built on the pool in argument; each gives the pool
    the object holds afterwards, or the exception raised. *)
Context {pool : Type}.
Context (scheduler_pool : outcome pool)
        (filter_pool : option pool → outcome (option pool)).

Inductive downloader_object :=
| given_downloader
| AioDownloader.

(** A scheduler given by the caller carries what reading its attribute
    [redis_pool] gives: [None] when it has no such attribute. *)
Inductive scheduler_object :=
| given_scheduler (redis_pool_attr : option (option pool))
| RedisScheduler (redis_pool : option pool)
| MemoryScheduler.

Inductive filter_object :=
| given_filter
| RedisFilter (redis_pool : option pool)
| MemoryFilter.

(** The callables registered with [on_cleanup]. *)
Inductive cleanup_target :=
| registered (n : nat)              (* registered by the user *)
| session_close                     (* session.close *)
| scheduler_close_redis_pool        (* self._scheduler.close_redis_pool *)
| filters_close_redis_pool.         (* self._filters.close_redis_pool *)

Record parts := Parts {
  downloader : option downloader_object;      (* self.__downloader *)
  scheduler : option scheduler_object;        (* self._scheduler *)
  filters : option filter_object;             (* self._filters *)
  cleanup_tasks : list cleanup_target         (* self.__cleanup_tasks *)
}.

(** [Engine.on_cleanup] *)
Definition on_cleanup (target : cleanup_target) (p : parts) : parts :=
  Parts (downloader p) (scheduler p) (filters p) (cleanup_tasks p ++ [target]).

(** [self._settings.REDIS_URL and not self._settings.DISABLE_REDIS] *)
Definition redis_enabled (REDIS_URL : option string) (DISABLE_REDIS : bool)
    : bool :=
  match REDIS_URL with
  | Some s => negb (String.eqb s "") && negb DISABLE_REDIS
  | None => false
  end.

(** [self._scheduler.redis_pool] *)
Definition redis_pool_of (s : scheduler_object) : outcome (option pool) :=
  match s with
  | given_scheduler (Some p) => Ok p
  | given_scheduler None => Raise AttributeError
  | RedisScheduler p => Ok p
  | MemoryScheduler => Raise AttributeError
  end.

(** [if not self.__downloader: ...] *)
Definition choose_downloader (p : parts) : parts :=
  match downloader p with
  | Some _ => p
  | None =>
      on_cleanup session_close
        (Parts (Some AioDownloader) (scheduler p) (filters p) (cleanup_tasks p))
  end.

(** [if not self._scheduler: ...] *)
Definition choose_scheduler (enabled : bool) (p : parts) : outcome unit * parts :=
  match scheduler p with
  | Some _ => (Ok tt, p)
  | None =>
      if enabled then
        match scheduler_pool with
        | Raise e =>
            (Raise e, Parts (downloader p) (Some (RedisScheduler None))
                            (filters p) (cleanup_tasks p))
        | Ok rp =>
            let p := Parts (downloader p) (Some (RedisScheduler (Some rp)))
                           (filters p) (cleanup_tasks p) in
            let p :=
              match filters p with
              | Some _ => p
              | None => Parts (downloader p) (scheduler p)
                              (Some (RedisFilter (Some rp))) (cleanup_tasks p)
              end in
            (Ok tt, on_cleanup scheduler_close_redis_pool p)
        end
      else
        (Ok tt, Parts (downloader p) (Some MemoryScheduler) (filters p)
                      (cleanup_tasks p))
  end.

(** [if not self._filters: ...] *)
Definition choose_filters (enabled : bool) (p : parts) : outcome unit * parts :=
  match filters p with
  | Some _ => (Ok tt, p)
  | None =>
      if enabled then
        match scheduler p with
        | None => (Raise AttributeError, p)     (* None.redis_pool *)
        | Some s =>
            match redis_pool_of s with
            | Raise e => (Raise e, p)
            | Ok rp =>
                match filter_pool rp with
                | Raise e =>
                    (Raise e, Parts (downloader p) (scheduler p)
                                    (Some (RedisFilter rp)) (cleanup_tasks p))
                | Ok rp' =>
                    (Ok tt,
                     on_cleanup filters_close_redis_pool
                       (Parts (downloader p) (scheduler p)
                              (Some (RedisFilter rp')) (cleanup_tasks p)))
                end
            end
        end
      else
        (Ok tt, Parts (downloader p) (scheduler p) (Some MemoryFilter)
                      (cleanup_tasks p))
  end.

(** The part of [Engine.__initialize] before the middleware chain. *)
Definition initialize_collaborators (REDIS_URL : option string)
    (DISABLE_REDIS : bool) (p : parts) : outcome unit * parts :=
  let enabled := redis_enabled REDIS_URL DISABLE_REDIS in
  let p := choose_downloader p in
  match choose_scheduler enabled p with
  | (Raise e, p) => (Raise e, p)
  | (Ok _, p) => choose_filters enabled p
  end.

End Collaborators.

End Initialize.

(** An event that is no call of a post hook, of the error recording, of user
    code or of anything that hands on a Request or an Item. *)
Definition is_quiet_event (ev : event) : bool :=
  negb (is_post_hook ev || is_error_recording ev || is_user_call ev
        || is_production ev).

Section QueueEffects.

Context {W : Type} (C : components W).

(** The world after the bodies of [send_request] have run for the requests
    [rs], in their order. *)
Definition pushed (rs : list request) (w : W) : W :=
  fold_left (λ w r, (m_body (sch_send_request C) [VRequest r] w).2) rs w.

End QueueEffects.

(* ===================================================================== *)
(** ** More runs of the small crawl *)
(* ===================================================================== *)

Module Samples.

(** The crawl [base] with other queue operations. *)
Definition with_queue (get_word get_request send_request : method unit)
    (base : components unit) : components unit :=
  {| sch_get_word := get_word;
     sch_get_request := get_request;
     sch_send_request := send_request;
     sch_send_item := sch_send_item base;
     sch_append_error_request := sch_append_error_request base;
     flt_filter_request := flt_filter_request base;
     flt_filter_item := flt_filter_item base;
     dl_download := dl_download base;
     dl_parse_html := dl_parse_html base;
     col_collect_word := col_collect_word base;
     col_collect_request := col_collect_request base;
     col_collect_response_received := col_collect_response_received base;
     col_collect_downloader_exception := col_collect_downloader_exception base;
     col_collect_item := col_collect_item base;
     spider_make_request := spider_make_request base;
     spider_class_attrs := spider_class_attrs base;
     call_function := call_function base |}.

(** A work queue with nothing in it. *)
Definition empty_queue : components unit :=
  with_queue (Crawl.returning true VNone) (Crawl.returning true VNone)
             (Crawl.returning true VNone) Crawl.rejecting.

(** A work queue whose pops fail. *)
Definition broken_queue : components unit :=
  with_queue (Crawl.raising true "ConnectionError"%string)
             (Crawl.raising true "ConnectionError"%string)
             (Crawl.returning true VNone) Crawl.rejecting.

(** A crawl whose downloader coroutine raises. *)
Definition failing_fetch : components unit :=
  Crawl.crawl Crawl.golang Crawl.make_golang (Crawl.passing true)
              (Crawl.raising true Crawl.timeout) Crawl.base_functions.

(** A middleware that answers a failure and a response with the request
    [golang_guarded], to be fetched instead. *)
Definition retry_middleware : middleware unit :=
  Middleware "Retry" (Crawl.returning false VNone)
             (Crawl.returning false (VRequest Crawl.golang_guarded))
             (Crawl.returning false (VRequest Crawl.golang_guarded))
             (Crawl.returning false VNone).

Definition priced_book : item :=
  Item Crawl.Book
       (<["title"%string := FStr "Rocq"]> (<["price"%string := FInt 30]> ∅)) ∅.

(** A middleware whose post-item hook answers with [priced_book]. *)
Definition pricing_middleware : middleware unit :=
  Middleware "Pricing" (Crawl.returning false VNone)
             (Crawl.returning false VNone) (Crawl.returning false VNone)
             (Crawl.returning false (VItem priced_book)).

Definition plain : components unit :=
  Crawl.fetching Crawl.golang (VResponse Crawl.page) Crawl.base_functions.

End Samples.

(* ===================================================================== *)
(** ** Properties of the middleware chain *)
(* ===================================================================== *)

Section Sorting.

Context {A : Type}.
Implicit Types (x : A * Z) (l : list (A * Z)).

Lemma insert_by_key_perm x l : insert_by_key x l ≡ₚ x :: l.
Proof.
  induction l as [|y l IH]; simpl; [done|].
  destruct (x.2 <=? y.2); [done|].
  rewrite IH. apply Permutation_swap.
Qed.

Lemma sorted_perm l : sorted l ≡ₚ l.
Proof.
  induction l as [|x l IH]; simpl; [done|].
  by rewrite insert_by_key_perm, IH.
Qed.






End Sorting.

Lemma valid_priority_range (key : Z) :
  valid_priority key = true ↔ 0 ≤ key ≤ 1000.
Proof. unfold valid_priority. rewrite andb_true_iff, !Z.leb_le. done. Qed.

Lemma default_entries_spec (s : settings) mw key :
  (mw, key) ∈ default_entries s ↔
  ∃ mw_name, (mw_name, key) ∈ DEFAULT_MIDDLEWARES s ∧ 0 ≤ key ≤ 1000 ∧
             mw_name ∈ middlewares_all ∧ mw = getattr_middlewares mw_name.
Proof.
  unfold default_entries. rewrite list_elem_of_In, in_flat_map. split.
  - intros [[n k] [Hin Hx]].
    destruct (valid_priority k) eqn:Hk; simpl in Hx; [|done].
    case_bool_decide as Hall; simpl in Hx; [|done].
    destruct Hx as [Hx|[]]. injection Hx as <- <-.
    exists n. rewrite <- list_elem_of_In in Hin.
    by rewrite <- valid_priority_range.
  - intros (n & Hin & Hk & Hall & ->). exists (n, key).
    rewrite <- list_elem_of_In. split; [done|].
    apply valid_priority_range in Hk. rewrite Hk. simpl.
    rewrite bool_decide_eq_true_2 by done. by left.
Qed.

Lemma configured_entries_spec (s : settings) mw key :
  (mw, key) ∈ configured_entries s ↔
  (mw, key) ∈ MIDDLEWARES s ∧ 0 ≤ key ≤ 1000 ∧
  issubclass BaseMiddleware mw = true.
Proof.
  unfold configured_entries. rewrite list_elem_of_In, in_flat_map. split.
  - intros [[c k] [Hin Hx]].
    destruct (valid_priority k) eqn:Hk; simpl in Hx; [|done].
    destruct (issubclass BaseMiddleware c) eqn:Hc; simpl in Hx; [|done].
    destruct Hx as [Hx|[]]. injection Hx as <- <-.
    rewrite <- list_elem_of_In in Hin.
    by rewrite <- valid_priority_range.
  - intros (Hin & Hk & Hc). exists (mw, key).
    rewrite <- list_elem_of_In. split; [done|].
    apply valid_priority_range in Hk. rewrite Hk, Hc. by left.
Qed.





(* ===================================================================== *)
(** ** Properties of the shutdown flags *)
(* ===================================================================== *)

(** C10: [close_crawler] sets one flag and the finish reason and nothing
    else. With [force] false it sets [shutting_down] and leaves [shutdown] as
    it was; with [force] true it sets [shutdown] and leaves [shutting_down],
    the flag the loops poll, as it was. In both cases the finish reason
    becomes [reason], and the signal count, the middleware chain, the pending
    jobs and the world are unchanged. *)
Theorem close_crawler_frame {W : Type} (st : engine W) (reason : string)
    (force : bool) :
  let st' := close_crawler reason force st in
  shutting_down st' = (if force then shutting_down st else true) ∧
  shutdown st' = (if force then true else shutdown st) ∧
  finish_reason st' = reason ∧
  signal_int_count st' = signal_int_count st ∧
  middlewares st' = middlewares st ∧
  jobs st' = jobs st ∧
  world st' = world st.
Proof. by destruct force. Qed.

(* ===================================================================== *)
(** ** Properties of the item copy *)
(* ===================================================================== *)

Lemma copy_fields_frame (i : item) (fields : list string) (acc : item) :
  item_cls (fold_left (copy_field i) fields acc) = item_cls acc ∧
  item_attrs (fold_left (copy_field i) fields acc) = item_attrs acc.
Proof.
  revert acc. induction fields as [|f fields IH]; intros acc; simpl; [done|].
  destruct (IH (copy_field i acc f)) as [-> ->]. done.
Qed.

Lemma copy_fields_lookup (i : item) (fields : list string) (acc : item)
    (f : string) :
  item_data (fold_left (copy_field i) fields acc) !! f =
  if decide (f ∈ fields) then Some (default FNone (item_data i !! f))
  else item_data acc !! f.
Proof.
  revert acc. induction fields as [|g fields IH]; intros acc; cbn [fold_left].
  - rewrite decide_False; [done|]. apply not_elem_of_nil.
  - rewrite IH. destruct (decide (f ∈ fields)) as [Hin|Hnin].
    + rewrite decide_True; [done|]. by apply list_elem_of_further.
    + cbn [copy_field item_data]. destruct (decide (f = g)) as [->|Hne].
      * rewrite lookup_insert_eq.
        rewrite decide_True; [done|]. apply list_elem_of_here.
      * rewrite lookup_insert_ne by done.
        rewrite decide_False; [done|].
        intros [?|?]%elem_of_cons; done.
Qed.

Lemma copy_item_dom (i : item) :
  dom (item_data (copy_item i)) = list_to_set (get_fields i).
Proof.
  apply set_eq. intros f. rewrite elem_of_dom, elem_of_list_to_set.
  unfold copy_item. rewrite copy_fields_lookup. simpl.
  destruct (decide (f ∈ get_fields i)) as [Hin|Hnin].
  - split; [done|]. intros _. by eexists.
  - rewrite lookup_empty. split; [by intros [? ?]|done].
Qed.

(** *** The fields [get_fields] yields *)

Lemma namespace_lookup_elem name d a :
  namespace_lookup name d = Some a → (name, a) ∈ d.
Proof.
  induction d as [|[n b] d IH]; cbn [namespace_lookup]; [done|].
  destruct (String.eqb_spec n name) as [->|Hne].
  - intros [= ->]. apply list_elem_of_here.
  - intros H. apply list_elem_of_further. by apply IH.
Qed.

Lemma namespace_lookup_own name d d' :
  name ∈ d.*1 → namespace_lookup name (d ++ d') = namespace_lookup name d.
Proof.
  induction d as [|[n b] d IH]; cbn [namespace_lookup fmap list_fmap app].
  - by intros ?%elem_of_nil.
  - destruct (String.eqb_spec n name) as [->|Hne]; [done|].
    intros [?|?]%elem_of_cons; [by subst|by apply IH].
Qed.

Lemma namespace_lookup_NoDup name d a :
  NoDup d.*1 → (name, a) ∈ d → namespace_lookup name d = Some a.
Proof.
  induction d as [|[n b] d IH]; cbn [namespace_lookup fmap list_fmap].
  - by intros _ ?%elem_of_nil.
  - intros [Hn Hd]%NoDup_cons [Heq|Hin]%elem_of_cons.
    + injection Heq as <- <-. by rewrite String.eqb_refl.
    + destruct (String.eqb_spec n name) as [->|Hne]; [|by apply IH].
      exfalso. apply Hn. apply list_elem_of_fmap. by exists (name, a).
Qed.

(** A name [get_fields] yields is bound to a [Field] in the namespace of the
    class itself. *)
Lemma get_fields_own (i : item) (f : string) :
  f ∈ get_fields i → (f, AField) ∈ ic_dict (item_cls i).
Proof.
  unfold get_fields. rewrite list_elem_of_In, in_flat_map.
  intros (n & Hn & Hf). rewrite <- list_elem_of_In in Hn.
  unfold is_field, class_getattr in Hf.
  rewrite namespace_lookup_own in Hf by done.
  destruct (namespace_lookup n _) as [[|]|] eqn:Hl; try done.
  destruct Hf as [->|[]]. by apply namespace_lookup_elem.
Qed.

(** The names of a class namespace are distinct: every name the class body
    binds to a [Field] is yielded. *)
Lemma get_fields_declared (i : item) (f : string) :
  NoDup (ic_dict (item_cls i)).*1 →
  (f, AField) ∈ ic_dict (item_cls i) → f ∈ get_fields i.
Proof.
  intros Hnd Hin. unfold get_fields. rewrite list_elem_of_In, in_flat_map.
  assert (Hf : f ∈ (ic_dict (item_cls i)).*1).
  { apply list_elem_of_fmap. by exists (f, AField). }
  exists f. rewrite <- list_elem_of_In. split; [done|].
  unfold is_field, class_getattr. rewrite namespace_lookup_own by done.
  rewrite (namespace_lookup_NoDup _ _ _ Hnd Hin). by left.
Qed.

(* ===================================================================== *)
(** ** Running the monad *)
(* ===================================================================== *)

Section Running.

Context {W : Type}.

#[local] Abbreviation M := (M W).
#[local] Abbreviation engine := (engine W).

Lemma after_nil {A} (x : outcome A * engine * list event) : after [] x = x.
Proof. by destruct x as [[r st] evs]. Qed.

Lemma after_after {A} evs1 evs2 (x : outcome A * engine * list event) :
  after evs1 (after evs2 x) = after (evs1 ++ evs2) x.
Proof. destruct x as [[r st] evs]. simpl. by rewrite app_assoc. Qed.

Lemma bind_ok {A B} (m : M A) (k : A → M B) st a st1 ev1 :
  m st = (Ok a, st1, ev1) → bind m k st = after ev1 (k a st1).
Proof. intros H. unfold bind. by rewrite H. Qed.

Lemma bind_raise {A B} (m : M A) (k : A → M B) st e st1 ev1 :
  m st = (Raise e, st1, ev1) → bind m k st = (Raise e, st1, ev1).
Proof. intros H. unfold bind. by rewrite H. Qed.

Lemma bind_assoc {A B D} (m : M A) (f : A → M B) (g : B → M D) st :
  bind (bind m f) g st = bind m (λ a, bind (f a) g) st.
Proof.
  unfold bind. destruct (m st) as [[[a|e] st1] ev1]; simpl; [|done].
  destruct (f a st1) as [[[b|e] st2] ev2]; simpl; [|done].
  destruct (g b st2) as [[r st3] ev3]; simpl. by rewrite app_assoc.
Qed.

Lemma bind_emit {B} (ev : event) (k : unit → M B) st :
  bind (emit ev) k st = after [ev] (k tt st).
Proof. done. Qed.

Lemma bind_ret {A B} (a : A) (k : A → M B) st :
  bind (ret a) k st = k a st.
Proof. unfold bind, ret. apply after_nil. Qed.

Lemma raises_after {A} e evs (x : outcome A * engine * list event) :
  raises e x → raises e (after evs x).
Proof. intros (st & evs' & ->). by eexists _, _. Qed.

(** *** Awaiting a call through [__run_task] *)

Lemma await_ok {B} (o : op) (m : method W) args (k : pyval → M B) st v w :
  m_body m args (world st) = (Ok v, w) →
  (task <- call_method o m args ;; x <- run_task task ;; k x) st
  = after [EvCall o] (k v (set_world w st)).
Proof.
  intros H. unfold call_method. rewrite bind_assoc, bind_emit. f_equal.
  destruct (m_coro m).
  - rewrite bind_ret. unfold bind at 1, run_task. rewrite H.
    by rewrite after_nil.
  - rewrite bind_assoc. unfold bind at 1. unfold in_world. rewrite H.
    rewrite bind_ret, after_nil. unfold bind at 1, run_task.
    by rewrite after_nil.
Qed.

Lemma await_caught {B} (o : op) (m : method W) args (k : pyval → M B) st e w :
  m_coro m = true →
  m_body m args (world st) = (Raise e, w) →
  (task <- call_method o m args ;; x <- run_task task ;; k x) st
  = after [EvCall o; EvLog Error (Traceback e)] (k VNone (set_world w st)).
Proof.
  intros Hc H. unfold call_method. rewrite bind_assoc, bind_emit, Hc, bind_ret.
  unfold bind at 1, run_task. rewrite H. by rewrite after_after.
Qed.

Lemma await_escapes {B} (o : op) (m : method W) args (k : pyval → M B) st e w :
  m_coro m = false →
  m_body m args (world st) = (Raise e, w) →
  (task <- call_method o m args ;; x <- run_task task ;; k x) st
  = (Raise e, set_world w st, [EvCall o]).
Proof.
  intros Hc H. unfold call_method. rewrite bind_assoc, bind_emit, Hc.
  rewrite bind_assoc. unfold bind at 1. unfold in_world. by rewrite H.
Qed.

(** A hook or collaborator whose awaited call cannot raise. *)
Lemma await_awaits_to {B} (P : pyval → Prop) (o : op) (m : method W) args
    (k : pyval → M B) st :
  awaits_to P m args →
  ∃ v w logs, P v ∧ Forall (λ ev, is_log ev = true) logs ∧
    (task <- call_method o m args ;; x <- run_task task ;; k x) st
    = after (EvCall o :: logs) (k v (set_world w st)).
Proof.
  intros H. specialize (H (world st)).
  destruct (m_body m args (world st)) as [[v|e] w] eqn:Hb.
  - exists v, w, []. split; [done|]. split; [constructor|].
    by apply await_ok.
  - destruct H as [Hc HP]. exists VNone, w, [EvLog Error (Traceback e)].
    split; [done|]. split; [by repeat constructor|].
    by apply await_caught.
Qed.

(** Handing a telemetry call to the job scheduler. *)
Lemma spawn_quiet {B} (o : op) (m : method W) args (k : M B) st :
  quiet m args →
  ∃ j w,
    (task <- call_method o m args ;; spawn_run_task task ;; k) st
    = after [EvCall o] (k (add_job j (set_world w st))).
Proof.
  intros Hq. unfold call_method. rewrite bind_assoc, bind_emit.
  destruct (m_coro m) eqn:Hc.
  - exists (Coroutine (m_body m args)), (world st).
    rewrite bind_ret. unfold bind, spawn_run_task. rewrite after_nil.
    by destruct st.
  - destruct Hq as [Hq|Hq]; [congruence|].
    destruct (Hq (world st)) as (v & w & Hb).
    exists (Plain v), w.
    rewrite bind_assoc. unfold bind at 1. unfold in_world. rewrite Hb.
    rewrite bind_ret, after_nil. unfold bind, spawn_run_task.
    by rewrite after_nil.
Qed.

(** A direct call of user code that returns. *)
Lemma call_ok {A B} (o : op) (f : W → outcome A * W) (k : A → M B) st a w :
  f (world st) = (Ok a, w) →
  (x <- call o f ;; k x) st = after [EvCall o] (k a (set_world w st)).
Proof.
  intros Hf. unfold call. rewrite bind_assoc, bind_emit.
  unfold bind at 1. unfold in_world. rewrite Hf. by rewrite after_nil.
Qed.

End Running.

(* ===================================================================== *)
(** ** The coroutines never look at the shutdown flags *)
(* ===================================================================== *)

Section Oblivious.

Context {W : Type}.

#[local] Abbreviation M := (M W).
#[local] Abbreviation engine := (engine W).

Lemma oblivious_weaken {A} (P Q : A → Prop) (m : M A) :
  (∀ x, P x → Q x) → oblivious P m → oblivious Q m.
Proof.
  intros HPQ Hm st r st' evs H.
  destruct (Hm _ _ _ _ H) as (? & ? & HP & ?). eauto 10.
Qed.

Lemma oblivious_ret {A} (P : A → Prop) (x : A) :
  P x → oblivious (W:=W) P (ret x).
Proof.
  intros HP st r st' evs [= <- <- <-].
  split; [done|]. split; [done|]. split; [|done]. by intros ? [= <-].
Qed.

Lemma oblivious_raise {A} (P : A → Prop) (e : exn) :
  oblivious (W:=W) P (raise e).
Proof. intros st r st' evs [= <- <- <-]. by repeat split. Qed.

Lemma oblivious_emit (ev : event) : oblivious (W:=W) any (emit ev).
Proof. intros st r st' evs [= <- <- <-]. by repeat split. Qed.

Lemma oblivious_in_world {A} (f : W → outcome A * W) :
  oblivious any (in_world f).
Proof.
  intros st r st' evs H. unfold in_world in *. simpl.
  destruct (f (world st)) as [r' w]. injection H as <- <- <-.
  by repeat split.
Qed.

Lemma oblivious_get_middlewares :
  oblivious (λ mws, True) (@get_middlewares W).
Proof. intros st r st' evs [= <- <- <-]. by repeat split. Qed.

Lemma oblivious_bind {A B} (P : A → Prop) (Q : B → Prop) (m : M A)
    (k : A → M B) :
  oblivious P m → (∀ x, P x → oblivious Q (k x)) → oblivious Q (bind m k).
Proof.
  intros Hm Hk st r st' evs H. unfold bind in H.
  destruct (m st) as [[[x|e] st1] ev1] eqn:Em.
  - destruct (Hm _ _ _ _ Em) as ((F1 & F2 & F3 & F4) & Hmw & HP & Hf).
    destruct (k x st1) as [[r2 st2] ev2] eqn:Ek. simpl in H.
    injection H as <- <- <-.
    destruct (Hk x (HP _ eq_refl) _ _ _ _ Ek)
      as ((G1 & G2 & G3 & G4) & Hmw' & HQ & Hg).
    split; [unfold same_flags; by rewrite G1, G2, G3, G4|].
    split; [congruence|]. split; [done|].
    intros a b n s. unfold bind. rewrite Hf, Hg. done.
  - injection H as <- <- <-.
    destruct (Hm _ _ _ _ Em) as (? & ? & _ & Hf).
    split; [done|]. split; [done|]. split; [done|].
    intros a b n s. unfold bind. by rewrite Hf.
Qed.

Lemma oblivious_run_task (task : awaitable W) : oblivious any (run_task task).
Proof.
  intros st r st' evs H. unfold run_task in *. destruct task as [body|v].
  - simpl. destruct (body (world st)) as [[v|e] w];
      injection H as <- <- <-; by repeat split.
  - injection H as <- <- <-. by repeat split.
Qed.

Lemma oblivious_spawn_run_task (task : awaitable W) :
  oblivious any (spawn_run_task task).
Proof. intros st r st' evs [= <- <- <-]. by repeat split. Qed.

Lemma oblivious_call_method (o : op) (m : method W) args :
  oblivious any (call_method o m args).
Proof.
  unfold call_method. eapply oblivious_bind; [apply oblivious_emit|].
  intros _ _. destruct (m_coro m).
  - by apply oblivious_ret.
  - eapply oblivious_bind; [apply oblivious_in_world|].
    intros. by apply oblivious_ret.
Qed.

Lemma oblivious_call {A} (o : op) (f : W → outcome A * W) :
  oblivious any (call o f).
Proof.
  unfold call. eapply oblivious_bind; [apply oblivious_emit|].
  intros. apply oblivious_in_world.
Qed.

Lemma oblivious_ensure_future (task : awaitable W) :
  oblivious any (ensure_future task).
Proof.
  destruct task; simpl.
  - eapply oblivious_bind; [apply oblivious_in_world|].
    intros. by apply oblivious_ret.
  - by apply oblivious_ret.
Qed.

Lemma oblivious_as_request (v : pyval) : oblivious any (@as_request W v).
Proof.
  destruct v; simpl; first [by apply oblivious_ret | apply oblivious_raise].
Qed.

Lemma oblivious_settled {A} (P : A → Prop) (m : M A) :
  oblivious P m → oblivious any (settled m).
Proof.
  intros Hm st r st' evs H. unfold settled in *.
  destruct (m st) as [[r1 st1] ev1] eqn:Em. injection H as <- <- <-.
  destruct (Hm _ _ _ _ Em) as (? & ? & _ & Hf).
  split; [done|]. split; [done|]. split; [done|].
  intros a b n s. by rewrite Hf.
Qed.

Lemma oblivious_asyncio_wait (tasks : list (M unit)) :
  Forall (oblivious any) tasks → oblivious any (asyncio_wait tasks).
Proof.
  induction 1 as [|t tasks Ht _ IH]; simpl.
  - by apply oblivious_ret.
  - eapply oblivious_bind; [by eapply oblivious_settled|]. by intros.
Qed.

End Oblivious.

Create HintDb oblivious.

#[global] Hint Resolve oblivious_emit oblivious_in_world
  oblivious_get_middlewares oblivious_run_task oblivious_spawn_run_task
  oblivious_call_method oblivious_call oblivious_as_request
  oblivious_raise : oblivious.

(** Goes through a coroutine written with [bind], one statement at a time. *)
Ltac oblivious_step :=
  lazymatch goal with
  | |- oblivious _ (bind _ _) =>
      eapply (oblivious_bind any); [solve [eauto with oblivious]|intros ? _]
  | |- oblivious _ (ret _) => by apply oblivious_ret
  | |- oblivious _ (raise _) => apply oblivious_raise
  | |- oblivious _ (if ?b then _ else _) => destruct b
  | |- oblivious _ (match ?x with _ => _ end) => destruct x
  | |- oblivious _ _ =>
      solve [eauto with oblivious
            |eapply oblivious_weaken; [|solve [eauto with oblivious]]; done]
  end.

Section ObliviousEngine.

Context {W : Type} (C : components W).

#[local] Abbreviation M := (M W).
#[local] Abbreviation engine := (engine W).

Lemma oblivious_item_chain mws it : oblivious any (@item_chain W mws it).
Proof.
  induction mws as [|mw rest IH]; simpl; repeat oblivious_step.
Qed.

Lemma oblivious_handle_spider_item it :
  oblivious any (@handle_spider_item W it).
Proof.
  unfold handle_spider_item. oblivious_step.
  eapply (oblivious_bind any); [apply oblivious_item_chain|intros ? _].
  repeat oblivious_step.
Qed.

Lemma oblivious_filter_and_send request it :
  oblivious any (filter_and_send C request it).
Proof. unfold filter_and_send. repeat oblivious_step. Qed.

Lemma oblivious_exception_chain mws request e handled :
  oblivious any (@exception_chain W mws request e handled).
Proof.
  revert handled.
  induction mws as [|mw rest IH]; intros handled; simpl; repeat oblivious_step.
Qed.

Lemma oblivious_response_chain mws request resp handled :
  oblivious any (@response_chain W mws request resp handled).
Proof.
  revert handled.
  induction mws as [|mw rest IH]; intros handled; simpl; repeat oblivious_step.
Qed.

Lemma oblivious_request_chain mws request :
  oblivious any (@request_chain W mws request).
Proof.
  induction mws as [|mw rest IH]; simpl; repeat oblivious_step.
Qed.

#[local] Hint Resolve oblivious_item_chain oblivious_handle_spider_item
  oblivious_filter_and_send oblivious_exception_chain
  oblivious_response_chain oblivious_request_chain : oblivious.

Lemma oblivious_handle_downloader_exception request e :
  oblivious any (handle_downloader_exception C request e).
Proof. unfold handle_downloader_exception. repeat oblivious_step. Qed.

Lemma oblivious_handle_downloader_response request resp :
  oblivious any (handle_downloader_response C request resp).
Proof. unfold handle_downloader_response. repeat oblivious_step. Qed.

Lemma oblivious_fan_out request l tasks :
  Forall (oblivious any) tasks →
  oblivious (Forall (oblivious any)) (fan_out C request l tasks).
Proof.
  revert tasks. induction l as [|one rest IH]; intros tasks Ht; simpl.
  - by apply oblivious_ret.
  - assert (Hrest : oblivious (Forall (oblivious any))
                      (fan_out C request rest tasks)) by by apply IH.
    destruct one; try done.
    + destruct (m_coro (sch_send_request C)).
      * oblivious_step. apply IH. apply Forall_app. split; [done|].
        constructor; [|done]. apply oblivious_ensure_future.
      * by oblivious_step.
    + oblivious_step. destruct x as [it|]; [|done].
      destruct (item_truthy it); [|done].
      apply IH. apply Forall_app. split; [done|].
      constructor; [|done]. eauto with oblivious.
Qed.

#[local] Hint Resolve oblivious_handle_downloader_exception
  oblivious_handle_downloader_response : oblivious.

Lemma oblivious_handle_downloader_output request data :
  oblivious any (handle_downloader_output C request data).
Proof.
  unfold handle_downloader_output.
  eapply (oblivious_bind any).
  { destruct data; repeat oblivious_step. }
  intros handled _. destruct (negb (truthy handled)); [by apply oblivious_ret|].
  match goal with
  | |- oblivious _ (let '(_, _) := ?x in _) => destruct x as [elements failure]
  end.
  eapply oblivious_bind; [by apply oblivious_fan_out|].
  intros tasks Ht. destruct failure; [apply oblivious_raise|].
  destruct tasks; [by apply oblivious_ret|].
  by apply oblivious_asyncio_wait.
Qed.

#[local] Hint Resolve oblivious_handle_downloader_output : oblivious.

Lemma oblivious_word_after_poll : oblivious any (word_after_poll C).
Proof. unfold word_after_poll. repeat oblivious_step. Qed.

Lemma oblivious_request_after_poll : oblivious any (request_after_poll C).
Proof. unfold request_after_poll. repeat oblivious_step. Qed.

Lemma oblivious_word_iteration : oblivious any (word_iteration C).
Proof. unfold word_iteration, word_after_poll. repeat oblivious_step. Qed.

Lemma oblivious_request_iteration : oblivious any (request_iteration C).
Proof. unfold request_iteration, request_after_poll. repeat oblivious_step. Qed.

End ObliviousEngine.

(* ===================================================================== *)
(** ** The loops and the shutdown flag *)
(* ===================================================================== *)

Section Loops.

Context {W : Type} (C : components W).

#[local] Abbreviation M := (M W).
#[local] Abbreviation engine := (engine W).

Lemma while_returns_when_shutting_down (m : M unit) signals (st : engine) :
  shutting_down st = true →
  while_not_shutting_down m signals st = (Ok Returned, st, []).
Proof. intros H. destruct signals; simpl; by rewrite H. Qed.

Lemma close_crawler_in_flight {A} (m : M A) reason (st st' : engine) r evs :
  oblivious any m →
  m st = (r, st', evs) →
  m (close_crawler reason false st) = (r, close_crawler reason false st', evs).
Proof.
  intros Hm H. destruct (Hm _ _ _ _ H) as ((_ & F2 & F3 & _) & _ & _ & Hf).
  specialize (Hf true (shutdown st) (signal_int_count st) reason).
  unfold close_crawler. simpl. rewrite F2, F3. exact Hf.
Qed.

Lemma shutdown_signal_frame (st : engine) :
  ∃ st' logs, shutdown_signal st = (Ok tt, st', logs) ∧
    Forall (λ ev, is_log ev = true) logs ∧
    world st' = world st ∧ jobs st' = jobs st ∧
    middlewares st' = middlewares st ∧
    signal_int_count st' = S (signal_int_count st) ∧
    (shutting_down st = true ∨ signal_int_count st = 0%nat →
     shutting_down st' = true).
Proof.
  unfold shutdown_signal. simpl.
  destruct (signal_int_count st) as [|n] eqn:Hn; simpl.
  - eexists _, _. split; [done|]. split; [by repeat constructor|].
    simpl. by repeat split.
  - destruct n; simpl; eexists _, _; (split; [done|]);
      (split; [by repeat constructor|]); simpl; repeat split; try done;
      by intros [?|?].
Qed.

Lemma deliver_frame (n : nat) (st : engine) :
  ∃ st' logs, deliver n st = (Ok tt, st', logs) ∧
    Forall (λ ev, is_log ev = true) logs ∧
    world st' = world st ∧ jobs st' = jobs st ∧
    middlewares st' = middlewares st ∧
    (shutting_down st = true ∨ (n ≠ 0%nat ∧ signal_int_count st = 0%nat) →
     shutting_down st' = true).
Proof.
  revert st. induction n as [|n IH]; intros st; simpl.
  - exists st, []. split; [done|]. split; [constructor|].
    repeat split; try done. by intros [?|[? ?]].
  - destruct (shutdown_signal_frame st)
      as (st1 & l1 & H1 & Hl1 & Hw1 & Hj1 & Hm1 & Hc1 & Hs1).
    destruct (IH st1) as (st2 & l2 & H2 & Hl2 & Hw2 & Hj2 & Hm2 & Hs2).
    exists st2, (l1 ++ l2). erewrite bind_ok by exact H1. rewrite H2.
    split; [done|]. split; [by apply Forall_app|].
    split; [congruence|]. split; [congruence|]. split; [congruence|].
    intros Hs. apply Hs2. left. apply Hs1.
    destruct Hs as [?|[_ ?]]; [by left|by right].
Qed.

(** The handler writes one line per SIGINT and nothing else. *)
Lemma deliver_logs (n : nat) (st : engine) :
  Forall (λ ev, is_signal ev = true) (deliver n st).2 ∧
  length (deliver n st).2 = n.
Proof.
  revert st. induction n as [|n IH]; intros st; cbn [deliver].
  - split; [constructor|done].
  - unfold bind.
    assert (Hsig : ∃ st1 forced,
              shutdown_signal st
              = (Ok tt, st1, [EvLog Debug (ReceivedSignal forced)])).
    { unfold shutdown_signal. destruct (Nat.eqb _ _); by eexists _, _. }
    destruct Hsig as (st1 & forced & ->).
    destruct (IH st1) as [Hall Hlen].
    destruct (deliver n st1) as [[r st2] logs]. simpl in *.
    split; [by constructor|by rewrite Hlen].
Qed.

(** A state differs from another with the same chain, jobs and world by its
    flags only. *)
Lemma with_flags_of (st st1 : engine) :
  world st1 = world st → jobs st1 = jobs st →
  middlewares st1 = middlewares st →
  st1 = with_flags (shutting_down st1) (shutdown st1) (signal_int_count st1)
                   (finish_reason st1) st.
Proof.
  destruct st, st1. unfold with_flags. simpl. by intros -> -> ->.
Qed.

(** What a pass does is the same whether or not SIGINTs arrived during its
    poll delay: the handler has run, and the pass goes on from the pop. *)
Lemma pass_after_signals (m : M unit) (n : nat) (st st' : engine) r evs :
  oblivious any m →
  m st = (r, st', evs) →
  ∃ st1 logs a b c s,
    deliver n st = (Ok tt, st1, logs) ∧
    Forall (λ ev, is_signal ev = true) logs ∧ length logs = n ∧
    m st1 = (r, with_flags a b c s st', evs) ∧
    a = shutting_down st1 ∧ c = signal_int_count st1 ∧
    (shutting_down st = true ∨ (n ≠ 0%nat ∧ signal_int_count st = 0%nat) →
     a = true) ∧
    (n = 0%nat → st1 = st ∧ with_flags a b c s st' = st').
Proof.
  intros Hob Hm.
  destruct (deliver_frame n st) as (st1 & logs & Hd & _ & Hw & Hj & Hmw & Hs).
  pose proof (deliver_logs n st) as [Hall Hlen]. rewrite Hd in Hall, Hlen.
  destruct (Hob _ _ _ _ Hm) as (Hsame & Hmws & _ & Hf).
  exists st1, logs, (shutting_down st1), (shutdown st1),
         (signal_int_count st1), (finish_reason st1).
  split; [done|]. split; [done|]. split; [done|]. split.
  { rewrite (with_flags_of st st1) at 1 by done. apply Hf. }
  split; [done|]. split; [done|]. split; [done|].
  intros ->. cbn [deliver] in Hd. injection Hd as <- _. split; [done|].
  destruct Hsame as (F1 & F2 & F3 & F4). rewrite <- F1, <- F2, <- F3, <- F4.
  symmetry. by apply with_flags_of.
Qed.

(** An exception of the pass leaves the loop, whatever signals arrive. *)
Lemma while_raises (m : M unit) a rest (st st' : engine) e evs :
  oblivious any m →
  shutting_down st = false →
  (emit (EvSleep Suspending PROCESS_DALEY) ;; m) st = (Raise e, st', evs) →
  raises e (while_not_shutting_down m (a :: rest) st).
Proof.
  intros Hob Hs. rewrite bind_emit.
  destruct (m st) as [[r st0] evs0] eqn:Hm. cbn [after].
  intros [= -> <- <-].
  destruct (pass_after_signals m (in_poll_delay a) _ _ _ _ Hob Hm)
    as (st1 & logs & f1 & f2 & f3 & f4 & Hd & _ & _ & Hm1 & _).
  cbn [while_not_shutting_down]. rewrite Hs, bind_emit.
  erewrite bind_ok by exact Hd.
  erewrite bind_raise by exact Hm1. by eexists _, _.
Qed.

(** A pass that ends normally, and the loop after it. *)
Lemma while_pass (m : M unit) a rest (st st' : engine) evs :
  oblivious any m →
  shutting_down st = false →
  m st = (Ok tt, st', evs) →
  ∃ logs1 st2 logs2,
    while_not_shutting_down m (a :: rest) st
    = after (EvSleep Suspending PROCESS_DALEY :: logs1 ++ evs ++ logs2)
            (while_not_shutting_down m rest st2) ∧
    Forall (λ ev, is_signal ev = true) logs1 ∧
    length logs1 = in_poll_delay a ∧
    Forall (λ ev, is_signal ev = true) logs2 ∧
    length logs2 = in_flight a ∧
    world st2 = world st' ∧ jobs st2 = jobs st' ∧
    (signal_int_count st = 0%nat →
     (0 < in_poll_delay a + in_flight a)%nat → shutting_down st2 = true) ∧
    (in_poll_delay a = 0%nat → in_flight a = 0%nat → st2 = st').
Proof.
  intros Hob Hs Hm.
  destruct (pass_after_signals m (in_poll_delay a) _ _ _ _ Hob Hm)
    as (st1 & logs1 & f1 & f2 & f3 & f4 & Hd & Hall1 & Hlen1 & Hm1 & Hf1 & Hf3
        & Hset1 & Hcalm1).
  destruct (deliver_frame (in_flight a) (with_flags f1 f2 f3 f4 st'))
    as (st2 & logs2 & Hd2 & _ & Hw2 & Hj2 & _ & Hset2).
  pose proof (deliver_logs (in_flight a) (with_flags f1 f2 f3 f4 st'))
    as [Hall2 Hlen2].
  rewrite Hd2 in Hall2, Hlen2. cbn [snd] in Hall2, Hlen2.
  exists logs1, st2, logs2. split.
  { cbn [while_not_shutting_down]. rewrite Hs, bind_emit.
    erewrite bind_ok by exact Hd. erewrite bind_ok by exact Hm1.
    erewrite bind_ok by exact Hd2.
    rewrite !after_after. f_equal. cbn. by rewrite <- !app_assoc. }
  split; [done|]. split; [done|]. split; [done|]. split; [done|].
  split; [done|]. split; [done|]. split.
  - intros Hc Hpos.
    destruct (in_poll_delay a) as [|n1] eqn:Hn1.
    + apply Hset2. right. split; [lia|].
      destruct (Hcalm1 eq_refl) as [-> _]. cbn. by rewrite Hf3.
    + apply Hset2. left. cbn. apply Hset1. right. by split.
  - intros Hn1 Hn2. destruct (Hcalm1 Hn1) as [_ Heq].
    rewrite Hn2 in Hd2. cbn [deliver] in Hd2. injection Hd2 as <- _.
    exact Heq.
Qed.

(** Every pass starts with the poll delay and the pop. *)
Lemma word_iteration_head (st st' : engine) r evs :
  word_iteration C st = (r, st', evs) →
  ∃ work, evs = EvSleep Suspending PROCESS_DALEY :: EvCall get_word :: work ∧
          word_after_poll C st = (r, st', EvCall get_word :: work).
Proof.
  unfold word_iteration. rewrite bind_emit.
  unfold word_after_poll, call_method. rewrite bind_assoc, bind_emit.
  match goal with |- after _ (after _ ?x) = _ → _ =>
    destruct x as [[r0 st0] evs0] end.
  cbn. intros [= <- <- <-]. by eexists.
Qed.

Lemma request_iteration_head (st st' : engine) r evs :
  request_iteration C st = (r, st', evs) →
  ∃ work, evs = EvSleep Suspending PROCESS_DALEY :: EvCall get_request :: work ∧
          request_after_poll C st = (r, st', EvCall get_request :: work).
Proof.
  unfold request_iteration. rewrite bind_emit.
  unfold request_after_poll, call_method. rewrite bind_assoc, bind_emit.
  match goal with |- after _ (after _ ?x) = _ → _ =>
    destruct x as [[r0 st0] evs0] end.
  cbn. intros [= <- <- <-]. by eexists.
Qed.

(** The first SIGINT arrives during a pass, in its poll delay or later: the
    pass runs to its end, its pop included, and the loop returns at the next
    test of the flag. *)
Lemma while_returns_after_signal (m : M unit) a rest (st st' : engine) evs :
  oblivious any m →
  shutting_down st = false → signal_int_count st = 0%nat →
  (0 < in_poll_delay a + in_flight a)%nat →
  m st = (Ok tt, st', evs) →
  ∃ st'' logs1 logs2,
    while_not_shutting_down m (a :: rest) st
    = (Ok Returned, st'',
       EvSleep Suspending PROCESS_DALEY :: logs1 ++ evs ++ logs2) ∧
    Forall (λ ev, is_signal ev = true) logs1 ∧
    length logs1 = in_poll_delay a ∧
    Forall (λ ev, is_signal ev = true) logs2 ∧
    length logs2 = in_flight a ∧
    shutting_down st'' = true ∧ world st'' = world st' ∧
    jobs st'' = jobs st'.
Proof.
  intros Hob Hs Hc Hpos Hm.
  destruct (while_pass m a rest _ _ _ Hob Hs Hm)
    as (logs1 & st2 & logs2 & -> & Hall1 & Hlen1 & Hall2 & Hlen2 & Hw
        & Hj & Hset & _).
  exists st2, logs1, logs2.
  rewrite while_returns_when_shutting_down by by apply Hset.
  cbn [after]. rewrite !app_nil_r. by rewrite Hset.
Qed.

(** C7, amended: the flag is tested at the top of a pass only. With the flag
    set, the word loop and the request loop return (they do not raise) at
    that test, with no event, so that nothing is popped; a pass in flight
    behaves the same whether or not [close_crawler] sets the flag meanwhile;
    and when the first SIGINT arrives during a pass, whether in its poll
    delay, before the pop, or later, that pass runs to its end, its pop
    included, and the loop returns at the next test: its events are those of
    that one pass and the lines of the handler. *)
Theorem loops_return_once_shutting_down (st : engine) :
  (∀ signals, shutting_down st = true →
     handle_scheduler_word C signals st = (Ok Returned, st, []) ∧
     handle_scheduler_request C signals st = (Ok Returned, st, [])) ∧
  (∀ reason r st' evs,
     (word_iteration C st = (r, st', evs) →
      word_iteration C (close_crawler reason false st)
      = (r, close_crawler reason false st', evs)) ∧
     (request_iteration C st = (r, st', evs) →
      request_iteration C (close_crawler reason false st)
      = (r, close_crawler reason false st', evs))) ∧
  (∀ a rest st' evs,
     shutting_down st = false → signal_int_count st = 0%nat →
     (0 < in_poll_delay a + in_flight a)%nat →
     (word_iteration C st = (Ok tt, st', evs) →
      ∃ st'' logs1 logs2 work,
        evs = EvSleep Suspending PROCESS_DALEY :: EvCall get_word :: work ∧
        handle_scheduler_word C (a :: rest) st
        = (Ok Returned, st'',
           EvSleep Suspending PROCESS_DALEY
             :: logs1 ++ (EvCall get_word :: work) ++ logs2) ∧
        Forall (λ ev, is_signal ev = true) logs1 ∧
        length logs1 = in_poll_delay a ∧
        Forall (λ ev, is_signal ev = true) logs2 ∧
        length logs2 = in_flight a ∧
        shutting_down st'' = true ∧ world st'' = world st' ∧
        jobs st'' = jobs st') ∧
     (request_iteration C st = (Ok tt, st', evs) →
      ∃ st'' logs1 logs2 work,
        evs = EvSleep Suspending PROCESS_DALEY :: EvCall get_request :: work ∧
        handle_scheduler_request C (a :: rest) st
        = (Ok Returned, st'',
           EvSleep Suspending PROCESS_DALEY
             :: logs1 ++ (EvCall get_request :: work) ++ logs2) ∧
        Forall (λ ev, is_signal ev = true) logs1 ∧
        length logs1 = in_poll_delay a ∧
        Forall (λ ev, is_signal ev = true) logs2 ∧
        length logs2 = in_flight a ∧
        shutting_down st'' = true ∧ world st'' = world st' ∧
        jobs st'' = jobs st')).
Proof.
  split; [|split].
  - intros signals H.
    split; by apply while_returns_when_shutting_down.
  - intros reason r st' evs. split; intros H.
    + by apply close_crawler_in_flight; [apply oblivious_word_iteration|].
    + by apply close_crawler_in_flight; [apply oblivious_request_iteration|].
  - intros a rest st' evs Hs Hc Hpos. split; intros H.
    + destruct (word_iteration_head _ _ _ _ H) as (work & -> & Hwork).
      destruct (while_returns_after_signal (word_after_poll C) a rest _ _ _
                  (oblivious_word_after_poll C) Hs Hc Hpos Hwork)
        as (st'' & logs1 & logs2 & Hrun & Hrest).
      by exists st'', logs1, logs2, work.
    + destruct (request_iteration_head _ _ _ _ H) as (work & -> & Hwork).
      destruct (while_returns_after_signal (request_after_poll C) a rest _ _ _
                  (oblivious_request_after_poll C) Hs Hc Hpos Hwork)
        as (st'' & logs1 & logs2 & Hrun & Hrest).
      by exists st'', logs1, logs2, work.
Qed.

(** C5: a request popped by the request loop and rejected by the filter is
    dropped silently. The pass makes three steps, the poll delay, the pop and
    the filter call; it calls the fetcher zero times, runs no pre-request
    hook, emits no request-consumed telemetry and logs nothing, and only the
    world changed by the pop and the filter is left behind. *)
Theorem rejected_request_is_dropped (st : engine) (request rejected : pyval)
    (w1 w2 : W) :
  m_body (sch_get_request C) [] (world st) = (Ok request, w1) →
  truthy request = true →
  m_body (flt_filter_request C) [request] w1 = (Ok rejected, w2) →
  truthy rejected = false →
  ∃ evs,
    request_iteration C st = (Ok tt, set_world w2 st, evs) ∧
    evs = [EvSleep Suspending PROCESS_DALEY; EvCall get_request;
           EvCall (filter_request request)] ∧
    occurrences is_fetch evs = 0%nat ∧
    occurrences is_pre_request_hook evs = 0%nat ∧
    occurrences is_request_consumed evs = 0%nat.
Proof.
  intros Hpop Hreq Hflt Hrej. eexists. split; [|split; [reflexivity|done]].
  unfold request_iteration, request_after_poll. rewrite bind_emit.
  erewrite await_ok by exact Hpop. rewrite Hreq.
  erewrite await_ok by exact Hflt. rewrite Hrej. done.
Qed.

(** C4, amended: when the item left by the post-item hooks is non-empty, the
    item handed on by [__handle_spider_item] is a new instance of its class
    with no instance attribute, whose keys are the names that the namespace
    of the class itself binds to a [Field], those and no other, each holding
    the value of the processed item, or [None] when the processed item has
    none. Whatever else was set on the processed item is not carried over,
    and neither is a field that only a base class declares. *)
Theorem item_copy_has_declared_fields (st st' : engine) (it processed : item)
    (evs : list event) :
  item_chain (middlewares st) it st = (Ok processed, st', evs) →
  item_truthy processed = true →
  NoDup (ic_dict (item_cls processed)).*1 →
  let copy := copy_item processed in
  handle_spider_item it st = (Ok (Some copy), st', evs) ∧
  item_cls copy = item_cls processed ∧
  item_attrs copy = ∅ ∧
  (∀ f, (f, AField) ∈ ic_dict (item_cls processed) →
        item_data copy !! f = Some (default FNone (item_data processed !! f))) ∧
  (∀ f, (f, AField) ∉ ic_dict (item_cls processed) →
        item_data copy !! f = None).
Proof.
  intros Hchain Htrue Hnd copy. split; [|split; [|split; [|split]]].
  - unfold handle_spider_item, get_middlewares.
    unfold bind at 1. rewrite after_nil.
    erewrite bind_ok by exact Hchain. rewrite Htrue. simpl.
    by rewrite app_nil_r.
  - apply (copy_fields_frame processed _ (Item (item_cls processed) ∅ ∅)).
  - apply (copy_fields_frame processed _ (Item (item_cls processed) ∅ ∅)).
  - intros f Hf. unfold copy, copy_item.
    rewrite copy_fields_lookup. rewrite decide_True; [done|].
    by apply get_fields_declared.
  - intros f Hf. unfold copy, copy_item.
    rewrite copy_fields_lookup. rewrite decide_False; [done|].
    intros Hin. by apply Hf, get_fields_own.
Qed.

End Loops.

(* ===================================================================== *)
(** ** Dispatch of a response *)
(* ===================================================================== *)

Section Dispatch.

Context {W : Type} (C : components W).

#[local] Abbreviation M := (M W).
#[local] Abbreviation engine := (engine W).
#[local] Abbreviation middleware := (middleware W).

Lemma await_step {B} (o : op) (m : method W) args (k : pyval → M B)
    (st : engine) :
  (task <- call_method o m args ;; x <- run_task task ;; k x) st
  = match awaited m args (world st) with
    | (Ok v, w, logs) => after (EvCall o :: logs) (k v (set_world w st))
    | (Raise e, w, _) => (Raise e, set_world w st, [EvCall o])
    end.
Proof.
  unfold awaited. destruct (m_body m args (world st)) as [[v|e] w] eqn:Hb.
  - by apply await_ok.
  - destruct (m_coro m) eqn:Hc.
    + by apply await_caught.
    + by apply await_escapes.
Qed.

(** While the hooks give empty results the chain goes on. *)
Lemma response_chain_app (mws1 mws2 : list middleware) request resp h0
    (st st1 : engine) h1 r1 evs1 :
  response_chain mws1 request resp h0 st = (Ok (h1, r1), st1, evs1) →
  truthy h1 = false →
  response_chain (mws1 ++ mws2) request resp h0 st
  = after evs1 (response_chain mws2 request resp h1 st1) ∧ r1 = resp.
Proof.
  revert h0 st evs1.
  induction mws1 as [|mw rest IH]; intros h0 st evs1 H Hf.
  - injection H as <- <- <- <-. simpl. by rewrite after_nil.
  - cbn [response_chain app] in *. rewrite await_step in *.
    destruct (awaited _ _ _) as [[[v|e] w] logs]; [|done].
    destruct (truthy v) eqn:Hv.
    + exfalso. destruct v; simpl in H; injection H as <- <- <- <-;
        congruence.
    + destruct (response_chain rest request resp v (set_world w st))
        as [[r2 st2] evs2] eqn:Hrest.
      simpl in H. injection H as -> <- <-.
      destruct (IH _ _ _ Hrest Hf) as [-> ->].
      by rewrite after_after.
Qed.

(** C3, first part: the first hook whose result is non-empty ends the
    chain, whether the result is a Response or not; a Response replaces the
    current response; no later hook is called. *)
Lemma response_chain_first_result (mws1 mws2 : list middleware)
    (mw : middleware) request resp (st st1 : engine) h1 evs1 v w :
  response_chain mws1 request resp VNone st = (Ok (h1, resp), st1, evs1) →
  truthy h1 = false →
  m_body (mw_process_response mw) [request; VResponse resp] (world st1)
  = (Ok v, w) →
  truthy v = true →
  response_chain (mws1 ++ mw :: mws2) request resp VNone st
  = (Ok (v, match v with VResponse r => r | _ => resp end),
     set_world w st1,
     evs1 ++ [EvCall (process_response (mw_name mw) request resp)]).
Proof.
  intros H1 Hf Hb Hv.
  destruct (response_chain_app _ (mw :: mws2) _ _ _ _ _ _ _ _ H1 Hf) as [-> _].
  cbn [response_chain]. erewrite await_ok by exact Hb. rewrite Hv.
  by destruct v.
Qed.

(** C3, second part: when the chain leaves [None] or a Response, the
    current response is given the request's metadata and, if the name of the
    request's callback is an attribute of the spider class, the callback is
    called with it; otherwise no callback is called. *)
Lemma response_reaches_callback (st st2 : engine) (r : request)
    (resp resp1 resp2 : response) (w1 : W) handled evs2 (f : funcref) :
  dl_parse_html C (VRequest r) resp (world st) = (Ok resp1, w1) →
  response_chain (middlewares st) (VRequest r) resp1 VNone (set_world w1 st)
  = (Ok (handled, resp2), st2, evs2) →
  is_response handled || is_none handled = true →
  req_callback r = Some f →
  let resp' := set_meta (req_meta r) resp2 in
  handle_downloader_response C (VRequest r) resp st
  = after (EvCall (parse_html (VRequest r) resp) :: evs2
           ++ [EvLog Success (Crawled (resp_status resp2) (req_method r)
                                       (req_url r))])
          (if spider_hasattr C (fn_name f)
           then call (callback f resp') (call_function C f [VResponse resp']) st2
           else (Ok (delivered handled resp'), st2, [])).
Proof.
  intros Hparse Hchain Hh Hcb resp'.
  unfold handle_downloader_response.
  erewrite call_ok by exact Hparse.
  unfold get_middlewares. unfold bind at 1. rewrite after_nil. simpl middlewares.
  erewrite bind_ok by exact Hchain. cbn zeta beta iota delta [fst snd].
  rewrite Hh.
  cbn [as_request]. rewrite bind_ret, bind_emit, Hcb.
  rewrite !after_after.
  by destruct (spider_hasattr C (fn_name f)).
Qed.

(** C3, amended: in the post-response chain the first hook that returns a
    non-empty result ends the chain, a Response like any other result: a
    Response becomes the current response and no later hook is called.
    Whenever the chain leaves [None] or a Response, the current response is
    given the request's metadata and is delivered to the request's callback
    if the callback's name is an attribute of the spider class. *)
Theorem post_response_chain_stops_at_first_result
    (mws1 mws2 : list middleware) (mw : middleware) (req : pyval)
    (r : request) (resp resp1 resp2 : response) (st st1 st2 : engine)
    (h1 v handled : pyval) (w w1 : W) (evs1 evs2 : list event) (f : funcref) :
  (response_chain mws1 req resp VNone st = (Ok (h1, resp), st1, evs1) →
   truthy h1 = false →
   m_body (mw_process_response mw) [req; VResponse resp] (world st1)
   = (Ok v, w) →
   truthy v = true →
   response_chain (mws1 ++ mw :: mws2) req resp VNone st
   = (Ok (v, match v with VResponse r' => r' | _ => resp end),
      set_world w st1,
      evs1 ++ [EvCall (process_response (mw_name mw) req resp)])) ∧
  (dl_parse_html C (VRequest r) resp (world st) = (Ok resp1, w1) →
   response_chain (middlewares st) (VRequest r) resp1 VNone (set_world w1 st)
   = (Ok (handled, resp2), st2, evs2) →
   is_response handled || is_none handled = true →
   req_callback r = Some f →
   handle_downloader_response C (VRequest r) resp st
   = after (EvCall (parse_html (VRequest r) resp) :: evs2
            ++ [EvLog Success (Crawled (resp_status resp2) (req_method r)
                                        (req_url r))])
           (if spider_hasattr C (fn_name f)
            then call (callback f (set_meta (req_meta r) resp2))
                      (call_function C f
                         [VResponse (set_meta (req_meta r) resp2)]) st2
            else (Ok (delivered handled (set_meta (req_meta r) resp2)),
                  st2, []))).
Proof.
  split.
  - apply response_chain_first_result.
  - apply response_reaches_callback.
Qed.

End Dispatch.

(* ===================================================================== *)
(** ** Dispatch of a failure *)
(* ===================================================================== *)

Section Failure.

Context {W : Type} (C : components W).

#[local] Abbreviation M := (M W).
#[local] Abbreviation engine := (engine W).
#[local] Abbreviation middleware := (middleware W).

Lemma occurrences_app (p : event → bool) (l1 l2 : list event) :
  occurrences p (l1 ++ l2) = (occurrences p l1 + occurrences p l2)%nat.
Proof. unfold occurrences. by rewrite List.filter_app, length_app. Qed.

Lemma occurrences_none (p : event → bool) (l : list event) :
  Forall (λ ev, p ev = false) l → occurrences p l = 0%nat.
Proof.
  unfold occurrences. induction 1 as [|ev l Hev _ IH]; simpl; [done|].
  by rewrite Hev.
Qed.

Lemma exception_chain_declined (mws : list middleware) req e h0 (st : engine) :
  exception_hooks_decline mws req e →
  (mws = [] → h0 = VNone) →
  ∃ st' evs,
    exception_chain mws req e h0 st = (Ok VNone, st', evs) ∧
    Forall (λ ev, is_exception_hook_or_log ev = true) evs.
Proof.
  revert h0 st. induction mws as [|mw rest IH]; intros h0 st [Hall Hlast] Hh0.
  - rewrite Hh0 by done. by exists st, [].
  - cbn [exception_chain]. rewrite await_step. unfold awaited.
    apply Forall_cons in Hall as [Hmw Hrest].
    assert (Hnone : rest = [] →
              awaits_to (λ v, v = VNone) (mw_process_exception mw) [req; VExc e]).
    { intros ->. exact Hlast. }
    assert (Hdecl : exception_hooks_decline rest req e).
    { split; [done|]. destruct rest as [|m2 rest']; [done|exact Hlast]. }
    specialize (Hmw (world st)).
    destruct (m_body (mw_process_exception mw) [req; VExc e] (world st))
      as [[v|e'] w] eqn:Hb.
    + rewrite Hmw.
      destruct (IH v (set_world w st) Hdecl) as (st' & evs & Hrun & Hevs).
      { intros Hr. specialize (Hnone Hr (world st)). by rewrite Hb in Hnone. }
      exists st', (EvCall (process_exception (mw_name mw) req e) :: evs).
      rewrite Hrun. split; [done|]. by constructor.
    + destruct Hmw as [-> _]. cbn [truthy].
      destruct (IH VNone (set_world w st) Hdecl) as (st' & evs & Hrun & Hevs);
        [done|].
      eexists st', _. rewrite Hrun. split; [done|].
      by repeat constructor.
Qed.

Lemma handle_downloader_exception_unhandled (st : engine) (r : request) e :
  quiet (sch_append_error_request C) [VRequest r] →
  exception_hooks_decline (middlewares st) (VRequest r) e →
  err_callback_resolvable C r = false →
  ∃ st' evs,
    handle_downloader_exception C (VRequest r) e st = (Ok VNone, st', evs) ∧
    occurrences is_error_recording evs = 1%nat ∧
    occurrences is_production evs = 0%nat.
Proof.
  intros Hq Hdecl Hres. unfold handle_downloader_exception.
  unfold get_middlewares. unfold bind at 1. rewrite after_nil.
  destruct (exception_chain_declined (middlewares st) (VRequest r) e VNone st)
    as (st1 & evs1 & Hchain & Hevs1); [done..|].
  erewrite bind_ok by exact Hchain. cbn [is_none].
  match goal with
  | |- context [bind (call_method ?o ?m ?args) (λ task, bind (spawn_run_task task) (λ _, ?k)) ?s] =>
      destruct (spawn_quiet o m args k s Hq) as (j & w & Hspawn)
  end.
  rewrite Hspawn. cbn [as_request]. rewrite bind_ret.
  unfold err_callback_resolvable in Hres.
  eexists _, _. split.
  - destruct (req_err_callback r) as [f|]; [rewrite Hres|]; reflexivity.
  - assert (H1 : occurrences is_error_recording evs1 = 0%nat).
    { apply occurrences_none. eapply Forall_impl; [exact Hevs1|].
      by intros [| [] |]. }
    assert (H2 : occurrences is_production evs1 = 0%nat).
    { apply occurrences_none. eapply Forall_impl; [exact Hevs1|].
      by intros [| [] |]. }
    by rewrite !occurrences_app, H1, H2.
Qed.

(** C6, amended: a fetch ends with an exception, every post-exception hook
    gives an empty result, the last of them [None], and the request's error
    callback is not resolvable on the spider class. Then
    [append_error_request] is called exactly once for the request and no
    Request or Item is handed on. *)
Theorem unhandled_failure_is_recorded_once (st : engine) (r : request)
    (e : exn) :
  quiet (col_collect_downloader_exception C) [] →
  quiet (sch_append_error_request C) [VRequest r] →
  exception_hooks_decline (middlewares st) (VRequest r) e →
  err_callback_resolvable C r = false →
  ∃ st' evs,
    handle_downloader_output C (VRequest r) (VExc e) st = (Ok tt, st', evs) ∧
    occurrences is_error_recording evs = 1%nat ∧
    occurrences is_production evs = 0%nat.
Proof.
  intros Hq1 Hq2 Hdecl Hres. unfold handle_downloader_output.
  match goal with
  | |- context [bind (call_method ?o ?m ?args) (λ task, bind (spawn_run_task task) (λ _, ?k))] =>
      destruct (spawn_quiet o m args k st Hq1) as (j & w & Hspawn)
  end.
  destruct (handle_downloader_exception_unhandled
              (add_job j (set_world w st)) r e Hq2 Hdecl Hres)
    as (st' & evs & Hrun & Hrec & Hprod).
  rewrite Hrun in Hspawn.
  erewrite bind_ok by exact Hspawn. cbn [truthy negb].
  eexists _, _. split; [reflexivity|].
  rewrite app_nil_r. change (?a :: evs) with ([a] ++ evs).
  rewrite !occurrences_app, Hrec, Hprod. done.
Qed.

End Failure.

(* ===================================================================== *)
(** ** Exceptions of the user's crawl logic *)
(* ===================================================================== *)

Section UserCode.

Context {W : Type} (C : components W).

#[local] Abbreviation M := (M W).
#[local] Abbreviation engine := (engine W).
#[local] Abbreviation middleware := (middleware W).

Lemma raises_bind {A B} (m : M A) (k : A → M B) (st : engine) e :
  raises e (m st) → raises e (bind m k st).
Proof. intros (st' & evs & H). eexists _, _. by eapply bind_raise. Qed.

Lemma call_always_raises {A} (o : op) (f : W → outcome A * W) (st : engine) e :
  always_raises f e → raises e (call o f st).
Proof.
  intros H. destruct (H (world st)) as [w Hf].
  unfold call. rewrite bind_emit. unfold in_world. rewrite Hf.
  by eexists _, _.
Qed.

(** Awaits a call that cannot raise, inside a goal [raises e _]. *)
Ltac await_with H :=
  match goal with
  | |- raises _ (bind (call_method ?o ?m ?args)
                      (λ task, bind (run_task task) ?k) ?st) =>
      let v := fresh "v" in let w := fresh "w" in
      let logs := fresh "logs" in let Hv := fresh "Hv" in
      let Heq := fresh "Heq" in
      destruct (await_awaits_to _ o m args k st H)
        as (v & w & logs & Hv & _ & Heq);
      rewrite Heq; apply raises_after; clear Heq
  end.

Ltac spawn_with H :=
  match goal with
  | |- raises _ (bind (call_method ?o ?m ?args)
                      (λ task, bind (spawn_run_task task) (λ _, ?k)) ?st) =>
      let j := fresh "j" in let w := fresh "w" in
      let Heq := fresh "Heq" in
      destruct (spawn_quiet o m args k st H) as (j & w & Heq);
      rewrite Heq; apply raises_after; clear Heq
  end.

Lemma request_chain_completes (mws : list middleware) req (st : engine) :
  Forall (λ mw, awaits_to any (mw_process_request mw) [req]) mws →
  ∃ st' evs, request_chain mws req st = (Ok tt, st', evs) ∧
             middlewares st' = middlewares st.
Proof.
  intros H. revert st. induction H as [|mw rest Hmw _ IH]; intros st.
  - by exists st, [].
  - cbn [request_chain].
    destruct (await_awaits_to _ (process_request (mw_name mw) req)
                (mw_process_request mw) [req]
                (λ _, request_chain rest req) st Hmw)
      as (v & w & logs & _ & _ & ->).
    destruct (IH (set_world w st)) as (st' & evs & -> & Hm).
    by eexists _, _.
Qed.

Lemma response_chain_passes (mws : list middleware) req resp (st : engine) :
  Forall (λ mw, awaits_to (λ v, v = VNone) (mw_process_response mw)
                          [req; VResponse resp]) mws →
  ∃ st' evs, response_chain mws req resp VNone st = (Ok (VNone, resp), st', evs).
Proof.
  intros H. revert st. induction H as [|mw rest Hmw _ IH]; intros st.
  - by exists st, [].
  - cbn [response_chain].
    match goal with
    | |- ∃ _ _, bind (call_method ?o ?m ?args)
                     (λ task, bind (run_task task) ?k) _ = _ =>
        destruct (await_awaits_to _ o m args k st Hmw)
          as (v & w & logs & -> & _ & ->)
    end.
    cbn [truthy]. destruct (IH (set_world w st)) as (st' & evs & ->).
    by eexists _, _.
Qed.

(** The three calls of user code, in the coroutine that makes them. *)

Lemma make_request_exception_escapes (st : engine) word w1 e :
  m_body (sch_get_word C) [] (world st) = (Ok word, w1) →
  truthy word = true →
  quiet (col_collect_word C) [] →
  always_raises (spider_make_request C word) e →
  raises e (word_iteration C st).
Proof.
  intros Hpop Hword Hq Hmk. unfold word_iteration, word_after_poll. rewrite bind_emit.
  apply raises_after. erewrite await_ok by exact Hpop. apply raises_after.
  rewrite Hword. spawn_with Hq. rewrite bind_emit. apply raises_after.
  apply raises_bind. by apply call_always_raises.
Qed.

Lemma callback_exception_escapes (st : engine) (r : request)
    (resp resp1 : response) (f : funcref) e :
  (∀ w, ∃ w', dl_parse_html C (VRequest r) resp w = (Ok resp1, w')) →
  Forall (λ mw, awaits_to (λ v, v = VNone) (mw_process_response mw)
                          [VRequest r; VResponse resp1]) (middlewares st) →
  req_callback r = Some f →
  spider_hasattr C (fn_name f) = true →
  (∀ args, always_raises (call_function C f args) e) →
  raises e (handle_downloader_response C (VRequest r) resp st).
Proof.
  intros Hparse Hhooks Hcb Hattr Hf.
  destruct (Hparse (world st)) as [w1 Hp].
  destruct (response_chain_passes _ (VRequest r) resp1 (set_world w1 st) Hhooks)
    as (st2 & evs2 & Hchain).
  erewrite response_reaches_callback by done.
  apply raises_after. rewrite Hattr. by apply call_always_raises.
Qed.

Lemma err_callback_exception_escapes (st : engine) (r : request) (x : exn)
    (f : funcref) e :
  Forall (λ mw, awaits_to (λ v, v = VNone) (mw_process_exception mw)
                          [VRequest r; VExc x]) (middlewares st) →
  quiet (sch_append_error_request C) [VRequest r] →
  req_err_callback r = Some f →
  fn_isfunction f = true →
  spider_hasattr C (fn_name f) = true →
  (∀ args, always_raises (call_function C f args) e) →
  raises e (handle_downloader_exception C (VRequest r) x st).
Proof.
  intros Hhooks Hq Hcb Hfun Hattr Hf.
  unfold handle_downloader_exception, get_middlewares.
  unfold bind at 1. apply raises_after.
  destruct (exception_chain_declined (middlewares st) (VRequest r) x VNone st)
    as (st1 & evs1 & Hchain & _); [|done|].
  { split.
    - eapply Forall_impl; [exact Hhooks|]. intros mw Hmw w.
      specialize (Hmw w). destruct (m_body _ _ _) as [[v|?] ?].
      + by rewrite Hmw.
      + by destruct Hmw.
    - destruct (last (middlewares st)) as [mw|] eqn:Hl; [|done].
      apply last_Some in Hl as [l' Hl]. rewrite Hl in Hhooks.
      apply Forall_app in Hhooks as [_ Hhooks].
      by apply Forall_cons in Hhooks as [? _]. }
  erewrite bind_ok by exact Hchain. apply raises_after. cbn [is_none].
  spawn_with Hq. cbn [as_request]. rewrite bind_ret, Hcb, Hfun, Hattr.
  by apply call_always_raises.
Qed.

(** A pass of the request loop that reaches the dispatch raises what the
    dispatch raises. *)
Lemma dispatch_exception_escapes (st : engine) (r : request) (data : pyval)
    (w1 : W) e :
  m_body (sch_get_request C) [] (world st) = (Ok (VRequest r), w1) →
  awaits_to (λ v, v = VRequest r) (flt_filter_request C) [VRequest r] →
  quiet (col_collect_request C) [VRequest r] →
  Forall (λ mw, awaits_to any (mw_process_request mw) [VRequest r])
         (middlewares st) →
  awaits_to (λ v, v = data) (dl_download C) [VRequest r] →
  (∀ st', middlewares st' = middlewares st →
          raises e (handle_downloader_output C (VRequest r) data st')) →
  raises e (request_iteration C st).
Proof.
  intros Hpop Hflt Hq Hhooks Hdl Hout.
  unfold request_iteration, request_after_poll. rewrite bind_emit. apply raises_after.
  erewrite await_ok by exact Hpop. apply raises_after. cbn [truthy].
  await_with Hflt. subst v. cbn [truthy].
  spawn_with Hq. unfold get_middlewares. unfold bind at 1.
  apply raises_after. cbn [middlewares add_job set_world].
  match goal with
  | |- raises _ (bind (request_chain _ _) _ ?s) =>
      destruct (request_chain_completes (middlewares st) (VRequest r) s Hhooks)
        as (st3 & evs3 & Hchain & Hmws)
  end.
  erewrite bind_ok by exact Hchain. apply raises_after.
  rewrite bind_emit. apply raises_after.
  await_with Hdl. subst v. apply Hout. simpl. by rewrite Hmws.
Qed.

Lemma output_raises_what_dispatch_raises (st : engine) (req : pyval)
    (resp : response) e :
  quiet (col_collect_response_received C) [VResponse resp] →
  (∀ st', middlewares st' = middlewares st →
          raises e (handle_downloader_response C req resp st')) →
  raises e (handle_downloader_output C req (VResponse resp) st).
Proof.
  intros Hq H. unfold handle_downloader_output. apply raises_bind.
  spawn_with Hq. by apply H.
Qed.

Lemma output_raises_what_failure_raises (st : engine) (req : pyval)
    (x : exn) e :
  quiet (col_collect_downloader_exception C) [] →
  (∀ st', middlewares st' = middlewares st →
          raises e (handle_downloader_exception C req x st')) →
  raises e (handle_downloader_output C req (VExc x) st).
Proof.
  intros Hq H. unfold handle_downloader_output. apply raises_bind.
  spawn_with Hq. by apply H.
Qed.

Lemma loop_raises_what_pass_raises (m : M unit) (st : engine) a rest e :
  oblivious any m →
  shutting_down st = false →
  raises e ((emit (EvSleep Suspending PROCESS_DALEY) ;; m) st) →
  raises e (while_not_shutting_down m (a :: rest) st).
Proof.
  intros Hob Hs (st' & evs & H). by eapply while_raises.
Qed.

(** C1, amended: the engine calls the user's crawl logic directly, outside
    [__run_task]. An exception raised by [make_request] on a word, by the
    response callback of a request or by its error callback is not caught and
    not logged by the engine: it leaves the pass in which it is raised, and
    the enclosing word loop or request loop ends by raising it. *)
Theorem user_exception_ends_the_loop (st : engine) (k : arrivals)
    (rest : list arrivals) (e : exn) :
  shutting_down st = false →
  (∀ word w1,
     m_body (sch_get_word C) [] (world st) = (Ok word, w1) →
     truthy word = true →
     quiet (col_collect_word C) [] →
     always_raises (spider_make_request C word) e →
     raises e (handle_scheduler_word C (k :: rest) st)) ∧
  (∀ r resp resp1 f,
     fetches C st r (VResponse resp) →
     quiet (col_collect_response_received C) [VResponse resp] →
     (∀ w, ∃ w', dl_parse_html C (VRequest r) resp w = (Ok resp1, w')) →
     Forall (λ mw, awaits_to (λ v, v = VNone) (mw_process_response mw)
                             [VRequest r; VResponse resp1]) (middlewares st) →
     req_callback r = Some f →
     spider_hasattr C (fn_name f) = true →
     (∀ args, always_raises (call_function C f args) e) →
     raises e (handle_scheduler_request C (k :: rest) st)) ∧
  (∀ r x f,
     fetches C st r (VExc x) →
     quiet (col_collect_downloader_exception C) [] →
     Forall (λ mw, awaits_to (λ v, v = VNone) (mw_process_exception mw)
                             [VRequest r; VExc x]) (middlewares st) →
     quiet (sch_append_error_request C) [VRequest r] →
     req_err_callback r = Some f →
     fn_isfunction f = true →
     spider_hasattr C (fn_name f) = true →
     (∀ args, always_raises (call_function C f args) e) →
     raises e (handle_scheduler_request C (k :: rest) st)).
Proof.
  intros Hs. split; [|split].
  - intros word w1 Hpop Hword Hq Hmk.
    apply loop_raises_what_pass_raises;
      [apply oblivious_word_after_poll|done|].
    change (raises e (word_iteration C st)).
    by eapply make_request_exception_escapes.
  - intros r resp resp1 f ([w1 Hpop] & Hflt & Hq & Hpre & Hdl) Hq' Hparse
      Hpost Hcb Hattr Hf.
    apply loop_raises_what_pass_raises;
      [apply oblivious_request_after_poll|done|].
    change (raises e (request_iteration C st)).
    eapply dispatch_exception_escapes; [done..|].
    intros st' Hmws. apply output_raises_what_dispatch_raises; [done|].
    intros st'' Hmws'. eapply callback_exception_escapes; [done| |done..].
    by rewrite Hmws', Hmws.
  - intros r x f ([w1 Hpop] & Hflt & Hq & Hpre & Hdl) Hq' Hpost Hq''
      Hcb Hfun Hattr Hf.
    apply loop_raises_what_pass_raises;
      [apply oblivious_request_after_poll|done|].
    change (raises e (request_iteration C st)).
    eapply dispatch_exception_escapes; [done..|].
    intros st' Hmws. apply output_raises_what_failure_raises; [done|].
    intros st'' Hmws'. eapply err_callback_exception_escapes; [|done..].
    by rewrite Hmws', Hmws.
Qed.

End UserCode.

(* ===================================================================== *)
(** ** The blocking delay and the event loop *)
(* ===================================================================== *)

Lemma schedule_alone (a : list event) (holder : option loop_id) :
  ∃ l, schedule holder a [] l.
Proof.
  revert holder. induction a as [|ev a IH]; intros holder.
  - exists []. constructor.
  - destruct (IH (if yields ev then None else Some ThisLoop)) as [l Hl].
    exists ((ThisLoop, ev) :: l). by constructor.
Qed.

Lemma schedule_other_first (b a : list event) (holder : option loop_id) :
  holder ≠ Some ThisLoop →
  ∃ l, schedule holder a b l.
Proof.
  revert holder. induction b as [|ev b IH]; intros holder Hh.
  - apply schedule_alone.
  - destruct (IH (if yields ev then None else Some OtherLoop)) as [l Hl].
    { by destruct (yields ev). }
    exists ((OtherLoop, ev) :: l). by constructor.
Qed.

(** Once the event loop runs a loop's blocking sleep, the next step of the
    run is that loop's next step: the other loop makes no progress, whatever
    it has to do. *)
Lemma blocking_sleep_keeps_the_thread holder d next a b l :
  schedule holder (EvSleep Blocking d :: next :: a) b
           ((ThisLoop, EvSleep Blocking d) :: l) →
  ∃ l', l = (ThisLoop, next) :: l'.
Proof.
  intros H. inversion H as [| ? ? ? ? ? _ Htail |]; subst.
  simpl in Htail.
  inversion Htail as [| |? ? ? ? ? Hfree _]; subst; [by eexists|].
  by specialize (Hfree eq_refl).
Qed.

(** During a suspending sleep the other loop can run. *)
Lemma suspending_sleep_lets_the_other_run d a ev b :
  ∃ l, schedule None (EvSleep Suspending d :: a) (ev :: b)
                ((ThisLoop, EvSleep Suspending d) :: (OtherLoop, ev) :: l).
Proof.
  destruct (schedule_other_first b a (if yields ev then None else Some OtherLoop))
    as [l Hl].
  { by destruct (yields ev). }
  exists l. constructor; [done|]. simpl. by constructor.
Qed.

(* ===================================================================== *)
(** ** Runs of the small crawl *)
(* ===================================================================== *)

(** C1, as stated, fails. The spider keeps [Spider.make_request] of the base
    class, which raises [NotImplementedError]: the word loop, followed for
    three passes, ends in the first one by raising it, and nothing is logged
    as an error. A response callback and an error callback that raise
    [KeyError] end the request loop in the same way, after one fetch, and so
    does a response callback that is a generator failing after its first
    item. *)
Lemma user_exception_is_not_caught :
  let words :=
    handle_scheduler_word Crawl.unimplemented_spider [calm; calm; calm]
                          (Crawl.start []) in
  let parsing :=
    handle_scheduler_request
      (Crawl.fetching Crawl.golang (VResponse Crawl.page) Crawl.failing_functions)
      [calm; calm; calm] (Crawl.start []) in
  let failing :=
    handle_scheduler_request
      (Crawl.fetching Crawl.golang_guarded (VExc Crawl.timeout)
                      Crawl.failing_functions)
      [calm; calm; calm] (Crawl.start []) in
  let yielding :=
    handle_scheduler_request
      (Crawl.fetching Crawl.golang (VResponse Crawl.page)
                      Crawl.generator_functions)
      [calm; calm; calm] (Crawl.start []) in
  (words.1.1 = Raise "NotImplementedError"%string ∧
   words.2 = [EvSleep Suspending PROCESS_DALEY; EvCall get_word;
              EvCall collect_word;
              EvLog Debug (MakingRequest (VStr "golang"));
              EvCall (make_request (VStr "golang"))]) ∧
  (parsing.1.1 = Raise "KeyError"%string ∧
   occurrences is_error_log parsing.2 = 0%nat ∧
   occurrences is_fetch parsing.2 = 1%nat) ∧
  (failing.1.1 = Raise "KeyError"%string ∧
   occurrences is_error_log failing.2 = 0%nat ∧
   occurrences is_fetch failing.2 = 1%nat) ∧
  (yielding.1.1 = Raise "KeyError"%string ∧
   occurrences is_error_log yielding.2 = 0%nat ∧
   occurrences is_fetch yielding.2 = 1%nat).
Proof. by vm_compute. Qed.

(** C1, amended, on the small crawl: the three kinds of user call. *)
Lemma user_exception_ends_the_loop_witness :
  shutting_down (Crawl.start []) = false ∧
  raises "NotImplementedError"%string
    (handle_scheduler_word Crawl.unimplemented_spider [calm; calm]
                           (Crawl.start [])) ∧
  raises "KeyError"%string
    (handle_scheduler_request
       (Crawl.fetching Crawl.golang (VResponse Crawl.page)
                       Crawl.failing_functions)
       [calm; calm] (Crawl.start [Crawl.base_middleware "A"])) ∧
  raises "KeyError"%string
    (handle_scheduler_request
       (Crawl.fetching Crawl.golang_guarded (VExc Crawl.timeout)
                       Crawl.failing_functions)
       [calm; calm] (Crawl.start [Crawl.base_middleware "A"])).
Proof.
  split; [reflexivity|]. split; [|split].
  - apply (proj1 (user_exception_ends_the_loop Crawl.unimplemented_spider
             (Crawl.start []) calm [calm] "NotImplementedError" eq_refl)
             (VStr "golang") tt).
    + reflexivity.
    + reflexivity.
    + left. reflexivity.
    + intros w. exists w. reflexivity.
  - apply (proj1 (proj2 (user_exception_ends_the_loop
             (Crawl.fetching Crawl.golang (VResponse Crawl.page)
                             Crawl.failing_functions)
             (Crawl.start [Crawl.base_middleware "A"]) calm [calm] "KeyError"
             eq_refl)) Crawl.golang Crawl.page Crawl.page Crawl.parse).
    + split; [exists tt; reflexivity|].
      split; [intros w; reflexivity|]. split; [left; reflexivity|].
      split; [|intros w; reflexivity].
      repeat constructor.
    + left. reflexivity.
    + intros w. exists w. reflexivity.
    + repeat constructor.
    + reflexivity.
    + reflexivity.
    + intros args w. exists w. reflexivity.
  - apply (proj2 (proj2 (user_exception_ends_the_loop
             (Crawl.fetching Crawl.golang_guarded (VExc Crawl.timeout)
                             Crawl.failing_functions)
             (Crawl.start [Crawl.base_middleware "A"]) calm [calm] "KeyError"
             eq_refl)) Crawl.golang_guarded Crawl.timeout Crawl.handle_error).
    + split; [exists tt; reflexivity|].
      split; [intros w; reflexivity|]. split; [left; reflexivity|].
      split; [|intros w; reflexivity].
      repeat constructor.
    + left. reflexivity.
    + repeat constructor.
    + left. reflexivity.
    + reflexivity.
    + reflexivity.
    + reflexivity.
    + intros args w. exists w. reflexivity.
Defined.

(** C3, as stated, fails. With the chain [Cache; B], the post-response hook
    of [Cache] answers with the Response [cached]: the chain ends there, the
    hook of [B] is never called and so never sees the substituted Response,
    and [cached], with the request's metadata, goes to the callback. *)
Lemma substituted_response_ends_the_chain :
  let run :=
    handle_downloader_response
      (Crawl.fetching Crawl.golang (VResponse Crawl.page) Crawl.base_functions)
      (VRequest Crawl.golang) Crawl.page
      (Crawl.start [Crawl.cache_middleware; Crawl.base_middleware "B"]) in
  run.1.1 = Ok VNone ∧
  occurrences (is_hook_of "B") run.2 = 0%nat ∧
  run.2 = [EvCall (parse_html (VRequest Crawl.golang) Crawl.page);
           EvCall (process_response "Cache" (VRequest Crawl.golang) Crawl.page);
           EvLog Success (Crawled 200 "GET" "https://example.com/search?q=golang");
           EvCall (callback Crawl.parse
                     (set_meta (req_meta Crawl.golang) Crawl.cached))].
Proof. by vm_compute. Qed.

(** C3, amended, on the small crawl: the chain [A; Cache; B] stops at
    [Cache], and the response is delivered. *)
Lemma post_response_chain_witness :
  let c := Crawl.fetching Crawl.golang (VResponse Crawl.page)
                          Crawl.base_functions in
  let st := Crawl.start [Crawl.base_middleware "A"; Crawl.cache_middleware;
                         Crawl.base_middleware "B"] in
  truthy (VResponse Crawl.cached) = true ∧
  response_chain ([Crawl.base_middleware "A"]
                  ++ Crawl.cache_middleware :: [Crawl.base_middleware "B"])
                 (VRequest Crawl.golang) Crawl.page VNone st
  = (Ok (VResponse Crawl.cached, Crawl.cached), st,
     [EvCall (process_response "A" (VRequest Crawl.golang) Crawl.page);
      EvCall (process_response "Cache" (VRequest Crawl.golang) Crawl.page)]) ∧
  (handle_downloader_response c (VRequest Crawl.golang) Crawl.page st).1.1
  = Ok VNone.
Proof.
  intros c st.
  pose proof (post_response_chain_stops_at_first_result c
                [Crawl.base_middleware "A"] [Crawl.base_middleware "B"]
                Crawl.cache_middleware (VRequest Crawl.golang) Crawl.golang
                Crawl.page Crawl.page Crawl.cached st st st
                VNone (VResponse Crawl.cached) (VResponse Crawl.cached)
                tt tt
                [EvCall (process_response "A" (VRequest Crawl.golang) Crawl.page)]
                [EvCall (process_response "A" (VRequest Crawl.golang) Crawl.page);
                 EvCall (process_response "Cache" (VRequest Crawl.golang)
                           Crawl.page)]
                Crawl.parse) as [Hstop Hdeliver].
  split; [reflexivity|]. split.
  - apply Hstop; reflexivity.
  - rewrite Hdeliver; reflexivity.
Defined.

(** C6, as stated, fails. The only post-exception hook answers with an empty
    list, which is not a non-empty result, and the request has no error
    callback: [handled_data] is then [[]] and not [None], and the failed
    request is not recorded at all. *)
Lemma empty_hook_result_skips_error_recording :
  let run :=
    handle_downloader_output
      (Crawl.fetching Crawl.golang (VExc Crawl.timeout) Crawl.base_functions)
      (VRequest Crawl.golang) (VExc Crawl.timeout)
      (Crawl.start [Crawl.retry_middleware]) in
  truthy (VList []) = false ∧
  req_err_callback Crawl.golang = None ∧
  run.1.1 = Ok tt ∧
  run.2 = [EvCall collect_downloader_exception;
           EvCall (process_exception "Retry" (VRequest Crawl.golang)
                     Crawl.timeout)] ∧
  occurrences is_error_recording run.2 = 0%nat.
Proof. by vm_compute. Qed.

(** C6, amended, on the small crawl: two hooks that return [None]. *)
Lemma unhandled_failure_is_recorded_once_witness :
  let c := Crawl.fetching Crawl.golang (VExc Crawl.timeout)
                          Crawl.base_functions in
  let st := Crawl.start [Crawl.base_middleware "A"; Crawl.base_middleware "B"] in
  err_callback_resolvable c Crawl.golang = false ∧
  ∃ st' evs,
    handle_downloader_output c (VRequest Crawl.golang) (VExc Crawl.timeout) st
    = (Ok tt, st', evs) ∧
    occurrences is_error_recording evs = 1%nat ∧
    occurrences is_production evs = 0%nat.
Proof.
  intros c st. split; [reflexivity|].
  apply (unhandled_failure_is_recorded_once c st Crawl.golang Crawl.timeout).
  - left. reflexivity.
  - left. reflexivity.
  - split.
    + repeat constructor.
    + intros w. reflexivity.
  - reflexivity.
Defined.

(** C5 on the small crawl: the filter answers [None]. *)
Lemma rejected_request_is_dropped_witness :
  let st := Crawl.start [Crawl.base_middleware "A"] in
  truthy (VRequest Crawl.golang) = true ∧ truthy VNone = false ∧
  ∃ evs,
    request_iteration Crawl.rejecting st = (Ok tt, set_world tt st, evs) ∧
    evs = [EvSleep Suspending PROCESS_DALEY; EvCall get_request;
           EvCall (filter_request (VRequest Crawl.golang))] ∧
    occurrences is_fetch evs = 0%nat ∧
    occurrences is_pre_request_hook evs = 0%nat ∧
    occurrences is_request_consumed evs = 0%nat.
Proof.
  intros st. split; [reflexivity|]. split; [reflexivity|].
  apply (rejected_request_is_dropped Crawl.rejecting st
           (VRequest Crawl.golang) VNone tt tt); reflexivity.
Defined.

(** C4, as stated, fails. [Novel] derives from [Book], which declares the
    field "title"; the copy of a novel that has a title and an author holds
    the author only: [get_fields] goes through the namespace of [Novel]
    itself, where "title" is not bound. *)
Lemma inherited_field_is_not_copied :
  let run := handle_spider_item Crawl.novel (Crawl.start []) in
  let copy := copy_item Crawl.novel in
  run.1.1 = Ok (Some copy) ∧
  spec_declared_fields Crawl.Novel = ["author"; "title"; "price"]%string ∧
  item_data Crawl.novel !! "title"%string = Some (FStr "Rocq") ∧
  map_to_list (item_data copy) = [("author"%string, FStr "Coquand")] ∧
  item_data copy !! "title"%string = None.
Proof. by vm_compute. Qed.

(** C4, amended, on the small crawl: the copy of [book] has the keys "title"
    and "price" and nothing of what user code set beside them. *)
Lemma item_copy_has_declared_fields_witness :
  let st := Crawl.start [Crawl.base_middleware "A"] in
  let copy := copy_item Crawl.book in
  item_truthy Crawl.book = true ∧
  handle_spider_item Crawl.book st
  = (Ok (Some copy), st, [EvCall (process_item "A" Crawl.book)]) ∧
  item_cls copy = Crawl.Book ∧
  item_attrs copy = ∅ ∧
  item_data copy !! "title"%string = Some (FStr "Rocq") ∧
  item_data copy !! "price"%string = Some FNone ∧
  item_data copy !! "scratch"%string = None.
Proof.
  intros st copy. split; [reflexivity|].
  destruct (item_copy_has_declared_fields st st Crawl.book Crawl.book
              [EvCall (process_item "A" Crawl.book)])
    as (Hrun & Hcls & Hattrs & Hfields & Hothers).
  - reflexivity.
  - reflexivity.
  - apply (bool_decide_unpack _). by vm_compute.
  - split; [exact Hrun|]. split; [exact Hcls|]. split; [exact Hattrs|].
    split; [|split].
    + apply (Hfields "title"%string). apply (bool_decide_unpack _). by vm_compute.
    + apply (Hfields "price"%string). apply (bool_decide_unpack _). by vm_compute.
    + apply (Hothers "scratch"%string). apply (bool_decide_unpack _).
      by vm_compute.
Defined.

(** C7, as stated, fails. One SIGINT arrives while the loop is suspended in
    the poll delay of its first pass, after the test of the flag: the handler
    sets the graceful flag, and the pass goes on. The word loop pops a word
    and pushes its request, the request loop pops a request, fetches it and
    delivers the response, all after the signal; each loop returns at its
    next test. *)
Lemma pop_follows_signal_in_poll_delay :
  let c := Crawl.fetching Crawl.golang (VResponse Crawl.page)
                          Crawl.base_functions in
  let words :=
    handle_scheduler_word c [Arrivals 1 0; calm; calm] (Crawl.start []) in
  let requests :=
    handle_scheduler_request c [Arrivals 1 0; calm; calm] (Crawl.start []) in
  (words.1.1 = Ok Returned ∧
   take 3 words.2 = [EvSleep Suspending PROCESS_DALEY;
                     EvLog Debug (ReceivedSignal false);
                     EvCall get_word] ∧
   occurrences is_signal words.2 = 1%nat ∧
   no_pop_after_signal words.2 = false) ∧
  (requests.1.1 = Ok Returned ∧
   take 3 requests.2 = [EvSleep Suspending PROCESS_DALEY;
                        EvLog Debug (ReceivedSignal false);
                        EvCall get_request] ∧
   occurrences is_signal requests.2 = 1%nat ∧
   occurrences is_fetch (drop 2 requests.2) = 1%nat ∧
   no_pop_after_signal requests.2 = false).
Proof. by vm_compute. Qed.

(** C7, amended, on the small crawl: a loop entered after [close_crawler]
    returns at once, and a SIGINT during the poll delay of the first pass of
    the word loop is followed by the pop of that pass and ends the loop after
    it. *)
Lemma loops_return_once_shutting_down_witness :
  let c := Crawl.fetching Crawl.golang (VResponse Crawl.page)
                          Crawl.base_functions in
  let closed := close_crawler "Finished" false (Crawl.start []) in
  shutting_down closed = true ∧
  handle_scheduler_word c [calm; calm] closed = (Ok Returned, closed, []) ∧
  handle_scheduler_request c [calm; calm] closed = (Ok Returned, closed, []) ∧
  ∃ st'' logs1 logs2 work,
    handle_scheduler_word c [Arrivals 1 0; calm; calm] (Crawl.start [])
    = (Ok Returned, st'',
       EvSleep Suspending PROCESS_DALEY
         :: logs1 ++ (EvCall get_word :: work) ++ logs2) ∧
    length logs1 = 1%nat ∧ length logs2 = 0%nat ∧
    shutting_down st'' = true.
Proof.
  intros c closed. split; [reflexivity|].
  destruct (loops_return_once_shutting_down c closed) as (Hcheck & _ & _).
  destruct (loops_return_once_shutting_down c (Crawl.start []))
    as (_ & _ & Hsignal).
  split; [by apply Hcheck|]. split; [by apply Hcheck|].
  destruct (word_iteration c (Crawl.start [])) as [[r st'] evs] eqn:Hrun.
  assert (Hr : r = Ok tt) by (by vm_compute in Hrun; injection Hrun as <- _ _).
  subst r.
  assert (Hpos : (0 < in_poll_delay (Arrivals 1 0)
                      + in_flight (Arrivals 1 0))%nat) by (simpl; lia).
  destruct (proj1 (Hsignal (Arrivals 1 0) [calm; calm] st' evs
                     eq_refl eq_refl Hpos) eq_refl)
    as (st'' & logs1 & logs2 & work & _ & Hloop & _ & Hlen1 & _ & Hlen2 & Hs
        & _).
  by exists st'', logs1, logs2, work.
Defined.

(** C8 on the small crawl. The first middleware of the chain has a hook that
    is a plain method, as the hooks of [BaseMiddleware] and
    [SetDefaultMiddleware] are, and the hook raises [AttributeError]. The call
    of the hook is evaluated before [__run_task] is entered: at each of the
    four extension points the exception is not caught and not logged, the
    hook of the next middleware [B] at that point is not called, and the
    request loop, followed for three passes, ends in the first one by
    raising. *)
Lemma plain_hook_exception_ends_request_loop :
  let run p data functions :=
    handle_scheduler_request
      (Crawl.fetching Crawl.golang data functions) [calm; calm; calm]
      (Crawl.start [Crawl.faulty_middleware p false; Crawl.base_middleware "B"]) in
  let pre := run Crawl.PreRequest (VResponse Crawl.page) Crawl.base_functions in
  let post := run Crawl.PostResponse (VResponse Crawl.page) Crawl.base_functions in
  let failed := run Crawl.PostException (VExc Crawl.timeout) Crawl.base_functions in
  let item := run Crawl.PostItem (VResponse Crawl.page) Crawl.item_functions in
  (pre.1.1 = Raise AttributeError ∧
   occurrences is_error_log pre.2 = 0%nat ∧
   occurrences (is_hook_of "B") pre.2 = 0%nat ∧
   occurrences is_fetch pre.2 = 0%nat) ∧
  (post.1.1 = Raise AttributeError ∧
   occurrences is_error_log post.2 = 0%nat ∧
   occurrences (is_hook_of "B") post.2 = 1%nat ∧
   occurrences is_fetch post.2 = 1%nat) ∧
  (failed.1.1 = Raise AttributeError ∧
   occurrences is_error_log failed.2 = 0%nat ∧
   occurrences (is_hook_of "B") failed.2 = 1%nat ∧
   occurrences is_error_recording failed.2 = 0%nat) ∧
  (item.1.1 = Raise AttributeError ∧
   occurrences is_error_log item.2 = 0%nat ∧
   occurrences (is_hook_of "B") item.2 = 2%nat ∧
   occurrences is_fetch item.2 = 1%nat).
Proof. by vm_compute. Qed.

(** The same hooks written as coroutine functions: the exception is caught
    inside [__run_task] and logged once, the hook of [B] at the same point
    runs next, and the pass completes. *)
Lemma coroutine_hook_exception_is_caught :
  let run p data functions :=
    handle_scheduler_request
      (Crawl.fetching Crawl.golang data functions) [calm]
      (Crawl.start [Crawl.faulty_middleware p true; Crawl.base_middleware "B"]) in
  let pre := run Crawl.PreRequest (VResponse Crawl.page) Crawl.base_functions in
  let post := run Crawl.PostResponse (VResponse Crawl.page) Crawl.base_functions in
  let failed := run Crawl.PostException (VExc Crawl.timeout) Crawl.base_functions in
  let item := run Crawl.PostItem (VResponse Crawl.page) Crawl.item_functions in
  (pre.1.1 = Ok Running ∧
   occurrences is_error_log pre.2 = 1%nat ∧
   occurrences (is_hook_of "B") pre.2 = 2%nat ∧
   occurrences is_fetch pre.2 = 1%nat) ∧
  (post.1.1 = Ok Running ∧
   occurrences is_error_log post.2 = 1%nat ∧
   occurrences (is_hook_of "B") post.2 = 2%nat) ∧
  (failed.1.1 = Ok Running ∧
   occurrences is_error_log failed.2 = 1%nat ∧
   occurrences (is_hook_of "B") failed.2 = 2%nat ∧
   occurrences is_error_recording failed.2 = 1%nat) ∧
  (item.1.1 = Ok Running ∧
   occurrences is_error_log item.2 = 1%nat ∧
   occurrences (is_hook_of "B") item.2 = 3%nat).
Proof. by vm_compute. Qed.

(** C9 on the small crawl. In a pass of the request loop for an accepted
    request, the delay before the fetch is a [time.sleep]: it does not give
    the thread back, and in every run of the event loop that executes it the
    next step is the fetch of the same loop, whatever another loop has
    pending. The poll delay at the top of the pass, an awaited
    [asyncio.sleep], lets the other loop run. *)
Lemma download_delay_blocks_the_event_loop :
  let run :=
    request_iteration
      (Crawl.fetching Crawl.golang (VResponse Crawl.page) Crawl.base_functions)
      (Crawl.start []) in
  let delay := EvSleep Blocking DOWNLOAD_DALEY_jittered in
  let fetch := EvCall (download (VRequest Crawl.golang)) in
  run.1.1 = Ok tt ∧
  take 6 run.2
  = [EvSleep Suspending PROCESS_DALEY; EvCall get_request;
     EvCall (filter_request (VRequest Crawl.golang));
     EvCall (collect_request (VRequest Crawl.golang)); delay; fetch] ∧
  yields delay = false ∧
  (∀ holder other l,
     schedule holder (drop 4 run.2) other ((ThisLoop, delay) :: l) →
     ∃ l', l = (ThisLoop, fetch) :: l') ∧
  (∀ ev other,
     ∃ l, schedule None run.2 (ev :: other)
            ((ThisLoop, EvSleep Suspending PROCESS_DALEY)
             :: (OtherLoop, ev) :: l)).
Proof.
  intros run delay fetch.
  split; [by vm_compute|]. split; [by vm_compute|]. split; [done|]. split.
  - intros holder other l H.
    assert (Hrun : ∃ rest, drop 4 run.2 = delay :: fetch :: rest)
      by (eexists; by vm_compute).
    destruct Hrun as [rest Hrun]. rewrite Hrun in H.
    by eapply blocking_sleep_keeps_the_thread.
  - intros ev other.
    assert (Hrun : ∃ rest, run.2 = EvSleep Suspending PROCESS_DALEY :: rest)
      by (eexists; by vm_compute).
    destruct Hrun as [rest ->].
    apply suspending_sleep_lets_the_other_run.
Qed.

(* ===================================================================== *)
(** ** Further properties: the middlewares and the spider *)
(* ===================================================================== *)

(** X1: [SetDefaultMiddleware.process_request] fills only what is missing.
    A timeout, headers or metadata bag the request already carries is kept,
    the method, URL and callbacks are not touched, the metadata bag is a
    dict afterwards, and running the hook a second time changes nothing. *)
Theorem set_default_fills_only_what_is_missing (s : SetDefault.settings)
    (r : SetDefault.request_object) :
  let r' := SetDefault.process_request s r in
  SetDefault.process_request s r' = r' ∧
  (∀ t, SetDefault.ro_timeout r = Some t → SetDefault.ro_timeout r' = Some t) ∧
  (∀ h, SetDefault.ro_headers r = Some h → SetDefault.ro_headers r' = Some h) ∧
  (∀ m, req_meta (SetDefault.ro_request r) = Some m →
        req_meta (SetDefault.ro_request r') = Some m) ∧
  (SetDefault.ro_timeout r = None →
   SetDefault.ro_timeout r' = SetDefault.DEFAULT_TIMEOUT s) ∧
  (SetDefault.ro_headers r = None →
   SetDefault.ro_headers r' = SetDefault.DEFAULT_HEADERS s) ∧
  req_meta (SetDefault.ro_request r') ≠ None ∧
  req_method (SetDefault.ro_request r') = req_method (SetDefault.ro_request r) ∧
  req_url (SetDefault.ro_request r') = req_url (SetDefault.ro_request r) ∧
  req_callback (SetDefault.ro_request r')
  = req_callback (SetDefault.ro_request r) ∧
  req_err_callback (SetDefault.ro_request r')
  = req_err_callback (SetDefault.ro_request r).
Proof.
  destruct s as [dt dh], r as [[m u meta cb ecb] t h].
  destruct t, h, meta, dt, dh; cbn; repeat split; congruence.
Qed.

(** X2: [Spider.__handle__], for a request that has a handling mode, never
    raises and returns the response it was given, status, body and metadata
    unchanged. It attaches the json view only in mode "json" and the
    selector only in mode "selector"; when the body is not valid JSON the
    exception of [loads] is logged and the response is returned as it
    was. *)
Theorem handle_returns_the_response {json selector : Type}
    (loads : string → outcome json) (Selector : string → selector)
    (way : string) (r : SpiderHandle.parsed_response) :
  ∃ r' logged,
    SpiderHandle.handle loads Selector (Some way) r = (Ok r', logged) ∧
    SpiderHandle.p_response r' = SpiderHandle.p_response r ∧
    (way ≠ "json"%string →
     SpiderHandle.p_json r' = SpiderHandle.p_json r ∧ logged = []) ∧
    (way ≠ "selector"%string →
     SpiderHandle.p_selector r' = SpiderHandle.p_selector r) ∧
    (∀ e, way = "json"%string →
          loads (resp_text (SpiderHandle.p_response r)) = Raise e →
          r' = r ∧ logged = [e]).
Proof.
  unfold SpiderHandle.handle.
  destruct (String.eqb_spec way "json") as [->|Hj].
  - destruct (loads _) as [j|e] eqn:Hl.
    + eexists _, _. split; [done|]. cbn.
      split; [done|]. split; [done|]. split; [done|]. by intros e _ ?.
    + eexists _, _. split; [done|].
      split; [done|]. split; [done|]. split; [done|].
      by intros e' _ [= ->].
  - destruct (String.eqb_spec way "selector") as [->|Hs].
    + eexists _, _. split; [done|]. cbn.
      split; [done|]. split; [done|]. split; [done|]. by intros e ? _.
    + eexists _, _. split; [done|].
      split; [done|]. split; [done|]. split; [done|]. by intros e ? _.
Qed.

(* ===================================================================== *)
(** ** Further properties: the Redis connector *)
(* ===================================================================== *)

(** X3: once [create_redis_pool] has succeeded the connector holds a pool,
    and any further call, with any argument, returns at once without
    connecting. This is so even after [close_redis_pool], which closes the
    pool but keeps the reference: a closed connector is not reconnected. *)
Theorem create_redis_pool_connects_once {pool : Type}
    (create_pool : option string → outcome pool)
    (u u' : option string) (c c' : RedisConnector.connector)
    (acts : list RedisConnector.action) :
  RedisConnector.create_redis_pool create_pool u c = (Ok tt, c', acts) →
  RedisConnector.redis_pool c' ≠ None ∧
  RedisConnector.create_redis_pool create_pool u' c' = (Ok tt, c', []) ∧
  (RedisConnector.close_redis_pool c').1 = c' ∧
  RedisConnector.create_redis_pool create_pool u'
    (RedisConnector.close_redis_pool c').1 = (Ok tt, c', []).
Proof.
  intros H.
  assert (Hp : ∃ p, RedisConnector.redis_pool c' = Some p).
  { unfold RedisConnector.create_redis_pool in H.
    destruct (RedisConnector.redis_pool c) as [p|] eqn:Hc.
    - injection H as <- _. by exists p.
    - destruct (RedisConnector.resolve_url u c) as [url|e]; [|done].
      destruct (negb _); [done|].
      destruct (create_pool _) as [p|e]; [|done].
      injection H as <- _. by exists p. }
  destruct Hp as [p Hp].
  assert (Hclose : (RedisConnector.close_redis_pool c').1 = c').
  { unfold RedisConnector.close_redis_pool. by rewrite Hp. }
  split; [by rewrite Hp|].
  assert (Hagain : RedisConnector.create_redis_pool create_pool u' c'
                   = (Ok tt, c', [])).
  { unfold RedisConnector.create_redis_pool. by rewrite Hp. }
  split; [done|]. split; [done|]. by rewrite Hclose.
Qed.

(** X4: [create_redis_pool] connects at most once per call and always to
    [settings.REDIS_URL], whatever URL it is given as argument. When it
    fails the connector is unchanged, and either [aioredis.create_pool]
    raised, or neither the argument nor the settings give a URL and the call
    dies with [AttributeError] on [os.environ.login_get] before any
    connection: the [ValueError] of the source is never raised. *)
Theorem create_redis_pool_uses_the_settings_url {pool : Type}
    (create_pool : option string → outcome pool)
    (u : option string) (c c' : RedisConnector.connector)
    (r : outcome unit) (acts : list RedisConnector.action) :
  RedisConnector.create_redis_pool create_pool u c = (r, c', acts) →
  (∀ url, RedisConnector.Connect url ∈ acts →
          url = RedisConnector.REDIS_URL c) ∧
  (length (List.filter RedisConnector.is_connect acts) ≤ 1)%nat ∧
  (∀ e, r = Raise e →
        c' = c ∧
        ((e = AttributeError ∧ acts = [] ∧
          RedisConnector.url_truthy u = false ∧
          RedisConnector.url_truthy (RedisConnector.REDIS_URL c) = false) ∨
         create_pool (RedisConnector.REDIS_URL c) = Raise e)).
Proof.
  unfold RedisConnector.create_redis_pool, RedisConnector.resolve_url.
  intros H.
  destruct (RedisConnector.redis_pool c) as [p|].
  { injection H as <- <- <-. split; [by intros ? ?%elem_of_nil|].
    split; [simpl; lia|done]. }
  destruct (RedisConnector.url_truthy u) eqn:Hu.
  - rewrite Hu in H. simpl in H.
    destruct (create_pool _) as [p|e] eqn:Hc; injection H as <- <- <-.
    + split; [|split; [simpl; lia|done]].
      intros url Hin. set_unfold in Hin. intuition congruence.
    + split; [|split; [simpl; lia|]].
      * intros url Hin. set_unfold in Hin. intuition congruence.
      * intros e' [= <-]. split; [done|]. by right.
  - destruct (RedisConnector.url_truthy (RedisConnector.REDIS_URL c)) eqn:Hs.
    + rewrite Hs in H. simpl in H.
      destruct (create_pool _) as [p|e] eqn:Hc; injection H as <- <- <-.
      * split; [|split; [simpl; lia|done]].
        intros url Hin. set_unfold in Hin. intuition congruence.
      * split; [|split; [simpl; lia|]].
        -- intros url Hin. set_unfold in Hin. intuition congruence.
        -- intros e' [= <-]. split; [done|]. by right.
    + injection H as <- <- <-. split; [by intros ? ?%elem_of_nil|].
      split; [simpl; lia|]. intros e' [= <-]. split; [done|]. by left.
Qed.

(* ===================================================================== *)
(** ** Further properties: the collaborators chosen at startup *)
(* ===================================================================== *)

Section InitializeProperties.

Context {pool : Type}.
Context (scheduler_pool : outcome pool)
        (filter_pool : option pool → outcome (option pool)).

#[local] Abbreviation parts := (@Initialize.parts pool).

(** X5: when [__initialize] gets through the choice of collaborators, the
    downloader, the scheduler and the filter are all present, a collaborator
    given by the caller is the one kept, and the cleanup callables
    registered before are still registered, first and in their order. *)
Theorem initialize_fills_missing_collaborators (REDIS_URL : option string)
    (DISABLE_REDIS : bool) (p p' : parts) :
  Initialize.initialize_collaborators scheduler_pool filter_pool
    REDIS_URL DISABLE_REDIS p = (Ok tt, p') →
  is_Some (Initialize.downloader p') ∧
  is_Some (Initialize.scheduler p') ∧
  is_Some (Initialize.filters p') ∧
  (∀ d, Initialize.downloader p = Some d → Initialize.downloader p' = Some d) ∧
  (∀ s, Initialize.scheduler p = Some s → Initialize.scheduler p' = Some s) ∧
  (∀ f, Initialize.filters p = Some f → Initialize.filters p' = Some f) ∧
  Initialize.cleanup_tasks p `prefix_of` Initialize.cleanup_tasks p'.
Proof.
  unfold Initialize.initialize_collaborators, Initialize.choose_downloader,
    Initialize.choose_scheduler, Initialize.choose_filters,
    Initialize.on_cleanup.
  destruct p as [d s f cl].
  destruct (Initialize.redis_enabled REDIS_URL DISABLE_REDIS);
    destruct d, s, f; cbn;
    repeat match goal with
           | |- context [match scheduler_pool with _ => _ end] =>
               destruct scheduler_pool
           | |- context [match Initialize.redis_pool_of ?x with _ => _ end] =>
               destruct (Initialize.redis_pool_of x)
           | |- context [match filter_pool ?x with _ => _ end] =>
               destruct (filter_pool x)
           end; cbn;
    intros [= <-] || (intros; discriminate);
    cbn; (split; [by eexists|]); (split; [by eexists|]);
    (split; [by eexists|]); (split; [congruence|]);
    (split; [congruence|]); (split; [congruence|]);
    rewrite <- ?app_assoc; first [done | by eexists].
Qed.

(** X6: without a REDIS_URL, or with DISABLE_REDIS set, the choice of
    collaborators cannot fail and connects to nothing: a missing scheduler
    and a missing filter become the in-memory ones, and the only cleanup
    callable added is [session.close], when the downloader was missing. *)
Theorem initialize_without_redis_uses_memory (REDIS_URL : option string)
    (DISABLE_REDIS : bool) (p : parts) :
  Initialize.redis_enabled REDIS_URL DISABLE_REDIS = false →
  ∃ p',
    Initialize.initialize_collaborators scheduler_pool filter_pool
      REDIS_URL DISABLE_REDIS p = (Ok tt, p') ∧
    Initialize.downloader p'
    = Some (default Initialize.AioDownloader (Initialize.downloader p)) ∧
    Initialize.scheduler p'
    = Some (default Initialize.MemoryScheduler (Initialize.scheduler p)) ∧
    Initialize.filters p'
    = Some (default Initialize.MemoryFilter (Initialize.filters p)) ∧
    Initialize.cleanup_tasks p'
    = Initialize.cleanup_tasks p
      ++ match Initialize.downloader p with
         | None => [Initialize.session_close]
         | Some _ => []
         end.
Proof.
  intros Hoff.
  unfold Initialize.initialize_collaborators, Initialize.choose_downloader,
    Initialize.choose_scheduler, Initialize.choose_filters,
    Initialize.on_cleanup.
  rewrite Hoff. destruct p as [[d|] [s|] [f|] cl]; cbn;
    eexists; (split; [reflexivity|]); cbn; by rewrite ?app_nil_r.
Qed.

(** X7: with Redis enabled and neither scheduler nor filter given, the
    filter is built on the pool of the new scheduler and is not asked to
    connect: both hold the same pool, and that pool is closed once at
    cleanup, by [scheduler.close_redis_pool] alone. *)
Theorem initialize_shares_the_scheduler_pool (REDIS_URL : option string)
    (DISABLE_REDIS : bool) (p : parts) (rp : pool) :
  Initialize.redis_enabled REDIS_URL DISABLE_REDIS = true →
  Initialize.scheduler p = None →
  Initialize.filters p = None →
  scheduler_pool = Ok rp →
  ∃ p',
    Initialize.initialize_collaborators scheduler_pool filter_pool
      REDIS_URL DISABLE_REDIS p = (Ok tt, p') ∧
    Initialize.scheduler p' = Some (Initialize.RedisScheduler (Some rp)) ∧
    Initialize.filters p' = Some (Initialize.RedisFilter (Some rp)) ∧
    Initialize.cleanup_tasks p'
    = Initialize.cleanup_tasks p
      ++ match Initialize.downloader p with
         | None => [Initialize.session_close]
         | Some _ => []
         end
      ++ [Initialize.scheduler_close_redis_pool].
Proof.
  intros Hon Hs Hf Hpool.
  unfold Initialize.initialize_collaborators, Initialize.choose_downloader,
    Initialize.choose_scheduler, Initialize.choose_filters,
    Initialize.on_cleanup.
  rewrite Hon. destruct p as [[d|] s f cl]; cbn in *; subst s f;
    cbn; rewrite Hpool; cbn;
    eexists; (split; [reflexivity|]); cbn; by rewrite <- ?app_assoc.
Qed.

End InitializeProperties.

(** X5, X6 and X7 on a start with nothing given. *)
Lemma initialize_fills_missing_collaborators_witness :
  let p := Initialize.Parts (pool:=nat) None None None [Initialize.registered 0] in
  ∃ p',
    Initialize.initialize_collaborators (Ok 7%nat) (λ rp, Ok rp)
      (Some "redis://localhost"%string) false p = (Ok tt, p') ∧
    is_Some (Initialize.filters p') ∧
    Initialize.cleanup_tasks p `prefix_of` Initialize.cleanup_tasks p'.
Proof.
  intros p. eexists. split; [reflexivity|].
  destruct (initialize_fills_missing_collaborators (Ok 7%nat) (λ rp, Ok rp)
              (Some "redis://localhost"%string) false p _ eq_refl)
    as (_ & _ & Hf & _ & _ & _ & Hc).
  by split.
Defined.

Lemma initialize_without_redis_uses_memory_witness :
  let p := Initialize.Parts (pool:=nat) None None None [] in
  Initialize.redis_enabled (Some "redis://localhost"%string) true = false ∧
  ∃ p',
    Initialize.initialize_collaborators (Raise "ConnectionError"%string)
      (λ _, Raise "ConnectionError"%string)
      (Some "redis://localhost"%string) true p = (Ok tt, p') ∧
    Initialize.scheduler p' = Some Initialize.MemoryScheduler ∧
    Initialize.filters p' = Some Initialize.MemoryFilter.
Proof.
  intros p. split; [reflexivity|].
  destruct (initialize_without_redis_uses_memory
              (Raise "ConnectionError"%string)
              (λ _ : option nat, Raise "ConnectionError"%string)
              (Some "redis://localhost"%string) true p eq_refl)
    as (p' & H & _ & Hs & Hf & _).
  by exists p'.
Defined.

Lemma initialize_shares_the_scheduler_pool_witness :
  let p := Initialize.Parts (pool:=nat) (Some Initialize.given_downloader)
                            None None [] in
  ∃ p',
    Initialize.initialize_collaborators (Ok 7%nat)
      (λ _, Raise "ConnectionError"%string)
      (Some "redis://localhost"%string) false p = (Ok tt, p') ∧
    Initialize.filters p' = Some (Initialize.RedisFilter (Some 7%nat)) ∧
    Initialize.cleanup_tasks p' = [Initialize.scheduler_close_redis_pool].
Proof.
  intros p.
  destruct (initialize_shares_the_scheduler_pool (Ok 7%nat)
              (λ _ : option nat, Raise "ConnectionError"%string)
              (Some "redis://localhost"%string) false p 7%nat
              eq_refl eq_refl eq_refl eq_refl)
    as (p' & H & _ & Hf & Hc).
  by exists p'.
Defined.

(** X3 and X4 on a connector without a pool. *)
Lemma create_redis_pool_connects_once_witness :
  let create_pool := λ _ : option string, @Ok nat 7%nat in
  let c := RedisConnector.Connector (Some "redis://localhost"%string) None in
  ∃ c' acts,
    RedisConnector.create_redis_pool create_pool None c = (Ok tt, c', acts) ∧
    RedisConnector.create_redis_pool create_pool (Some "redis://other"%string)
      (RedisConnector.close_redis_pool c').1 = (Ok tt, c', []).
Proof.
  intros create_pool c. eexists _, _. split; [reflexivity|].
  by destruct (create_redis_pool_connects_once create_pool None
                 (Some "redis://other"%string) c _ _ eq_refl)
    as (_ & _ & _ & H).
Defined.

Lemma create_redis_pool_uses_the_settings_url_witness :
  let create_pool := λ u : option string,
    match u with Some _ => @Ok nat 7%nat | None => Raise "TypeError"%string end in
  let c := RedisConnector.Connector (pool:=nat) None None in
  (∃ c' acts,
     RedisConnector.create_redis_pool create_pool
       (Some "redis://localhost"%string) c
     = (Raise "TypeError"%string, c', acts) ∧
     c' = c ∧ RedisConnector.Connect None ∈ acts) ∧
  (∃ c' acts,
     RedisConnector.create_redis_pool create_pool None c
     = (Raise AttributeError, c', acts) ∧ acts = []).
Proof.
  intros create_pool c. split.
  - eexists _, _. split; [reflexivity|].
    destruct (create_redis_pool_uses_the_settings_url create_pool
                (Some "redis://localhost"%string) c _ _ _ eq_refl)
      as (_ & _ & H).
    destruct (H _ eq_refl) as [Hc _]. split; [exact Hc|].
    apply list_elem_of_further, list_elem_of_here.
  - eexists _, _. split; [reflexivity|].
    destruct (create_redis_pool_uses_the_settings_url create_pool None c
                _ _ _ eq_refl) as (_ & _ & H).
    destruct (H _ eq_refl) as [_ [(_ & Ha & _)|Hc]]; [exact Ha|discriminate].
Defined.

(* ===================================================================== *)
(** ** Further properties: the chain, the flags and the item copy *)
(* ===================================================================== *)

(** X8: a class listed in MIDDLEWARES enters the chain only if it is
    [BaseMiddleware] or one of its ancestors, since the test made is
    [issubclass(BaseMiddleware, mw)]. Every other class of the chain comes
    from DEFAULT_MIDDLEWARES under a name of [middlewares.__all__]: a class
    of the user's own that derives from [BaseMiddleware] never enters the
    chain. *)
Theorem chain_admits_only_ancestors (s : settings) (mw : pyclass) :
  mw ∈ initialize_middlewares s →
  cls_name mw = "BaseMiddleware"%string ∨ cls_name mw = "object"%string ∨
  ∃ mw_name key, (mw_name, key) ∈ DEFAULT_MIDDLEWARES s ∧
                 mw_name ∈ middlewares_all ∧
                 mw = getattr_middlewares mw_name.
Proof.
  unfold initialize_middlewares. intros Hin.
  apply list_elem_of_fmap in Hin as ([c key] & -> & Hin).
  rewrite sorted_perm in Hin. apply elem_of_app in Hin as [Hd|Hc].
  - apply default_entries_spec in Hd as (n & Hn & _ & Hall & ->).
    right. right. by exists n, key.
  - apply configured_entries_spec in Hc as (_ & _ & Hsub).
    unfold issubclass in Hsub. apply bool_decide_eq_true in Hsub.
    simpl in *. set_unfold in Hsub. intuition.
Qed.

Lemma chain_admits_only_ancestors_witness :
  let mine := PyClass "MyMiddleware"
                      ["MyMiddleware"; "BaseMiddleware"; "object"]%string in
  let s := Settings [] [(mine, 500); (BaseMiddleware, 10)] in
  initialize_middlewares s = [BaseMiddleware] ∧
  (BaseMiddleware ∈ initialize_middlewares s →
   cls_name BaseMiddleware = "BaseMiddleware"%string ∨
   cls_name BaseMiddleware = "object"%string ∨
   ∃ mw_name key, (mw_name, key) ∈ DEFAULT_MIDDLEWARES s ∧
                  mw_name ∈ middlewares_all ∧
                  BaseMiddleware = getattr_middlewares mw_name).
Proof.
  intros mine s. split; [reflexivity|].
  apply (chain_admits_only_ancestors s BaseMiddleware).
Defined.

Section ControlProperties.

Context {W : Type}.

#[local] Abbreviation engine := (engine W).

Lemma apply_control_frame (c : control) (st : engine) :
  (shutting_down st = true → shutting_down (apply_control c st) = true) ∧
  (shutdown st = true → shutdown (apply_control c st) = true) ∧
  middlewares (apply_control c st) = middlewares st ∧
  jobs (apply_control c st) = jobs st ∧
  world (apply_control c st) = world st.
Proof.
  destruct c as [reason [|]|]; cbn; try done.
  unfold shutdown_signal. cbn.
  destruct (signal_int_count st) as [|[|n]]; cbn; done.
Qed.

(** X9: whatever sequence of [close_crawler] calls and SIGINTs reaches the
    engine, a shutdown flag that is set is never cleared, and the middleware
    chain, the pending jobs and the world are not touched. *)
Theorem shutdown_flags_are_never_cleared (cs : list control) (st : engine) :
  (shutting_down st = true → shutting_down (apply_controls cs st) = true) ∧
  (shutdown st = true → shutdown (apply_controls cs st) = true) ∧
  middlewares (apply_controls cs st) = middlewares st ∧
  jobs (apply_controls cs st) = jobs st ∧
  world (apply_controls cs st) = world st.
Proof.
  revert st. induction cs as [|c cs IH]; intros st; [done|].
  change (apply_controls (c :: cs) st)
    with (apply_controls cs (apply_control c st)).
  destruct (apply_control_frame c st) as (H1 & H2 & H3 & H4 & H5).
  destruct (IH (apply_control c st)) as (G1 & G2 & G3 & G4 & G5).
  split; [by intros ?; apply G1, H1|]. split; [by intros ?; apply G2, H2|].
  split; [congruence|]. split; congruence.
Qed.

Lemma signals_after_the_first (n : nat) (st : engine) :
  signal_int_count st ≠ 0%nat →
  let st' := apply_controls (replicate n Sigint) st in
  signal_int_count st' = (n + signal_int_count st)%nat ∧
  shutting_down st' = shutting_down st ∧
  shutdown st' = (match n with O => shutdown st | S _ => true end) ∧
  finish_reason st'
  = (match n with O => finish_reason st | S _ => "Received SIGNAL INT"%string end).
Proof.
  revert st. induction n as [|n IH]; intros st Hc; [done|].
  cbn [replicate apply_controls fold_left].
  change (fold_left _ _ ?x) with (apply_controls (replicate n Sigint) x).
  assert (Hstep : ∃ st1, apply_control Sigint st = st1 ∧
            signal_int_count st1 = S (signal_int_count st) ∧
            shutting_down st1 = shutting_down st ∧ shutdown st1 = true ∧
            finish_reason st1 = "Received SIGNAL INT"%string).
  { eexists. split; [reflexivity|]. cbn. unfold shutdown_signal. cbn.
    destruct (signal_int_count st) as [|m]; [done|]. by destruct m. }
  destruct Hstep as (st1 & -> & H1 & H2 & H3 & H4).
  destruct (IH st1) as (G1 & G2 & G3 & G4); [lia|].
  cbn zeta. rewrite G1, G2, G3, G4, H1, H2, H3, H4.
  split; [lia|]. by destruct n.
Qed.

(** X10: the two-stage shutdown by signal. On an engine that has received no
    SIGINT, the first SIGINT sets the graceful flag and leaves the forced
    flag as it was; every later SIGINT sets the forced flag; the handler
    counts the signals and records the reason "Received SIGNAL INT". *)
Theorem second_sigint_forces (n : nat) (st : engine) :
  signal_int_count st = 0%nat →
  let st' := apply_controls (replicate (S n) Sigint) st in
  shutting_down st' = true ∧
  shutdown st' = (match n with O => shutdown st | S _ => true end) ∧
  signal_int_count st' = S n ∧
  finish_reason st' = "Received SIGNAL INT"%string.
Proof.
  intros Hc. cbn [replicate apply_controls fold_left].
  change (fold_left _ _ ?x) with (apply_controls (replicate n Sigint) x).
  assert (Hstep : ∃ st1, apply_control Sigint st = st1 ∧
            signal_int_count st1 = 1%nat ∧
            shutting_down st1 = true ∧ shutdown st1 = shutdown st ∧
            finish_reason st1 = "Received SIGNAL INT"%string).
  { eexists. split; [reflexivity|]. cbn. unfold shutdown_signal. cbn.
    by rewrite Hc. }
  destruct Hstep as (st1 & -> & H1 & H2 & H3 & H4).
  destruct (signals_after_the_first n st1) as (G1 & G2 & G3 & G4); [lia|].
  cbn zeta. rewrite G1, G2, G3, G4, H1, H2, H3, H4.
  split; [done|]. split; [by destruct n|]. split; [lia|]. by destruct n.
Qed.

End ControlProperties.

Lemma shutdown_flags_are_never_cleared_witness :
  let st := close_crawler "Finished" false (Crawl.start []) in
  let cs := [Close "again" true; Sigint; Close "later" false] in
  shutting_down st = true ∧ shutting_down (apply_controls cs st) = true.
Proof.
  intros st cs. split; [reflexivity|].
  apply (proj1 (shutdown_flags_are_never_cleared cs st)). reflexivity.
Defined.

Lemma second_sigint_forces_witness :
  let st' := apply_controls (replicate 2 Sigint) (Crawl.start []) in
  signal_int_count (Crawl.start []) = 0%nat ∧
  shutting_down st' = true ∧ shutdown st' = true ∧
  signal_int_count st' = 2%nat.
Proof.
  intros st'. split; [reflexivity|].
  destruct (second_sigint_forces 1 (Crawl.start []) eq_refl)
    as (H1 & H2 & H3 & _).
  by repeat split.
Defined.

(** X11: the copy handed on depends on the declared fields only. Two items
    of the same class that agree on every declared field have the same copy,
    whatever other keys and attributes were set on either of them. *)
Theorem copy_depends_on_declared_fields_only (i1 i2 : item) :
  item_cls i1 = item_cls i2 →
  (∀ f, f ∈ get_fields i1 → item_data i1 !! f = item_data i2 !! f) →
  copy_item i1 = copy_item i2.
Proof.
  intros Hcls Hagree.
  assert (Hfields : get_fields i2 = get_fields i1)
    by (unfold get_fields; by rewrite Hcls).
  destruct (copy_fields_frame i1 (get_fields i1) (Item (item_cls i1) ∅ ∅))
    as [Hc1 Ha1].
  destruct (copy_fields_frame i2 (get_fields i2) (Item (item_cls i2) ∅ ∅))
    as [Hc2 Ha2].
  assert (Hdata : item_data (copy_item i1) = item_data (copy_item i2)).
  { apply map_eq. intros f. unfold copy_item.
    rewrite !copy_fields_lookup, Hfields. cbn.
    destruct (decide (f ∈ get_fields i1)) as [Hin|Hnin]; [|done].
    by rewrite Hagree. }
  unfold copy_item in *.
  destruct (fold_left (copy_field i1) _ _) as [c1 d1 a1].
  destruct (fold_left (copy_field i2) _ _) as [c2 d2 a2].
  cbn in *. congruence.
Qed.

(** X12: copying a copy changes nothing. *)
Theorem copy_item_is_idempotent (i : item) :
  copy_item (copy_item i) = copy_item i.
Proof.
  destruct (copy_fields_frame i (get_fields i) (Item (item_cls i) ∅ ∅))
    as [Hc Ha].
  assert (Hfields : get_fields (copy_item i) = get_fields i).
  { unfold get_fields, copy_item. by rewrite Hc. }
  assert (Hdata : item_data (copy_item (copy_item i))
                  = item_data (copy_item i)).
  { apply map_eq. intros f. unfold copy_item at 1.
    rewrite copy_fields_lookup, Hfields. cbn.
    destruct (decide (f ∈ get_fields i)) as [Hin|Hnin].
    - unfold copy_item. rewrite copy_fields_lookup.
      by rewrite decide_True.
    - unfold copy_item. rewrite copy_fields_lookup.
      by rewrite decide_False. }
  destruct (copy_fields_frame (copy_item i) (get_fields (copy_item i))
              (Item (item_cls (copy_item i)) ∅ ∅)) as [Hc' Ha'].
  fold (copy_item (copy_item i)) in Hc', Ha'. cbn in Hc', Ha'.
  fold (copy_item i) in Hc, Ha. cbn in Hc, Ha.
  destruct (copy_item (copy_item i)) as [c2 d2 a2].
  destruct (copy_item i) as [c1 d1 a1].
  cbn in *. congruence.
Qed.

Lemma copy_depends_on_declared_fields_only_witness :
  let clean :=
    Item Crawl.Book (<["title"%string := FStr "Rocq"]> ∅) ∅ in
  item_cls Crawl.book = item_cls clean ∧
  copy_item Crawl.book = copy_item clean.
Proof.
  intros clean. split; [reflexivity|].
  apply (copy_depends_on_declared_fields_only Crawl.book clean eq_refl).
  intros f Hf. cbn in Hf. set_unfold in Hf.
  destruct Hf as [->|[->|[]]]; reflexivity.
Defined.

(* ===================================================================== *)
(** ** Further properties: the passes of the two loops *)
(* ===================================================================== *)

Section PassProperties.

Context {W : Type} (C : components W).

#[local] Abbreviation M := (M W).
#[local] Abbreviation engine := (engine W).
#[local] Abbreviation middleware := (middleware W).

(** X13: when the queue has nothing to give (the pop returns an empty
    value), a pass of either loop is the poll delay and the pop: no
    telemetry, no user code, no filter call, and only the world as the pop
    left it. *)
Theorem empty_pop_ends_the_pass (st : engine) (v : pyval) (w : W) :
  truthy v = false →
  (m_body (sch_get_word C) [] (world st) = (Ok v, w) →
   word_iteration C st
   = (Ok tt, set_world w st,
      [EvSleep Suspending PROCESS_DALEY; EvCall get_word])) ∧
  (m_body (sch_get_request C) [] (world st) = (Ok v, w) →
   request_iteration C st
   = (Ok tt, set_world w st,
      [EvSleep Suspending PROCESS_DALEY; EvCall get_request])).
Proof.
  intros Hv. split; intros Hpop.
  - unfold word_iteration, word_after_poll. rewrite bind_emit.
    erewrite await_ok by exact Hpop. by rewrite Hv.
  - unfold request_iteration, request_after_poll. rewrite bind_emit.
    erewrite await_ok by exact Hpop. by rewrite Hv.
Qed.

(** X14: a pop that fails inside a coroutine does not end the loop. The
    exception is logged by [__run_task], the pass ends there, and the loop
    goes on with its next pass from the world the failed pop left. *)
Theorem failed_pop_is_logged_and_retried (st : engine) (e : exn) (w : W)
    (rest : list arrivals) :
  shutting_down st = false →
  (m_coro (sch_get_word C) = true →
   m_body (sch_get_word C) [] (world st) = (Raise e, w) →
   handle_scheduler_word C (calm :: rest) st
   = after [EvSleep Suspending PROCESS_DALEY; EvCall get_word;
            EvLog Error (Traceback e)]
           (handle_scheduler_word C rest (set_world w st))) ∧
  (m_coro (sch_get_request C) = true →
   m_body (sch_get_request C) [] (world st) = (Raise e, w) →
   handle_scheduler_request C (calm :: rest) st
   = after [EvSleep Suspending PROCESS_DALEY; EvCall get_request;
            EvLog Error (Traceback e)]
           (handle_scheduler_request C rest (set_world w st))).
Proof.
  intros Hs. split; intros Hc Hpop.
  - unfold handle_scheduler_word. cbn [while_not_shutting_down]. rewrite Hs.
    assert (Hpass : word_after_poll C st
              = (Ok tt, set_world w st,
                 [EvCall get_word; EvLog Error (Traceback e)])).
    { unfold word_after_poll. by erewrite await_caught by done. }
    rewrite bind_emit. cbn [calm in_poll_delay in_flight deliver].
    rewrite bind_ret. erewrite bind_ok by exact Hpass.
    rewrite bind_ret, after_after. done.
  - unfold handle_scheduler_request. cbn [while_not_shutting_down]. rewrite Hs.
    assert (Hpass : request_after_poll C st
              = (Ok tt, set_world w st,
                 [EvCall get_request; EvLog Error (Traceback e)])).
    { unfold request_after_poll. by erewrite await_caught by done. }
    rewrite bind_emit. cbn [calm in_poll_delay in_flight deliver].
    rewrite bind_ret. erewrite bind_ok by exact Hpass.
    rewrite bind_ret, after_after. done.
Qed.

(** X15: what [make_request] returns for a word is pushed to the work queue
    in one call of [send_request], as it is (a list of requests is pushed as
    one value); when [make_request] returns an empty value nothing is
    pushed. The word-consumed telemetry is emitted once in both cases. *)
Theorem word_pushes_what_make_request_returns (st : engine)
    (word v : pyval) (w1 : W) :
  m_body (sch_get_word C) [] (world st) = (Ok word, w1) →
  truthy word = true →
  quiet (col_collect_word C) [] →
  (∀ w, ∃ w', spider_make_request C word w = (Ok v, w')) →
  awaits_to any (sch_send_request C) [v] →
  ∃ st' evs,
    word_iteration C st = (Ok tt, st', evs) ∧
    List.filter is_send_request evs
    = (if truthy v then [EvCall (send_request v)] else []) ∧
    occurrences is_word_consumed evs = 1%nat.
Proof.
  intros Hpop Hword Hq Hmk Hsend.
  unfold word_iteration, word_after_poll. rewrite bind_emit.
  erewrite await_ok by exact Hpop. rewrite Hword.
  match goal with
  | |- context [bind (call_method ?o ?m ?args)
                     (λ task, bind (spawn_run_task task) (λ _, ?k)) ?s] =>
      destruct (spawn_quiet o m args k s Hq) as (j & w & ->)
  end.
  rewrite bind_emit.
  match goal with
  | |- context [bind (call ?o ?f) ?k ?s] =>
      destruct (Hmk (world s)) as [w2 Hv];
      rewrite (call_ok o f k s v w2 Hv)
  end.
  destruct (truthy v) eqn:Htv.
  - match goal with
    | |- context [bind (call_method ?o ?m ?args)
                       (λ task, bind (run_task task) ?k) ?s] =>
        destruct (await_awaits_to any o m args k s Hsend)
          as (x & w3 & logs & _ & Hlogs & ->)
    end.
    cbn [after ret]. eexists _, _. split; [reflexivity|].
    assert (Hno : ∀ p : event → bool, (∀ l m, p (EvLog l m) = false) →
              List.filter p logs = []).
    { intros p Hp. clear -Hlogs Hp. induction Hlogs as [|ev l Hev _ IH]; [done|].
      destruct ev; try done. cbn. by rewrite Hp. }
    rewrite app_nil_r. unfold occurrences. cbn.
    by rewrite (Hno is_send_request), (Hno is_word_consumed).
  - cbn [after ret]. eexists _, _. split; [reflexivity|]. done.
Qed.

End PassProperties.

(* ===================================================================== *)
(** ** Further properties: the middleware chains *)
(* ===================================================================== *)

Section ChainProperties.

Context {W : Type} (C : components W).

#[local] Abbreviation M := (M W).
#[local] Abbreviation engine := (engine W).
#[local] Abbreviation middleware := (middleware W).

Lemma bind_get_middlewares {B} (k : list middleware → M B) (st : engine) :
  bind get_middlewares k st = k (middlewares st) st.
Proof. unfold bind, get_middlewares. apply after_nil. Qed.

Lemma filter_logs (p : event → bool) (logs : list event) :
  Forall (λ ev, is_log ev = true) logs →
  (∀ l m, p (EvLog l m) = false) →
  List.filter p logs = [].
Proof.
  intros Hlogs Hp. induction Hlogs as [|ev l Hev _ IH]; [done|].
  destruct ev; try done. cbn. by rewrite Hp.
Qed.

Lemma occurrences_forall (p q : event → bool) (evs : list event) :
  Forall (λ ev, q ev = true) evs →
  (∀ ev, q ev = true → p ev = false) →
  occurrences p evs = 0%nat.
Proof.
  intros Hq Hpq. apply occurrences_none.
  eapply Forall_impl; [exact Hq|]. exact Hpq.
Qed.

Lemma awaited_logs (m : method W) args w r w' logs :
  awaited m args w = (r, w', logs) → Forall (λ ev, is_log ev = true) logs.
Proof.
  unfold awaited. destruct (m_body m args w) as [[v|e] w1].
  - intros [= <- <- <-]. constructor.
  - destruct (m_coro m); intros [= <- <- <-]; by repeat constructor.
Qed.

(** Pre-request hooks whose awaited call cannot raise: the chain calls each
    of them once, in order, whatever they return. *)
Lemma request_chain_trace (mws : list middleware) (req : pyval) (st : engine) :
  Forall (λ mw, awaits_to any (mw_process_request mw) [req]) mws →
  ∃ st' evs,
    request_chain mws req st = (Ok tt, st', evs) ∧
    middlewares st' = middlewares st ∧
    Forall (λ ev, is_log ev || is_pre_request_hook ev = true) evs ∧
    List.filter is_pre_request_hook evs
    = map (λ mw, EvCall (process_request (mw_name mw) req)) mws.
Proof.
  intros H. revert st. induction H as [|mw rest Hmw _ IH]; intros st.
  - exists st, []. by repeat split.
  - cbn [request_chain].
    destruct (await_awaits_to _ (process_request (mw_name mw) req)
                (mw_process_request mw) [req]
                (λ _, request_chain rest req) st Hmw)
      as (v & w & logs & _ & Hlogs & ->).
    destruct (IH (set_world w st)) as (st' & evs & -> & Hm & Hshape & Hcalls).
    eexists _, _. split; [reflexivity|]. split; [done|]. split.
    + constructor; [done|]. apply Forall_app. split; [|done].
      eapply Forall_impl; [exact Hlogs|]. by intros ev ->.
    + cbn. rewrite List.filter_app, (filter_logs _ _ Hlogs) by done.
      cbn. by rewrite Hcalls.
Qed.

(** X16: pre-request hooks cannot short-circuit. When no hook call raises
    out of [__run_task], every middleware's pre-request hook is called
    exactly once, in chain order, whatever the hooks return, and the chain
    itself calls nothing else. *)
Theorem pre_request_hooks_all_run_in_order (mws : list middleware)
    (req : pyval) (st : engine) :
  Forall (λ mw, awaits_to any (mw_process_request mw) [req]) mws →
  ∃ st' evs,
    request_chain mws req st = (Ok tt, st', evs) ∧
    List.filter is_pre_request_hook evs
    = map (λ mw, EvCall (process_request (mw_name mw) req)) mws ∧
    Forall (λ ev, is_log ev || is_pre_request_hook ev = true) evs.
Proof.
  intros H.
  destruct (request_chain_trace mws req st H) as (st' & evs & ? & _ & ? & ?).
  by exists st', evs.
Qed.

Lemma quiet_events (evs : list event) :
  Forall (λ ev, is_quiet_event ev = true) evs →
  occurrences is_post_hook evs = 0%nat ∧
  occurrences is_error_recording evs = 0%nat ∧
  occurrences is_user_call evs = 0%nat ∧
  occurrences is_production evs = 0%nat.
Proof.
  intros H. repeat split; eapply occurrences_forall; try exact H;
    intros [| [] |]; done.
Qed.

(** X17: a fetch that gives nothing is dropped without a trace in the work
    queue. When the downloader returns [None], or its coroutine raises and
    [__run_task] turns that into [None], the pass ends after the fetch: no
    post-response or post-exception hook runs, the request is not recorded
    as an error, and no callback is called. *)
Theorem fetch_without_result_is_dropped (st : engine) (r : request) :
  fetches C st r VNone →
  ∃ st' evs,
    request_iteration C st = (Ok tt, st', evs) ∧
    occurrences is_fetch evs = 1%nat ∧
    occurrences is_post_hook evs = 0%nat ∧
    occurrences is_error_recording evs = 0%nat ∧
    occurrences is_user_call evs = 0%nat ∧
    occurrences is_production evs = 0%nat.
Proof.
  intros ([w1 Hpop] & Hflt & Hq & Hpre & Hdl).
  unfold request_iteration, request_after_poll. rewrite bind_emit.
  erewrite await_ok by exact Hpop. cbn [truthy].
  match goal with
  | |- context [bind (call_method ?o ?m ?args)
                     (λ task, bind (run_task task) ?k) ?s] =>
      destruct (await_awaits_to _ o m args k s Hflt)
        as (v & w2 & logs2 & -> & Hlogs2 & ->)
  end.
  cbn [truthy].
  match goal with
  | |- context [bind (call_method ?o ?m ?args)
                     (λ task, bind (spawn_run_task task) (λ _, ?k)) ?s] =>
      destruct (spawn_quiet o m args k s Hq) as (j & w3 & ->)
  end.
  rewrite bind_get_middlewares. cbn [middlewares add_job set_world].
  match goal with
  | |- context [bind (request_chain _ _) _ ?s] =>
      destruct (request_chain_trace (middlewares st) (VRequest r) s Hpre)
        as (st4 & evs4 & Hchain & _ & Hshape & _)
  end.
  erewrite bind_ok by exact Hchain. rewrite bind_emit.
  match goal with
  | |- context [bind (call_method ?o ?m ?args)
                     (λ task, bind (run_task task) ?k) ?s] =>
      destruct (await_awaits_to _ o m args k s Hdl)
        as (v & w5 & logs5 & -> & Hlogs5 & ->)
  end.
  assert (Hout : ∀ s : engine,
            handle_downloader_output C (VRequest r) VNone s = (Ok tt, s, [])).
  { intros s. unfold handle_downloader_output. by rewrite bind_ret. }
  rewrite Hout. cbn [after]. eexists _, _. split; [reflexivity|].
  assert (Hfetch : ∀ l, Forall (λ ev, is_log ev || is_pre_request_hook ev = true) l
                        → occurrences is_fetch l = 0%nat).
  { intros l Hl. eapply occurrences_forall; [exact Hl|]. by intros [| [] |]. }
  assert (Hlog : ∀ l (p : event → bool), Forall (λ ev, is_log ev = true) l →
                   (∀ a b, p (EvLog a b) = false) → occurrences p l = 0%nat).
  { intros l p Hl Hp. unfold occurrences. by rewrite (filter_logs p l Hl Hp). }
  split.
  - change (?a :: logs2) with ([a] ++ logs2).
    change (?a :: logs5) with ([a] ++ logs5).
    rewrite !occurrences_app, (Hfetch evs4 Hshape),
      (Hlog logs2 is_fetch Hlogs2), (Hlog logs5 is_fetch Hlogs5) by done.
    done.
  - apply quiet_events. repeat (apply Forall_app; split);
      repeat (apply Forall_cons; split); try done; try apply Forall_nil.
    + eapply Forall_impl; [exact Hlogs2|]. by intros [| |].
    + eapply Forall_impl; [exact Hshape|]. by intros [| [] |].
    + eapply Forall_impl; [exact Hlogs5|]. by intros [| |].
Qed.

End ChainProperties.

Section DispatchProperties.

Context {W : Type} (C : components W).

#[local] Abbreviation M := (M W).
#[local] Abbreviation engine := (engine W).
#[local] Abbreviation middleware := (middleware W).

(** Whatever the hooks do, the post-exception chain calls only them. *)
Lemma exception_chain_shape (mws : list middleware) req e h (st st' : engine)
    r evs :
  exception_chain mws req e h st = (r, st', evs) →
  Forall (λ ev, is_exception_hook_or_log ev = true) evs.
Proof.
  revert h st evs. induction mws as [|mw rest IH]; intros h st evs H.
  - injection H as <- <- <-. constructor.
  - cbn [exception_chain] in H. rewrite await_step in H.
    destruct (awaited _ _ _) as [[[v|x] w] logs] eqn:Ha.
    + pose proof (awaited_logs _ _ _ _ _ _ Ha) as Hlogs.
      destruct (truthy v).
      * injection H as <- <- <-. constructor; [done|].
        rewrite app_nil_r. eapply Forall_impl; [exact Hlogs|].
        by intros [| |].
      * destruct (exception_chain rest req e v (set_world w st))
          as [[r2 st2] evs2] eqn:Hrest.
        injection H as <- <- <-. constructor; [done|].
        apply Forall_app. split; [|by eapply IH].
        eapply Forall_impl; [exact Hlogs|]. by intros [| |].
    + injection H as <- <- <-. by repeat constructor.
Qed.

(** While the hooks give empty results the post-exception chain goes on. *)
Lemma exception_chain_app (mws1 mws2 : list middleware) req e h0
    (st st1 : engine) h1 evs1 :
  exception_chain mws1 req e h0 st = (Ok h1, st1, evs1) →
  truthy h1 = false →
  exception_chain (mws1 ++ mws2) req e h0 st
  = after evs1 (exception_chain mws2 req e h1 st1).
Proof.
  revert h0 st evs1.
  induction mws1 as [|mw rest IH]; intros h0 st evs1 H Hf.
  - injection H as <- <- <-. simpl. by rewrite after_nil.
  - cbn [exception_chain app] in *. rewrite await_step in *.
    destruct (awaited _ _ _) as [[[v|x] w] logs]; [|done].
    destruct (truthy v) eqn:Hv.
    + exfalso. injection H as <- <- <-. congruence.
    + destruct (exception_chain rest req e v (set_world w st))
        as [[r2 st2] evs2] eqn:Hrest.
      simpl in H. injection H as -> <- <-.
      rewrite (IH _ _ _ Hrest Hf). by rewrite after_after.
Qed.

(** X18: a failure handled by a middleware is not recorded. The first
    post-exception hook that returns a non-empty result ends the chain and
    its result is the outcome: no later hook is called,
    [append_error_request] is not called and the request's error callback is
    not called. *)
Theorem handled_failure_is_not_recorded (mws1 mws2 : list middleware)
    (mw : middleware) (req : pyval) (e : exn) (st st1 : engine)
    (h1 v : pyval) (w : W) (evs1 : list event) :
  middlewares st = mws1 ++ mw :: mws2 →
  exception_chain mws1 req e VNone st = (Ok h1, st1, evs1) →
  truthy h1 = false →
  m_body (mw_process_exception mw) [req; VExc e] (world st1) = (Ok v, w) →
  truthy v = true →
  let evs := evs1 ++ [EvCall (process_exception (mw_name mw) req e)] in
  handle_downloader_exception C req e st = (Ok v, set_world w st1, evs) ∧
  occurrences is_error_recording evs = 0%nat ∧
  occurrences is_user_call evs = 0%nat.
Proof.
  intros Hmws Hchain Hh1 Hb Hv evs.
  assert (Hrun : exception_chain (mws1 ++ mw :: mws2) req e VNone st
                 = (Ok v, set_world w st1, evs)).
  { rewrite (exception_chain_app _ (mw :: mws2) _ _ _ _ _ _ _ Hchain Hh1).
    cbn [exception_chain]. erewrite await_ok by exact Hb. by rewrite Hv. }
  split.
  - unfold handle_downloader_exception.
    rewrite bind_get_middlewares, Hmws.
    erewrite bind_ok by exact Hrun.
    assert (Hnn : is_none v = false) by (by destruct v).
    rewrite Hnn. cbn. by rewrite app_nil_r.
  - pose proof (exception_chain_shape _ _ _ _ _ _ _ _ Hrun) as Hshape.
    split; eapply occurrences_forall; try exact Hshape; by intros [| [] |].
Qed.

(** Post-item hooks that return no Item: the chain calls each of them, in
    order, and keeps the item. *)
Lemma item_chain_trace (mws : list middleware) (it : item) (st : engine) :
  Forall (λ mw, awaits_to (λ v, is_item v = false)
                          (mw_process_item mw) [VItem it]) mws →
  ∃ st' evs,
    item_chain mws it st = (Ok it, st', evs) ∧
    middlewares st' = middlewares st ∧
    List.filter is_item_hook evs
    = map (λ mw, EvCall (process_item (mw_name mw) it)) mws.
Proof.
  intros H. revert st. induction H as [|mw rest Hmw _ IH]; intros st.
  - by exists st, [].
  - cbn [item_chain].
    match goal with
    | |- ∃ _ _, bind (call_method ?o ?m ?args)
                     (λ task, bind (run_task task) ?k) _ = _ ∧ _ =>
        destruct (await_awaits_to _ o m args k st Hmw)
          as (v & w & logs & Hv & Hlogs & ->)
    end.
    destruct (IH (set_world w st)) as (st' & evs & Hrun & Hm & Hcalls).
    destruct v; try discriminate Hv; rewrite Hrun;
      (eexists _, _; split; [reflexivity|]; split; [done|]);
      cbn; rewrite List.filter_app, (filter_logs _ _ Hlogs) by done;
      cbn; by rewrite Hcalls.
Qed.

(** X19: a post-item hook cannot drop an item. When every hook returns
    something that is not an Item (nothing, a flag, a Request), each hook is
    called once, in chain order, and the item, if non-empty, goes on as the
    copy of the item the engine was given. *)
Theorem item_hooks_cannot_drop_an_item (it : item) (st : engine) :
  Forall (λ mw, awaits_to (λ v, is_item v = false)
                          (mw_process_item mw) [VItem it]) (middlewares st) →
  item_truthy it = true →
  ∃ st' evs,
    handle_spider_item it st = (Ok (Some (copy_item it)), st', evs) ∧
    List.filter is_item_hook evs
    = map (λ mw, EvCall (process_item (mw_name mw) it)) (middlewares st).
Proof.
  intros Hhooks Htrue.
  destruct (item_chain_trace _ it st Hhooks) as (st' & evs & Hrun & _ & Hcalls).
  exists st', evs. split; [|done].
  unfold handle_spider_item. rewrite bind_get_middlewares.
  erewrite bind_ok by exact Hrun. rewrite Htrue. cbn. by rewrite app_nil_r.
Qed.

(** X20: the first post-item hook that returns an Item ends the chain: the
    item it returns is the one copied, and the hooks after it are not
    called. *)
Theorem first_transformed_item_wins (mws1 mws2 : list middleware)
    (mw : middleware) (it p : item) (st : engine) :
  middlewares st = mws1 ++ mw :: mws2 →
  Forall (λ m, awaits_to (λ v, is_item v = false)
                         (mw_process_item m) [VItem it]) mws1 →
  (∀ w, ∃ w', m_body (mw_process_item mw) [VItem it] w = (Ok (VItem p), w')) →
  item_truthy p = true →
  ∃ st' evs,
    handle_spider_item it st = (Ok (Some (copy_item p)), st', evs) ∧
    List.filter is_item_hook evs
    = map (λ m, EvCall (process_item (mw_name m) it)) (mws1 ++ [mw]).
Proof.
  intros Hmws Hhooks Hmw Htrue.
  assert (Hchain : ∀ s : engine, ∃ s' evs,
            item_chain (mws1 ++ mw :: mws2) it s = (Ok p, s', evs) ∧
            List.filter is_item_hook evs
            = map (λ m, EvCall (process_item (mw_name m) it)) (mws1 ++ [mw])).
  { clear Hmws. induction Hhooks as [|m rest Hm _ IH]; intros s.
    - cbn [app item_chain]. destruct (Hmw (world s)) as [w' Hb].
      erewrite await_ok by exact Hb. by eexists _, _.
    - cbn [app item_chain].
      match goal with
      | |- ∃ _ _, bind (call_method ?o ?m ?args)
                       (λ task, bind (run_task task) ?k) _ = _ ∧ _ =>
          destruct (await_awaits_to _ o m args k s Hm)
            as (v & w & logs & Hv & Hlogs & ->)
      end.
      destruct (IH (set_world w s)) as (s' & evs & Hrun & Hcalls).
      destruct v; try discriminate Hv; rewrite Hrun;
        (eexists _, _; split; [reflexivity|]);
        cbn; rewrite List.filter_app, (filter_logs _ _ Hlogs) by done;
        cbn; by rewrite Hcalls. }
  destruct (Hchain st) as (st' & evs & Hrun & Hcalls).
  exists st', evs. split; [|done].
  unfold handle_spider_item. rewrite bind_get_middlewares, Hmws.
  erewrite bind_ok by exact Hrun. rewrite Htrue. cbn. by rewrite app_nil_r.
Qed.

(** X21: an item reaches the sink only through the filter. When the filter
    answers with an empty value the item is dropped after the filter call:
    no telemetry, no log, no delivery. When it answers with a non-empty
    value, that value (not the item given to the filter) is delivered, once,
    to [send_item]. *)
Theorem item_is_sent_only_if_the_filter_accepts (st : engine) (r : request)
    (it : item) (v : pyval) (w : W) :
  m_body (flt_filter_item C) [VItem it] (world st) = (Ok v, w) →
  (truthy v = false →
   filter_and_send C (VRequest r) it st
   = (Ok tt, set_world w st, [EvCall (filter_item it)])) ∧
  (truthy v = true →
   quiet (col_collect_item C) [v] →
   awaits_to any (sch_send_item C) [v] →
   ∃ st' evs,
     filter_and_send C (VRequest r) it st = (Ok tt, st', evs) ∧
     List.filter is_send_item evs = [EvCall (send_item v)] ∧
     List.filter (λ ev, match ev with EvCall (collect_item _) => true
                                    | _ => false end) evs
     = [EvCall (collect_item v)]).
Proof.
  intros Hflt. split.
  - intros Hv. unfold filter_and_send.
    erewrite await_ok by exact Hflt. by rewrite Hv.
  - intros Hv Hq Hsend. unfold filter_and_send.
    erewrite await_ok by exact Hflt. rewrite Hv.
    match goal with
    | |- context [bind (call_method ?o ?m ?args)
                       (λ task, bind (spawn_run_task task) (λ _, ?k)) ?s] =>
        destruct (spawn_quiet o m args k s Hq) as (j & w2 & ->)
    end.
    cbn [as_request]. rewrite bind_ret, bind_emit.
    match goal with
    | |- context [bind (call_method ?o ?m ?args)
                       (λ task, bind (run_task task) ?k) ?s] =>
        destruct (await_awaits_to any o m args k s Hsend)
          as (x & w3 & logs & _ & Hlogs & ->)
    end.
    cbn [after ret]. eexists _, _. split; [reflexivity|].
    rewrite app_nil_r. cbn.
    by rewrite !(filter_logs _ _ Hlogs).
Qed.

End DispatchProperties.

Section FanOutProperties.

Context {W : Type} (C : components W).

#[local] Abbreviation M := (M W).
#[local] Abbreviation engine := (engine W).
#[local] Abbreviation middleware := (middleware W).

Lemma set_world_id (st : engine) : set_world (world st) st = st.
Proof. by destruct st. Qed.

Lemma fan_out_requests_coroutine (req : pyval) (rs : list request)
    (tasks : list (M unit)) (st : engine) :
  m_coro (sch_send_request C) = true →
  fan_out C req (map VRequest rs) tasks st
  = (Ok (tasks ++ map (λ r, ensure_future
                              (Coroutine (m_body (sch_send_request C)
                                                 [VRequest r]))) rs),
     st, map (λ r, EvCall (send_request (VRequest r))) rs).
Proof.
  intros Hc. revert tasks. induction rs as [|r rs IH]; intros tasks.
  - cbn. by rewrite app_nil_r.
  - cbn [map fan_out]. rewrite Hc. unfold call_method. rewrite Hc.
    rewrite bind_assoc, bind_emit, bind_ret, IH. cbn.
    by rewrite <- app_assoc.
Qed.

Lemma fan_out_requests_plain (req : pyval) (rs : list request)
    (tasks : list (M unit)) (st : engine) :
  m_coro (sch_send_request C) = false →
  Forall (λ r, quiet (sch_send_request C) [VRequest r]) rs →
  fan_out C req (map VRequest rs) tasks st
  = (Ok tasks, set_world (pushed C rs (world st)) st,
     map (λ r, EvCall (send_request (VRequest r))) rs).
Proof.
  intros Hc Hq. revert st. induction Hq as [|r rs Hr _ IH]; intros st.
  - cbn. by rewrite set_world_id.
  - cbn [map fan_out]. rewrite Hc. unfold call_method. rewrite Hc.
    destruct Hr as [Hr|Hr]; [congruence|].
    destruct (Hr (world st)) as (v & w' & Hb).
    rewrite bind_assoc, bind_emit, bind_assoc.
    unfold bind at 1. unfold in_world at 1. rewrite Hb.
    rewrite bind_ret, after_nil, IH. cbn. unfold pushed. cbn.
    by rewrite Hb.
Qed.

(** X22: each Request of a handled outcome is passed to [send_request]
    once, in the order of the outcome. A plain [send_request] pushes at the
    call: when the loop over the outcome ends, the queue holds the pushes
    made in that order and no task is left to await. A coroutine
    [send_request] pushes nothing at the call: the loop leaves the queue as
    it was and makes one task per Request, in the order of the outcome, for
    [asyncio.wait]. *)
Theorem requests_are_pushed_in_order (req : pyval) (rs : list request)
    (st : engine) :
  Forall (λ r, quiet (sch_send_request C) [VRequest r]) rs →
  ∃ tasks st1,
    fan_out C req (map VRequest rs) [] st
    = (Ok tasks, st1, map (λ r, EvCall (send_request (VRequest r))) rs) ∧
    if m_coro (sch_send_request C)
    then st1 = st ∧
         tasks = map (λ r, ensure_future
                             (Coroutine (m_body (sch_send_request C)
                                                [VRequest r]))) rs
    else st1 = set_world (pushed C rs (world st)) st ∧ tasks = [].
Proof.
  intros Hq. destruct (m_coro (sch_send_request C)) eqn:Hc.
  - eexists _, _. split; [by apply fan_out_requests_coroutine|]. done.
  - eexists _, _. split; [by apply fan_out_requests_plain|]. done.
Qed.

(** Whatever the hooks do, the post-response chain calls only them. *)
Lemma response_chain_shape (mws : list middleware) req resp h
    (st st' : engine) r evs :
  response_chain mws req resp h st = (r, st', evs) →
  Forall (λ ev, is_log ev || is_post_hook ev = true) evs.
Proof.
  revert h st evs. induction mws as [|mw rest IH]; intros h st evs H.
  - injection H as <- <- <-. constructor.
  - cbn [response_chain] in H. rewrite await_step in H.
    destruct (awaited _ _ _) as [[[v|x] w] logs] eqn:Ha.
    + pose proof (awaited_logs _ _ _ _ _ _ Ha) as Hlogs.
      assert (Hl : Forall (λ ev, is_log ev || is_post_hook ev = true) logs).
      { eapply Forall_impl; [exact Hlogs|]. by intros ev ->. }
      destruct (truthy v).
      * assert (evs = EvCall (process_response (mw_name mw) req resp) :: logs)
          as ->.
        { destruct v; injection H as <- <- <-; by rewrite app_nil_r. }
        by constructor.
      * destruct (response_chain rest req resp v (set_world w st))
          as [[r2 st2] evs2] eqn:Hrest.
        injection H as <- <- <-. constructor; [done|].
        apply Forall_app. split; [done|]. by eapply IH.
    + injection H as <- <- <-. by repeat constructor.
Qed.

(** X23: a hook result that is neither [None] nor a Response takes the
    place of the callback. Whether the chain was ended by a non-empty result
    (a Request to retry, say) or its last hook left an empty value other
    than [None] (such as [False]), that value is the outcome of the
    dispatch: the response is not logged as crawled and the request's
    callback is not called. *)
Theorem hook_result_bypasses_the_callback (st st2 : engine) (req : pyval)
    (resp resp1 resp2 : response) (w1 : W) (handled : pyval)
    (evs2 : list event) :
  dl_parse_html C req resp (world st) = (Ok resp1, w1) →
  response_chain (middlewares st) req resp1 VNone (set_world w1 st)
  = (Ok (handled, resp2), st2, evs2) →
  is_response handled = false →
  is_none handled = false →
  let evs := EvCall (parse_html req resp) :: evs2 in
  handle_downloader_response C req resp st = (Ok handled, st2, evs) ∧
  occurrences is_user_call evs = 0%nat ∧
  occurrences (λ ev, match ev with EvLog Success _ => true | _ => false end)
              evs = 0%nat.
Proof.
  intros Hparse Hchain Hr Hn evs. split.
  - unfold handle_downloader_response.
    erewrite call_ok by exact Hparse.
    rewrite bind_get_middlewares. cbn [middlewares set_world].
    erewrite bind_ok by exact Hchain. cbn zeta beta iota delta [fst snd].
    rewrite Hr, Hn. cbn. by rewrite app_nil_r.
  - pose proof (response_chain_shape _ _ _ _ _ _ _ _ Hchain) as Hshape.
    assert (Hlogs : ∀ h s s' r' l,
              response_chain (middlewares st) req resp1 h s = (r', s', l) →
              Forall (λ ev, match ev with EvLog Success _ => false
                                        | _ => true end = true) l).
    { clear. intros h s s' r' l. generalize (middlewares st). intros mws.
      revert h s l. induction mws as [|mw rest IH]; intros h s l H.
      - injection H as <- <- <-. constructor.
      - cbn [response_chain] in H. rewrite await_step in H.
        unfold awaited in H.
        destruct (m_body _ _ _) as [[v|x] w].
        + destruct (truthy v).
          * assert (l = [EvCall (process_response (mw_name mw) req resp1)])
              as -> by (destruct v; by injection H as <- <- <-).
            by repeat constructor.
          * destruct (response_chain rest req resp1 v (set_world w s))
              as [[r2 s2] l2] eqn:Hrest.
            injection H as <- <- <-. constructor; [done|]. by eapply IH.
        + destruct (m_coro _).
          * cbn [truthy] in H.
            destruct (response_chain rest req resp1 VNone (set_world w s))
              as [[r2 s2] l2] eqn:Hrest.
            injection H as <- <- <-. repeat (constructor; [done|]).
            by eapply IH.
          * injection H as <- <- <-. by repeat constructor. }
    split.
    + unfold evs. change (?a :: evs2) with ([a] ++ evs2).
      rewrite occurrences_app. cbn.
      eapply occurrences_forall; [exact Hshape|]. by intros [| [] |].
    + unfold evs. change (?a :: evs2) with ([a] ++ evs2).
      rewrite occurrences_app. cbn.
      apply occurrences_none. eapply Forall_impl; [exact (Hlogs _ _ _ _ _ Hchain)|].
      by intros [| |[]].
Qed.

End FanOutProperties.

Section ChainShapes.

Context {W : Type}.

#[local] Abbreviation engine := (engine W).
#[local] Abbreviation middleware := (middleware W).

Lemma request_chain_shape (mws : list middleware) req (st st' : engine) r evs :
  request_chain mws req st = (r, st', evs) →
  Forall (λ ev, is_log ev || is_pre_request_hook ev = true) evs.
Proof.
  revert st evs. induction mws as [|mw rest IH]; intros st evs H.
  - injection H as <- <- <-. constructor.
  - cbn [request_chain] in H. rewrite await_step in H.
    destruct (awaited _ _ _) as [[[v|x] w] logs] eqn:Ha.
    + pose proof (awaited_logs _ _ _ _ _ _ Ha) as Hlogs.
      destruct (request_chain rest req (set_world w st))
        as [[r2 st2] evs2] eqn:Hrest.
      injection H as <- <- <-. constructor; [done|].
      apply Forall_app. split; [|by eapply IH].
      eapply Forall_impl; [exact Hlogs|]. by intros ev ->.
    + injection H as <- <- <-. by repeat constructor.
Qed.

Lemma response_chain_hooks (mws : list middleware) req resp h
    (st st' : engine) r evs :
  response_chain mws req resp h st = (r, st', evs) →
  Forall (λ ev, is_log ev || is_response_hook ev = true) evs.
Proof.
  revert h st evs. induction mws as [|mw rest IH]; intros h st evs H.
  - injection H as <- <- <-. constructor.
  - cbn [response_chain] in H. rewrite await_step in H.
    destruct (awaited _ _ _) as [[[v|x] w] logs] eqn:Ha.
    + pose proof (awaited_logs _ _ _ _ _ _ Ha) as Hlogs.
      assert (Hl : Forall (λ ev, is_log ev || is_response_hook ev = true)
                          logs).
      { eapply Forall_impl; [exact Hlogs|]. by intros ev ->. }
      destruct (truthy v).
      * assert (evs = EvCall (process_response (mw_name mw) req resp) :: logs)
          as ->.
        { destruct v; injection H as <- <- <-; by rewrite app_nil_r. }
        by constructor.
      * destruct (response_chain rest req resp v (set_world w st))
          as [[r2 st2] evs2] eqn:Hrest.
        injection H as <- <- <-. constructor; [done|].
        apply Forall_app. split; [done|]. by eapply IH.
    + injection H as <- <- <-. by repeat constructor.
Qed.

Lemma item_chain_shape (mws : list middleware) it (st st' : engine) r evs :
  item_chain mws it st = (r, st', evs) →
  Forall (λ ev, is_log ev || is_item_hook ev = true) evs.
Proof.
  revert st evs. induction mws as [|mw rest IH]; intros st evs H.
  - injection H as <- <- <-. constructor.
  - cbn [item_chain] in H. rewrite await_step in H.
    destruct (awaited _ _ _) as [[[v|x] w] logs] eqn:Ha.
    + pose proof (awaited_logs _ _ _ _ _ _ Ha) as Hlogs.
      assert (Hl : Forall (λ ev, is_log ev || is_item_hook ev = true) logs).
      { eapply Forall_impl; [exact Hlogs|]. by intros ev ->. }
      destruct (item_chain rest it (set_world w st))
        as [[r2 st2] evs2] eqn:Hrest.
      destruct v; cbn in H; try (unfold after in H; rewrite Hrest in H);
        injection H as <- <- <-; (constructor; [done|]);
        rewrite ?app_nil_r; try done;
        (apply Forall_app; split; [done|by eapply IH]).
    + injection H as <- <- <-. by repeat constructor.
Qed.

(** X24: the four middleware chains call nothing but the hooks of their own
    extension point. However a run of a chain ends, with a result or with
    an exception, its events are calls of that hook and error logs of
    [__run_task]: a chain never fetches, never touches the work queue or
    the filter and never calls user code. *)
Theorem chains_call_only_their_hooks (mws : list middleware) (st : engine) :
  (∀ req r st' evs,
     request_chain mws req st = (r, st', evs) →
     Forall (λ ev, is_log ev || is_pre_request_hook ev = true) evs) ∧
  (∀ req resp h r st' evs,
     response_chain mws req resp h st = (r, st', evs) →
     Forall (λ ev, is_log ev || is_response_hook ev = true) evs) ∧
  (∀ req e h r st' evs,
     exception_chain mws req e h st = (r, st', evs) →
     Forall (λ ev, is_exception_hook_or_log ev = true) evs) ∧
  (∀ it r st' evs,
     item_chain mws it st = (r, st', evs) →
     Forall (λ ev, is_log ev || is_item_hook ev = true) evs).
Proof.
  split; [|split; [|split]].
  - intros. by eapply request_chain_shape.
  - intros. by eapply response_chain_hooks.
  - intros. by eapply exception_chain_shape.
  - intros. by eapply item_chain_shape.
Qed.

End ChainShapes.

(* ===================================================================== *)
(** ** The further properties on the small crawl *)
(* ===================================================================== *)

Lemma empty_pop_ends_the_pass_witness :
  truthy VNone = false ∧
  word_iteration Samples.empty_queue (Crawl.start [])
  = (Ok tt, Crawl.start [],
     [EvSleep Suspending PROCESS_DALEY; EvCall get_word]) ∧
  request_iteration Samples.empty_queue (Crawl.start [])
  = (Ok tt, Crawl.start [],
     [EvSleep Suspending PROCESS_DALEY; EvCall get_request]).
Proof.
  split; [reflexivity|].
  destruct (empty_pop_ends_the_pass Samples.empty_queue (Crawl.start [])
              VNone tt eq_refl) as [Hw Hr].
  split; [by apply Hw|by apply Hr].
Defined.

Lemma failed_pop_is_logged_and_retried_witness :
  shutting_down (Crawl.start []) = false ∧
  handle_scheduler_word Samples.broken_queue [calm; calm] (Crawl.start [])
  = after [EvSleep Suspending PROCESS_DALEY; EvCall get_word;
           EvLog Error (Traceback "ConnectionError")]
          (handle_scheduler_word Samples.broken_queue [calm] (Crawl.start [])).
Proof.
  split; [reflexivity|].
  by apply (proj1 (failed_pop_is_logged_and_retried Samples.broken_queue
                     (Crawl.start []) "ConnectionError" tt [calm] eq_refl)).
Defined.

Lemma word_pushes_what_make_request_returns_witness :
  truthy (VStr "golang") = true ∧
  ∃ st' evs,
    word_iteration Samples.plain (Crawl.start []) = (Ok tt, st', evs) ∧
    List.filter is_send_request evs
    = [EvCall (send_request (VRequest Crawl.golang))] ∧
    occurrences is_word_consumed evs = 1%nat.
Proof.
  split; [reflexivity|].
  apply (word_pushes_what_make_request_returns Samples.plain (Crawl.start [])
           (VStr "golang") (VRequest Crawl.golang) tt).
  - reflexivity.
  - reflexivity.
  - left. reflexivity.
  - intros w. exists w. reflexivity.
  - intros w. exact I.
Defined.

Lemma pre_request_hooks_all_run_in_order_witness :
  let mws := [Crawl.base_middleware "A";
              Crawl.faulty_middleware Crawl.PreRequest true;
              Crawl.base_middleware "B"] in
  ∃ st' evs,
    request_chain mws (VRequest Crawl.golang) (Crawl.start mws)
    = (Ok tt, st', evs) ∧
    List.filter is_pre_request_hook evs
    = [EvCall (process_request "A" (VRequest Crawl.golang));
       EvCall (process_request "Faulty" (VRequest Crawl.golang));
       EvCall (process_request "B" (VRequest Crawl.golang))].
Proof.
  intros mws.
  destruct (pre_request_hooks_all_run_in_order mws (VRequest Crawl.golang)
              (Crawl.start mws)) as (st' & evs & Hrun & Hcalls & _).
  - repeat constructor; intros w; cbn; done.
  - exists st', evs. split; [exact Hrun|exact Hcalls].
Defined.

Lemma fetch_without_result_is_dropped_witness :
  ∃ st' evs,
    request_iteration Samples.failing_fetch
                      (Crawl.start [Crawl.base_middleware "A"])
    = (Ok tt, st', evs) ∧
    occurrences is_fetch evs = 1%nat ∧
    occurrences is_post_hook evs = 0%nat ∧
    occurrences is_error_recording evs = 0%nat ∧
    occurrences is_user_call evs = 0%nat ∧
    occurrences is_production evs = 0%nat.
Proof.
  apply (fetch_without_result_is_dropped Samples.failing_fetch
           (Crawl.start [Crawl.base_middleware "A"]) Crawl.golang).
  split; [exists tt; reflexivity|].
  split; [intros w; reflexivity|]. split; [left; reflexivity|].
  split; [repeat constructor|].
  intros w. cbn. done.
Defined.

Lemma handled_failure_is_not_recorded_witness :
  let st := Crawl.start [Crawl.base_middleware "A"; Samples.retry_middleware;
                         Crawl.base_middleware "B"] in
  truthy (VRequest Crawl.golang_guarded) = true ∧
  handle_downloader_exception Samples.plain (VRequest Crawl.golang)
                              Crawl.timeout st
  = (Ok (VRequest Crawl.golang_guarded), st,
     [EvCall (process_exception "A" (VRequest Crawl.golang) Crawl.timeout);
      EvCall (process_exception "Retry" (VRequest Crawl.golang) Crawl.timeout)]).
Proof.
  intros st. split; [reflexivity|].
  apply (handled_failure_is_not_recorded Samples.plain
           [Crawl.base_middleware "A"] [Crawl.base_middleware "B"]
           Samples.retry_middleware (VRequest Crawl.golang) Crawl.timeout
           st st VNone (VRequest Crawl.golang_guarded) tt
           [EvCall (process_exception "A" (VRequest Crawl.golang)
                      Crawl.timeout)]); reflexivity.
Defined.

Lemma item_hooks_cannot_drop_an_item_witness :
  let st := Crawl.start [Crawl.base_middleware "A"; Crawl.base_middleware "B"] in
  item_truthy Crawl.book = true ∧
  ∃ st' evs,
    handle_spider_item Crawl.book st
    = (Ok (Some (copy_item Crawl.book)), st', evs) ∧
    List.filter is_item_hook evs
    = [EvCall (process_item "A" Crawl.book);
       EvCall (process_item "B" Crawl.book)].
Proof.
  intros st. split; [reflexivity|].
  apply (item_hooks_cannot_drop_an_item Crawl.book st); [|reflexivity].
  repeat constructor; intros w; reflexivity.
Defined.

Lemma first_transformed_item_wins_witness :
  let st := Crawl.start [Crawl.base_middleware "A"; Samples.pricing_middleware;
                         Crawl.base_middleware "B"] in
  item_truthy Samples.priced_book = true ∧
  ∃ st' evs,
    handle_spider_item Crawl.book st
    = (Ok (Some (copy_item Samples.priced_book)), st', evs) ∧
    List.filter is_item_hook evs
    = [EvCall (process_item "A" Crawl.book);
       EvCall (process_item "Pricing" Crawl.book)].
Proof.
  intros st. split; [reflexivity|].
  apply (first_transformed_item_wins [Crawl.base_middleware "A"]
           [Crawl.base_middleware "B"] Samples.pricing_middleware
           Crawl.book Samples.priced_book st).
  - reflexivity.
  - repeat constructor; intros w; reflexivity.
  - intros w. exists w. reflexivity.
  - reflexivity.
Defined.

Lemma item_is_sent_only_if_the_filter_accepts_witness :
  truthy (VItem Crawl.book) = true ∧
  ∃ st' evs,
    filter_and_send Samples.plain (VRequest Crawl.golang) Crawl.book
                    (Crawl.start [])
    = (Ok tt, st', evs) ∧
    List.filter is_send_item evs = [EvCall (send_item (VItem Crawl.book))].
Proof.
  split; [reflexivity|].
  destruct (proj2 (item_is_sent_only_if_the_filter_accepts Samples.plain
                     (Crawl.start []) Crawl.golang Crawl.book
                     (VItem Crawl.book) tt eq_refl))
    as (st' & evs & Hrun & Hsend & _).
  - reflexivity.
  - left. reflexivity.
  - intros w. exact I.
  - exists st', evs. split; [exact Hrun|exact Hsend].
Defined.

Lemma requests_are_pushed_in_order_witness :
  let rs := [Crawl.golang; Crawl.golang_guarded] in
  ∃ tasks st1,
    fan_out Samples.plain (VRequest Crawl.golang) (map VRequest rs) []
            (Crawl.start [])
    = (Ok tasks, st1,
       [EvCall (send_request (VRequest Crawl.golang));
        EvCall (send_request (VRequest Crawl.golang_guarded))]) ∧
    length tasks = 2%nat.
Proof.
  intros rs.
  destruct (requests_are_pushed_in_order Samples.plain (VRequest Crawl.golang)
              rs (Crawl.start [])) as (tasks & st1 & Hrun & _).
  - repeat constructor.
  - exists tasks, st1. split; [exact Hrun|].
    cbn in Hrun. by injection Hrun as <- _.
Defined.

Lemma hook_result_bypasses_the_callback_witness :
  let st := Crawl.start [Samples.retry_middleware; Crawl.base_middleware "B"] in
  handle_downloader_response Samples.plain (VRequest Crawl.golang)
                             Crawl.page st
  = (Ok (VRequest Crawl.golang_guarded), st,
     [EvCall (parse_html (VRequest Crawl.golang) Crawl.page);
      EvCall (process_response "Retry" (VRequest Crawl.golang) Crawl.page)]).
Proof.
  intros st.
  apply (hook_result_bypasses_the_callback Samples.plain st st
           (VRequest Crawl.golang) Crawl.page Crawl.page Crawl.page tt
           (VRequest Crawl.golang_guarded)
           [EvCall (process_response "Retry" (VRequest Crawl.golang)
                      Crawl.page)]); reflexivity.
Defined.

Lemma chains_call_only_their_hooks_witness :
  let mws := [Crawl.faulty_middleware Crawl.PostItem false;
              Crawl.base_middleware "B"] in
  ∃ r st' evs,
    item_chain mws Crawl.book (Crawl.start mws) = (r, st', evs) ∧
    r = Raise AttributeError ∧
    Forall (λ ev, is_log ev || is_item_hook ev = true) evs.
Proof.
  intros mws. eexists _, _, _. split; [reflexivity|]. split; [reflexivity|].
  eapply (proj2 (proj2 (proj2 (chains_call_only_their_hooks mws
                                 (Crawl.start mws))))).
  reflexivity.
Defined.

Lemma set_default_fills_only_what_is_missing_witness :
  let s := {| SetDefault.DEFAULT_TIMEOUT := Some 30;
              SetDefault.DEFAULT_HEADERS := Some [] |} in
  let r := {| SetDefault.ro_request := Crawl.golang;
              SetDefault.ro_timeout := None;
              SetDefault.ro_headers := None |} in
  SetDefault.ro_timeout r = None ∧
  SetDefault.ro_timeout (SetDefault.process_request s r) = Some 30.
Proof.
  intros s r. split; [reflexivity|].
  apply (proj1 (proj2 (proj2 (proj2 (proj2
           (set_default_fills_only_what_is_missing s r)))))).
  reflexivity.
Defined.

Lemma handle_returns_the_response_witness :
  let loads := λ _ : string, Raise (A:=Z) "JSONDecodeError"%string in
  let r := SpiderHandle.Parsed (selector:=string) Crawl.page None None in
  SpiderHandle.handle loads id (Some "json"%string) r
  = (Ok r, ["JSONDecodeError"%string]).
Proof.
  intros loads r.
  destruct (handle_returns_the_response loads id "json" r)
    as (r' & logged & Hrun & _ & _ & _ & Hbad).
  destruct (Hbad "JSONDecodeError"%string eq_refl eq_refl) as [-> ->].
  exact Hrun.
Defined.
